(** * dss-reflux: a shallow embedding of the Strategist, the JAM store,
      the reflex workers and the gist bridge

    The development follows the JavaScript sources file by file:

    - [Index]       index.js: [JAMStore], the timing policy, the pattern
                    selector, [analyzeAndGenerateJam] and [detectAndEmit];
    - [Amplifier]   the semantic amplifier (second half of substrate.js):
                    [handleSignal];
    - [Mirror]      the mirror bot: [processSignalEvent];
    - [Gist]        the gist auto-updater: [updateGist];
    - [JamFiles]    the on-disk view of [JAMStore] (one JSON file per hash).

    JavaScript numbers are modelled by exact numbers: counters by [nat],
    millisecond clocks and integer fields by [Z], scores by [Q].  Calls
    whose result is produced outside the repository (the chain client, the
    clock, [Math.random], the HTTP endpoint) are read from an explicit
    environment record, one per invocation; calls that act on the outside
    world are appended to a log carried by the state. *)

From Stdlib Require Import ZArith QArith Qminmax Qround Lqa Lia List.
From Stdlib Require Import Ascii String DecimalString.
From Stdlib Require DecimalPos DecimalZ.
From stdpp Require Import gmap strings list.

Set Warnings "-register-all".

Open Scope Z_scope.

(** ** JavaScript helpers *)

(** [x || d] on numbers: [0] is the only falsy integer. *)
Definition js_or_Z (x d : Z) : Z := if x =? 0 then d else x.

(** [x || d] on a possibly absent property. *)
Definition js_or_opt {A} (x : option A) (d : A) : A :=
  match x with Some v => v | None => d end.

(** [Infinity] is the seed of the [reduce] in
    [getMinDistanceToConsensusWindow]. *)
Inductive ExtZ := Fin (z : Z) | Infinity.

Definition ext_min (a : ExtZ) (b : Z) : ExtZ :=
  match a with
  | Infinity => Fin b
  | Fin x => Fin (Z.min x b)
  end.

Definition ext_leb (a : ExtZ) (b : Z) : bool :=
  match a with
  | Infinity => false
  | Fin x => x <=? b
  end.

(** [Array.prototype.sort] with a comparator: the sort is stable, an element
    [x] goes before [y] when [cmp x y < 0], and elements that compare equal
    keep their input order. *)
Section JsSort.
Context {A : Type} (cmp : A -> A -> Q).

Fixpoint js_insert (x : A) (l : list A) : list A :=
  match l with
  | [] => [x]
  | y :: ys =>
      if Qle_bool (cmp x y) 0 then x :: y :: ys else y :: js_insert x ys
  end.

Fixpoint js_sort (l : list A) : list A :=
  match l with
  | [] => []
  | x :: xs => js_insert x (js_sort xs)
  end.
End JsSort.

(** ** Records stored in the JAM store *)

(** A step of a proverb.  [hook] is absent in the pattern library and set
    when the Strategist builds a record. *)
Record Step := mkStep {
  from : string;
  to : string;
  action : string;
  actor : string;
  hook : option string
}.

Record VectorClock := mkClock { eth : Z; bsv : Z }.

(** [recursiveTopology]: the Strategist writes [{eth, bsv, vectorClock}],
    the amplifier's default [{eth: 1, bsv: 0, bch: 0}] has no clock. *)
Record Topology := mkTopology {
  topo_eth : Z;
  topo_bsv : Z;
  vectorClock : option VectorClock
}.

(** [meta].  Three of its fields are renderings ([toFixed], [join]) of
    numbers held elsewhere and are kept as the text written:
    [timing_quality], [phiRelations] and [recursiveState]. *)
Record Meta := mkMeta {
  timestamp : Z;
  parentJam : option string;
  target_contract : string;
  bytecode_proof : string;
  substrate_hash : string;
  audit_pass : bool;
  bait_hooks : list string;
  pattern_type : string;
  timing_quality : string;
  isPinned : bool;
  microburst : bool;
  nonce : Z;
  recursiveIndices : list Z;
  phiRelations : list string;
  recursiveState : string
}.

(** A stored record.  A property that a reader tests before use ([meta],
    [recursiveTopology]) is optional; [cascadeDepth] absent reads as [0]
    under [|| 0].  [tags] is kept as the text written. *)
Record Jam := mkJam {
  proverb : list Step;
  meta : option Meta;
  tags : list string;
  recursiveTopology : option Topology;
  cascadeDepth : Z;
  resonance : Q
}.

(** A partial update, as passed to [JAMStore.update]: for each key,
    [None] when the object does not have it, its value otherwise. *)
Record JamPatch := mkPatch {
  p_proverb : option (list Step);
  p_meta : option (option Meta);
  p_tags : option (list string);
  p_recursiveTopology : option (option Topology);
  p_cascadeDepth : option Z;
  p_resonance : option Q
}.

(** One key of [{ ...existing, ...updates }]: the value of [updates] when
    it has the key, that of [existing] otherwise. *)
Definition overlay {A} (update : option A) (existing : A) : A :=
  match update with
  | Some value => value
  | None => existing
  end.

(** [{ ...existing, ...updates }] *)
Definition spread (existing : Jam) (updates : JamPatch) : Jam :=
  {| proverb := overlay (p_proverb updates) (proverb existing);
     meta := overlay (p_meta updates) (meta existing);
     tags := overlay (p_tags updates) (tags existing);
     recursiveTopology :=
       overlay (p_recursiveTopology updates) (recursiveTopology existing);
     cascadeDepth := overlay (p_cascadeDepth updates) (cascadeDepth existing);
     resonance := overlay (p_resonance updates) (resonance existing) |}.

(** The test both reflex workers apply to what the store returns for a
    hash: the record exists, has a [meta], and [meta.audit_pass] is set. *)
Definition audited (record : option Jam) : bool :=
  match record with
  | Some jamData =>
      match meta jamData with
      | Some jam_meta => audit_pass jam_meta
      | None => false
      end
  | None => false
  end.

(** ** index.js *)
Module Index.

(** *** JAMStore (lines 13-73), seen through [JSON.parse]: the directory
    [jams/] maps a hash to the record held by [<hash>.json]. *)
Module JAMStore.

Definition store (hash : string) (jamData : Jam) (jams : gmap string Jam)
  : gmap string Jam :=
  <[hash := jamData]> jams.

Definition retrieve (hash : string) (jams : gmap string Jam) : option Jam :=
  jams !! hash.

(** Returns the merged record (or [None] for [null]) and the new store. *)
Definition update (hash : string) (updates : JamPatch) (jams : gmap string Jam)
  : option Jam * gmap string Jam :=
  match retrieve hash jams with
  | Some existing =>
      let updated := spread existing updates in
      (Some updated, store hash updated jams)
  | None => (None, jams)
  end.

End JAMStore.

Open Scope Q_scope.

Definition EXPLORATION_BONUS : Q := 0.2.
Definition COOLDOWN_PENALTY : Q := 0.3.

Definition PHI : Q := 1.618033988749895.
Definition PHI_INVERSE : Q := 0.618033988749895.
Definition PHI_SQUARED : Q := 2.618033988749895.
Definition PHI_CUBED : Q := 4.236067977499790.

(** *** The pattern library (lines 191-224) *)

Inductive PatternId :=
  | CLASSIC_ARBITRAGE | STABLE_ROTATION | YIELD_CAPTURE | LIQUIDITY_PROBE.

#[global] Instance PatternId_eq_dec : EqDecision PatternId.
Proof. solve_decision. Defined.

(** [Object.keys(PROVERB_PATTERNS)]: declaration order. *)
Definition pattern_keys : list PatternId :=
  [CLASSIC_ARBITRAGE; STABLE_ROTATION; YIELD_CAPTURE; LIQUIDITY_PROBE].

Definition pattern_key (p : PatternId) : string :=
  match p with
  | CLASSIC_ARBITRAGE => "CLASSIC_ARBITRAGE"
  | STABLE_ROTATION => "STABLE_ROTATION"
  | YIELD_CAPTURE => "YIELD_CAPTURE"
  | LIQUIDITY_PROBE => "LIQUIDITY_PROBE"
  end.

Record Pattern := mkPattern {
  name : string;
  steps : list Step;
  baseResonance : Q
}.

Definition PROVERB_PATTERNS (p : PatternId) : Pattern :=
  match p with
  | CLASSIC_ARBITRAGE =>
      mkPattern "Classic Arbitrage"
        [mkStep "WETH" "USDC" "SWAP" "AMPLIFIER" None;
         mkStep "USDC" "WETH" "SWAP" "MIRROR" None]
        PHI
  | STABLE_ROTATION =>
      mkPattern "Stable Rotation"
        [mkStep "USDC" "DAI" "SWAP" "AMPLIFIER" None;
         mkStep "DAI" "USDC" "SWAP" "MIRROR" None]
        PHI_INVERSE
  | YIELD_CAPTURE =>
      mkPattern "Yield Capture"
        [mkStep "WETH" "USDC" "SWAP" "AMPLIFIER" None;
         mkStep "USDC" "aUSDC" "DEPOSIT" "MIRROR" None]
        PHI_SQUARED
  | LIQUIDITY_PROBE =>
      mkPattern "Liquidity Probe"
        [mkStep "WETH" "DAI" "SWAP" "AMPLIFIER" None;
         mkStep "DAI" "USDC" "SWAP" "MIRROR" None]
        1
  end.

(** *** Metrics (lines 174-182, 227-229) *)

Record Stats := mkStats {
  attempts : nat;
  successes : nat;
  lastUsed : Z
}.

Record Metrics := mkMetrics {
  totalAnalyses : nat;
  auditPasses : nat;
  auditFails : nat;
  emissionSuccesses : nat;
  emissionFailures : nat;
  lastAuditFailReason : option string;
  patternSuccess : PatternId -> Stats
}.

Definition initial_metrics : Metrics :=
  mkMetrics 0 0 0 0 0 None (fun _ => mkStats 0 0 0).

Definition nat_Q (n : nat) : Q := inject_Z (Z.of_nat n).

(** *** The timing policy (lines 234-288) *)

(** [CONSENSUS_TIMES], as (hour, minute). *)
Definition CONSENSUS_TIMES : list (Z * Z) :=
  [(13, 21); (21, 1); (3, 33); (8, 1); (20, 8)]%Z.

Definition SUBINTERVALS : list Z := [3; 5; 8; 13]%Z.

Definition BASE_EMISSION_INTERVAL : Z := 900000.

(** [getUTCHours() * 60 + getUTCMinutes()] of the instant [now] (ms). *)
Definition utc_minutes_of_day (now : Z) : Z := ((now / 60000) mod 1440)%Z.

(** [getUTCMinutes()] of the instant [now] (ms). *)
Definition utc_minutes (now : Z) : Z := ((now / 60000) mod 60)%Z.

Definition getMinDistanceToConsensusWindow (now : Z) : ExtZ :=
  let currentMinutes := utc_minutes_of_day now in
  fold_left
    (fun minDist time =>
       let windowMinutes := (fst time * 60 + snd time)%Z in
       let distance :=
         Z.min (Z.min (Z.abs (currentMinutes - windowMinutes))
                      (Z.abs (currentMinutes - windowMinutes + 1440)))
               (Z.abs (currentMinutes - windowMinutes - 1440)) in
       ext_min minDist distance)
    CONSENSUS_TIMES Infinity.

Definition getConsensusMultiplier (now : Z) : Q :=
  let minDistance := getMinDistanceToConsensusWindow now in
  if ext_leb minDistance 2 then PHI_SQUARED
  else if ext_leb minDistance 5 then PHI
  else if ext_leb minDistance 8 then PHI_INVERSE
  else if ext_leb minDistance 13 then 1 / PHI_SQUARED
  else 1.

Definition isConsensusTime (now : Z) : bool :=
  ext_leb (getMinDistanceToConsensusWindow now) 2.

(** [SUBINTERVALS.includes(minutes % 15)] *)
Definition isSubInterval (now : Z) : bool :=
  bool_decide ((utc_minutes now mod 15)%Z ∈ SUBINTERVALS).

(** *** The pattern selector (lines 595-623) *)

Definition COOLDOWN : Z := 300000.

Definition successRate_of (stats : Stats) : Q :=
  if (0 <? attempts stats)%nat
  then nat_Q (successes stats) / nat_Q (attempts stats)
  else 0.5.

Definition pattern_score (now : Z) (stats : Stats) : Q :=
  let successRate := successRate_of stats in
  let timeSinceLastUse := (now - js_or_Z (lastUsed stats) 0)%Z in
  let cooldownPenalty :=
    if (timeSinceLastUse <? COOLDOWN)%Z then COOLDOWN_PENALTY else 0 in
  let explorationBonus :=
    if (attempts stats <? 5)%nat then EXPLORATION_BONUS else 0 in
  successRate - cooldownPenalty + explorationBonus.

(** [Object.entries(metrics.patternSuccess).map(...)]: the entries come in
    the order in which lines 227-229 created them. *)
Definition patternScores (m : Metrics) (now : Z) : list (PatternId * Q) :=
  map (fun pattern => (pattern, pattern_score now (patternSuccess m pattern)))
      pattern_keys.

(** The comparator [(a, b) => b.score - a.score]. *)
Definition by_score_desc (a b : PatternId * Q) : Q := snd b - snd a.

Definition selectOptimalPattern (m : Metrics) (now : Z) : PatternId :=
  match js_sort by_score_desc (patternScores m now) with
  | best :: _ => fst best
  | [] => CLASSIC_ARBITRAGE
  end.

Definition getPatternSuccessRate (m : Metrics) (pattern : PatternId) : Q :=
  let stats := patternSuccess m pattern in
  if (attempts stats =? 0)%nat then 0.5
  else nat_Q (successes stats) / nat_Q (attempts stats).

(** *** Recursive pressure (lines 689-718) *)

Record MissedVector := mkVector {
  count : nat;
  timestamps : list Z;
  intensities : list Q
}.

(** The [reduce] of [calculateVectorMagnitude]: [idx] is the index of the
    head of [l] and [len] the length of the whole array. *)
Fixpoint weighted_sum (len : Q) (idx : nat) (l : list Q) (acc : Q) : Q :=
  match l with
  | [] => acc
  | intensity :: rest =>
      let recencyWeight := nat_Q (idx + 1) / len in
      weighted_sum len (S idx) rest (acc + intensity * recencyWeight)
  end.

Definition calculateVectorMagnitude (vector : MissedVector) : Q :=
  match intensities vector with
  | [] => 0
  | _ =>
      let len := nat_Q (length (intensities vector)) in
      weighted_sum len 0 (intensities vector) 0 / len
  end.

(** Only [magnitude] and [baseAmplification] are functions of the arguments
    alone; [recency] and [density] read the clock and no caller reads them. *)
Record PressureVector := mkPressure {
  magnitude : Q;
  baseAmplification : Q
}.

Definition generateRecursivePressureVector (vector : MissedVector)
    (baseResonance : Q) : PressureVector :=
  let magnitude := calculateVectorMagnitude vector in
  mkPressure magnitude (baseResonance * (1 + magnitude * 0.1)).

(** *** System state (lines 170-171, 246-255) with the [jams/] directory and
    the log of calls made on the vault contract and the BSV bridge. *)

Inductive Call :=
  | emitSignal (hash : string)
  | emitRecursiveSignal (hash parentHash : string)
  | bridgeToBSV (hash : string).

Record State := mkState {
  lastHash : option string;
  isEmitting : bool;
  metrics : Metrics;
  emittedSignals : gset string;
  lastEmissionTime : Z;
  missedEmissions : nat;
  missedEmissionsVector : MissedVector;
  jams : gmap string Jam;
  calls : list Call
}.

Definition initial_state (jams : gmap string Jam) : State :=
  mkState None false initial_metrics ∅ 0 0 (mkVector 0 [] []) jams [].

(** [ethers.ZeroHash] *)
Definition ZeroHash : string :=
  "0x0000000000000000000000000000000000000000000000000000000000000000".

(** A hash that passes a truthiness test: [null] and the empty string are
    falsy. *)
Definition truthy (h : option string) : option string :=
  match h with
  | Some s => if String.eqb s "" then None else Some s
  | None => None
  end.

(** *** generateVectorClock (lines 751-768) *)
Definition generateVectorClock (jams : gmap string Jam)
    (parentHash : option string) : VectorClock :=
  let clock := mkClock 0 0 in
  let clock :=
    match truthy parentHash with
    | Some parentHash =>
        match JAMStore.retrieve parentHash jams with
        | Some parentJam =>
            match recursiveTopology parentJam with
            | Some topology =>
                match vectorClock topology with
                | Some parentClock => parentClock
                | None => clock
                end
            | None => clock
            end
        | None => clock
        end
    | None => clock
    end in
  mkClock (eth clock + 1) (bsv clock).

(** *** The Verification Oracle's answer, as read by the Strategist *)
Record Analysis := mkAnalysis {
  a_audit_pass : bool;
  a_reason : option string;
  (** [None]: the property is missing or is not an array *)
  a_bait_hooks : option (list string);
  a_address : string;
  a_bytecode_proof : string;
  a_substrate_hash : string
}.

Inductive AnalysisOutcome :=
  | Threw
  | Returned (analysis : Analysis).

Inductive TxOutcome :=
  | SendRejected   (** the vault call throws *)
  | WaitRejected   (** [tx.wait()] throws *)
  | Mined.

(** What one invocation of [detectAndEmit] reads from outside. *)
Record CycleEnv := mkEnv {
  t_check : Z;                        (** clock during the timing checks *)
  rand : Q;                           (** [Math.random()] of line 486 *)
  analyze : nat -> AnalysisOutcome;   (** [analyzeContract], per attempt *)
  t_build : Z;                        (** clock while the record is built *)
  rand_nonce : Q;                     (** [Math.random()] of line 381 *)
  timing_quality_text : string;       (** line 378 *)
  recursiveState_text : string;       (** [compressRecursiveState(...)] *)
  tags_text : list string;            (** lines 389-394 *)
  write_ok : bool;                    (** [fs.writeFileSync] returns *)
  fee_ok : bool;                      (** [getFeeData] returns *)
  tx_outcome : TxOutcome;
  t_emit : Z;                         (** clock after inclusion *)
  bsv_echo : option bool              (** [None]: disabled; [Some ok] *)
}.

Definition MAX_RETRIES : nat := 3.

(** [analysis.bait_hooks[index] || 'swap'] *)
Definition hook_at (hooks : list string) (index : nat) : string :=
  match hooks !! index with
  | Some h => if String.eqb h "" then "swap" else h
  | None => "swap"
  end.

Definition bump_attempts (m : Metrics) (selected : PatternId) (now : Z)
    : Metrics :=
  mkMetrics (totalAnalyses m) (auditPasses m) (auditFails m)
    (emissionSuccesses m) (emissionFailures m) (lastAuditFailReason m)
    (fun p =>
       if decide (p = selected)
       then mkStats (S (attempts (patternSuccess m p)))
                    (successes (patternSuccess m p)) now
       else patternSuccess m p).

Definition bump_successes (m : Metrics) (selected : PatternId) : Metrics :=
  mkMetrics (totalAnalyses m) (auditPasses m) (auditFails m)
    (emissionSuccesses m) (emissionFailures m) (lastAuditFailReason m)
    (fun p =>
       if decide (p = selected)
       then mkStats (attempts (patternSuccess m p))
                    (S (successes (patternSuccess m p)))
                    (lastUsed (patternSuccess m p))
       else patternSuccess m p).

Definition set_totalAnalyses (m : Metrics) (n : nat) : Metrics :=
  mkMetrics n (auditPasses m) (auditFails m) (emissionSuccesses m)
    (emissionFailures m) (lastAuditFailReason m) (patternSuccess m).

Definition audit_failed (m : Metrics) (reason : option string) : Metrics :=
  mkMetrics (totalAnalyses m) (auditPasses m) (S (auditFails m))
    (emissionSuccesses m) (emissionFailures m) reason (patternSuccess m).

Definition retries_exhausted (m : Metrics) : Metrics :=
  mkMetrics (totalAnalyses m) (auditPasses m) (S (auditFails m))
    (emissionSuccesses m) (emissionFailures m) (lastAuditFailReason m)
    (patternSuccess m).

Definition audit_passed (m : Metrics) : Metrics :=
  mkMetrics (totalAnalyses m) (S (auditPasses m)) (auditFails m)
    (emissionSuccesses m) (emissionFailures m) (lastAuditFailReason m)
    (patternSuccess m).

Definition emission_succeeded (m : Metrics) : Metrics :=
  mkMetrics (totalAnalyses m) (auditPasses m) (auditFails m)
    (S (emissionSuccesses m)) (emissionFailures m) (lastAuditFailReason m)
    (patternSuccess m).

Definition emission_failed (m : Metrics) : Metrics :=
  mkMetrics (totalAnalyses m) (auditPasses m) (auditFails m)
    (emissionSuccesses m) (S (emissionFailures m)) (lastAuditFailReason m)
    (patternSuccess m).

(** Lines 348-349. *)
Definition adjustedConfidence (baseResonance successRate : Q)
    (missedEmissions : nat) (magnitude : Q) : Q :=
  Qmin 0.99
    (baseResonance * (0.5 + successRate * 0.5)
     + nat_Q missedEmissions * 0.1 + magnitude * 0.05).

(** Line 352. *)
Definition adaptiveResonance (adjusted consensusMultiplier : Q) : Q :=
  adjusted * consensusMultiplier.

(** Lines 392 and 401:
    [lastHash ? (jamStore.retrieve(lastHash)?.cascadeDepth || 0) + 1 : 1] *)
Definition next_cascadeDepth (jams : gmap string Jam)
    (lastHash : option string) : Z :=
  match truthy lastHash with
  | Some lastHash =>
      (js_or_Z
         (js_or_opt (cascadeDepth <$> JAMStore.retrieve lastHash jams) 0) 0
       + 1)%Z
  | None => 1%Z
  end.

Section Strategist.

(** [ethers.keccak256(ethers.toUtf8Bytes(JSON.stringify(jam)))] *)
Variable keccak256 : Jam -> string.

(** The body of the [try] of [analyzeAndGenerateJam] once
    [analyzeContract] has returned [analysis] (lines 311-412). *)
Definition generateJam (env : CycleEnv) (s : State) (analysis : Analysis)
    : option (Jam * string) * Metrics :=
  let m := metrics s in
  if negb (a_audit_pass analysis) then
    (None, audit_failed m (a_reason analysis))
  else
    match a_bait_hooks analysis with
    | None => (None, m)
    | Some hooks =>
        let m := audit_passed m in
        let now := t_build env in
        let selectedPattern := selectOptimalPattern m now in
        let pattern := PROVERB_PATTERNS selectedPattern in
        let proverb :=
          imap (fun index step =>
                  mkStep (from step) (to step) (action step) (actor step)
                         (Some (hook_at hooks index)))
               (steps pattern) in
        let successRate := getPatternSuccessRate m selectedPattern in
        let consensusMultiplier := getConsensusMultiplier now in
        let recursivePressureVector :=
          generateRecursivePressureVector (missedEmissionsVector s)
            (baseResonance pattern) in
        let adjusted :=
          adjustedConfidence (baseResonance pattern) successRate
            (missedEmissions s) (magnitude recursivePressureVector) in
        let resonance := adaptiveResonance adjusted consensusMultiplier in
        let minutes := utc_minutes now in
        let clock := generateVectorClock (jams s) (lastHash s) in
        let jam :=
          {| proverb := proverb;
             meta := Some
               {| timestamp := (now / 1000)%Z;
                  parentJam := lastHash s;
                  target_contract := a_address analysis;
                  bytecode_proof := a_bytecode_proof analysis;
                  substrate_hash := a_substrate_hash analysis;
                  audit_pass := true;
                  bait_hooks := hooks;
                  pattern_type := pattern_key selectedPattern;
                  timing_quality := timing_quality_text env;
                  isPinned := ext_leb (getMinDistanceToConsensusWindow now) 2;
                  microburst := isSubInterval now;
                  nonce := Qfloor (rand_nonce env * 1000000);
                  recursiveIndices :=
                    map (fun si => if (minutes mod 15 =? si)%Z then 1%Z else 0%Z)
                        SUBINTERVALS;
                  phiRelations := ["1.618"; "0.618"; "1.000"];
                  recursiveState := recursiveState_text env |};
             tags := tags_text env;
             recursiveTopology := Some (mkTopology 1 0 (Some clock));
             cascadeDepth := next_cascadeDepth (jams s) (lastHash s);
             resonance := resonance |} in
        let m := bump_attempts m selectedPattern now in
        (Some (jam, keccak256 jam), m)
    end.

(** [analyzeAndGenerateJam(retryCount)]: [left] is
    [MAX_RETRIES - retryCount], the number of retries still allowed. *)
Fixpoint analyzeAndGenerateJam_from (left retryCount : nat)
    (env : CycleEnv) (s : State) (m : Metrics)
    : option (Jam * string) * Metrics :=
  let m := set_totalAnalyses m (S (totalAnalyses m)) in
  match analyze env retryCount with
  | Returned analysis =>
      generateJam env
        (mkState (lastHash s) (isEmitting s) m (emittedSignals s)
           (lastEmissionTime s) (missedEmissions s)
           (missedEmissionsVector s) (jams s) (calls s))
        analysis
  | Threw =>
      match left with
      | S left' => analyzeAndGenerateJam_from left' (S retryCount) env s m
      | O => (None, retries_exhausted m)
      end
  end.

Definition analyzeAndGenerateJam (env : CycleEnv) (s : State)
    : option (Jam * string) * Metrics :=
  analyzeAndGenerateJam_from MAX_RETRIES 0 env s (metrics s).

(** [slice(-5)] *)
Definition last5 {A} (l : list A) : list A := drop (length l - 5) l.

(** Lines 457-469: the cycle is skipped and counted as missed. *)
Definition record_missed (s : State) (currentTime : Z)
    (currentConsensusMultiplier : Q) : State :=
  let v := missedEmissionsVector s in
  mkState (lastHash s) false (metrics s) (emittedSignals s)
    (lastEmissionTime s) (S (missedEmissions s))
    (mkVector (S (count v)) (timestamps v ++ [currentTime])
       (intensities v ++ [currentConsensusMultiplier]))
    (jams s) (calls s).

Definition set_isEmitting (s : State) (b : bool) : State :=
  mkState (lastHash s) b (metrics s) (emittedSignals s)
    (lastEmissionTime s) (missedEmissions s) (missedEmissionsVector s)
    (jams s) (calls s).

Definition set_metrics (s : State) (m : Metrics) : State :=
  mkState (lastHash s) (isEmitting s) m (emittedSignals s)
    (lastEmissionTime s) (missedEmissions s) (missedEmissionsVector s)
    (jams s) (calls s).

Definition set_jams (s : State) (j : gmap string Jam) : State :=
  mkState (lastHash s) (isEmitting s) (metrics s) (emittedSignals s)
    (lastEmissionTime s) (missedEmissions s) (missedEmissionsVector s)
    j (calls s).

Definition log_call (s : State) (c : Call) : State :=
  mkState (lastHash s) (isEmitting s) (metrics s) (emittedSignals s)
    (lastEmissionTime s) (missedEmissions s) (missedEmissionsVector s)
    (jams s) (calls s ++ [c]).

(** The handler of line 567: count the failure. *)
Definition emit_cycle_failed (s : State) : State :=
  set_metrics s (emission_failed (metrics s)).

(** Lines 529-534: which vault entry point is called. *)
Definition submission (lastHash : option string) (hash : string) : Call :=
  match truthy lastHash with
  | Some lastHash =>
      if String.eqb lastHash ZeroHash then emitSignal hash
      else emitRecursiveSignal hash lastHash
  | None => emitSignal hash
  end.

(** Lines 538-560: bookkeeping after inclusion. *)
Definition record_success (env : CycleEnv) (s : State) (jam : Jam)
    (hash : string) (selected : option PatternId) : State :=
  let v := missedEmissionsVector s in
  let m := emission_succeeded (metrics s) in
  let m := match selected with
           | Some p => bump_successes m p
           | None => m
           end in
  mkState (Some hash) (isEmitting s) m ({[hash]} ∪ emittedSignals s)
    (t_emit env) 0
    (mkVector 0 (last5 (timestamps v)) (last5 (intensities v)))
    (jams s) (calls s).

(** The pattern whose key is [jam.meta.pattern_type], if any. *)
Definition pattern_of_key (key : string) : option PatternId :=
  List.find (fun p => String.eqb (pattern_key p) key) pattern_keys.

(** Lines 508-565, with the handler of lines 567-577: the emit half of a
    cycle, entered with a freshly built record. *)
Definition emit (env : CycleEnv) (s : State) (jam : Jam) (hash : string)
    : State :=
  if negb (write_ok env) then emit_cycle_failed s
  else
    let s := set_jams s (JAMStore.store hash jam (jams s)) in
    if negb (fee_ok env) then emit_cycle_failed s
    else
      let s := log_call s (submission (lastHash s) hash) in
      match tx_outcome env with
      | SendRejected | WaitRejected => emit_cycle_failed s
      | Mined =>
          let s :=
            record_success env s jam hash
              ((pattern_type <$> meta jam) ≫= pattern_of_key) in
          match bsv_echo env with
          | None => s
          | Some ok =>
              let s := log_call s (bridgeToBSV hash) in
              if ok then s else emit_cycle_failed s
          end
      end.

(** Line 483. *)
Definition emissionProbability (currentConsensusMultiplier : Q) : Q :=
  0.3 + 0.7 * (currentConsensusMultiplier - 1) / 1.618.

(** The outcome of the timing checks of lines 441-495. *)
Inductive Verdict :=
  | Missed (currentConsensusMultiplier : Q)   (** lines 457-469 *)
  | Skipped                                   (** lines 488-492 *)
  | Proceed.

Definition timing_checks (env : CycleEnv) (s : State) : Verdict :=
  let currentTime := t_check env in
  let isSub := isSubInterval currentTime in
  let currentConsensusMultiplier := getConsensusMultiplier currentTime in
  let isAligned := isConsensusTime currentTime in
  let adjustedInterval :=
    Z.max 60000
      (Qfloor (inject_Z BASE_EMISSION_INTERVAL / currentConsensusMultiplier)) in
  if negb isSub && (0 <? lastEmissionTime s)%Z
     && (currentTime - lastEmissionTime s <? adjustedInterval)%Z
  then Missed currentConsensusMultiplier
  else if isAligned then Proceed
  else
    let shouldEmit :=
      negb (Qle_bool (emissionProbability currentConsensusMultiplier)
                     (rand env))
      || isSub in
    if negb shouldEmit then Skipped else Proceed.

(** [detectAndEmit] (lines 433-590).

    The braces of the source do not balance: the handler opened on line
    567 is never closed.  The embedding closes it after line 577, which is
    the only placement under which lines 578-590 are well formed: the
    [break] of line 578 then leaves the [for] loop on its first iteration,
    and line 589 releases the flag after the loop.  The [return]s of lines
    437 and 506 leave the function without passing line 589.

    The handlers of lines 496-500 and 579-587 have nothing to catch: the
    timing checks are arithmetic on the clock, and what the calls of the
    cycle throw is caught by the handler of line 567 ([emit]). *)
Definition detectAndEmit (env : CycleEnv) (s : State) : State :=
  if isEmitting s then s
  else
    let s := set_isEmitting s true in
    match timing_checks env s with
    | Missed currentConsensusMultiplier =>
        record_missed s (t_check env) currentConsensusMultiplier
    | Skipped => set_isEmitting s false
    | Proceed =>
        let s := set_isEmitting s true in
        let '(result, m) := analyzeAndGenerateJam env s in
        let s := set_metrics s m in
        match result with
        | None => s
        | Some (jam, hash) => set_isEmitting (emit env s jam hash) false
        end
    end.

(** The answer [analyzeAndGenerateJam] works on: that of the first
    attempt at which [analyzeContract] returns, if one of the
    [1 + MAX_RETRIES] attempts does. *)
Fixpoint first_answer_from (left retryCount : nat) (env : CycleEnv)
    : option Analysis :=
  match analyze env retryCount with
  | Returned analysis => Some analysis
  | Threw =>
      match left with
      | S left' => first_answer_from left' (S retryCount) env
      | O => None
      end
  end.

Definition first_answer (env : CycleEnv) : option Analysis :=
  first_answer_from MAX_RETRIES 0 env.

(** The record under [lastHash], when the store has one. *)
Definition latest_record (s : State) : option Jam :=
  match truthy (lastHash s) with
  | Some hash => JAMStore.retrieve hash (jams s)
  | None => None
  end.

(** The own-chain counter of a record's vector clock. *)
Definition own_clock (jam : Jam) : option Z :=
  eth <$> (recursiveTopology jam ≫= vectorClock).

(** A run of cycles, one environment per call. *)
Definition cycles (envs : list CycleEnv) (s : State) : State :=
  fold_left (fun s env => detectAndEmit env s) envs s.

(** The cycle run on [s] under [env] submitted a record and saw it
    included. *)
Definition succeeded (env : CycleEnv) (s : State) : Prop :=
  emissionSuccesses (metrics (detectAndEmit env s))
  = S (emissionSuccesses (metrics s)).

Fixpoint all_succeeded (envs : list CycleEnv) (s : State) : Prop :=
  match envs with
  | [] => True
  | env :: rest =>
      succeeded env s /\ all_succeeded rest (detectAndEmit env s)
  end.

(** The states the Strategist can be in: it starts from the initial
    values of its variables, over any [jams/] directory, and then runs
    cycles. *)
Inductive reachable : State -> Prop :=
  | reachable_start jams : reachable (initial_state jams)
  | reachable_cycle env s :
      reachable s -> reachable (detectAndEmit env s).

End Strategist.

End Index.

(** ** dex-config.js: the token table read by both reflex workers *)

Definition TOKENS : list (string * string) :=
  [("WETH", "0x4200000000000000000000000000000000000006");
   ("USDC", "0x833589fcd6edb6e08f4c7c32d4f71b54bda02913");
   ("USDbC", "0xd9aaec86b65d86f6a7b5b1b0c42ffa531710b6ca");
   ("DAI", "0x50c5725949a6f0c72e6c4a641f24049a917db0cb");
   ("AERO", "0x940181a94a35a4569e4529a3cdfb74e38fd98631");
   ("cbETH", "0x2ae3f1ec7f1f5012cfeab0185bfc7aa3cf0dec22");
   ("cUSDC", "0x9c4ec768c28520b50860ea7a15bd7213a9ff58bf");
   ("aUSDC", "0x4e65fe4dba92790696d040ac24aa414708f5c0ab");
   ("cDAI", "0x60fa50ebb6bbf0854ad96bc2b9a1a4fd615c30f3");
   ("cUSDbC", "0xb125e6687d4313864e53df431d5425969c15eb2f");
   ("wstETH", "0xc1cba3fcea344f92d9239c08c0568f6f2f0ee452");
   ("rETH", "0xb6fe221fe9eef5aba221c348ba20a1bf5e73624c");
   ("sDAI", "0x86C08Cf2bD62471f22cE56ac3D656ea8D55a7D05");
   ("COMP", "0x9e1028f5f1d5ede59748ffcee5532509976840e0");
   ("AAVE", "0x18470019bf0e94611f15852f7e93cf5d65bc34ca")].

(** [TOKENS[name]] *)
Definition token_address (name : string) : option string :=
  snd <$> List.find (fun entry => String.eqb (fst entry) name) TOKENS.

Definition WETH : string := "0x4200000000000000000000000000000000000006".

(** The mapping both workers apply to a step's [from] and [to]:
    ETH and WETH go to [WETH], any other name through [TOKENS]. *)
Definition resolve_token (name : string) : option string :=
  if String.eqb name "ETH" || String.eqb name "WETH" then Some WETH
  else token_address name.

(** The outcome of an awaited call. *)
Inductive Awaited (A : Type) :=
  | Rejected
  | Resolved (value : A).
Arguments Rejected {A}.
Arguments Resolved {A} value.

(** [proverb.find(step => step.actor === who)] *)
Definition find_actor (who : string) (proverb : list Step) : option Step :=
  List.find (fun step => String.eqb (actor step) who) proverb.

(** ** The semantic amplifier (substrate.js, from line 252) *)
Module Amplifier.

Record Dex := mkDex { NAME : string; ROUTER : string; TYPE : string }.

(** Calls that act on the chain or on the bridge, each for a signal hash. *)
Inductive Action :=
  | sendTransaction (router : string) (hash : string)   (** line 877 *)
  | sendRawBundle (router : string) (hash : string)     (** line 957 *)
  | transfer (token : string) (hash : string)           (** line 1209 *)
  | bridgeToBSV (hash : string)                         (** line 1264 *)
  | emitRecursiveSignal (hash : string).                (** line 1348 *)

(** The module-level variables the control flow of [handleSignal] reads
    or writes (lines 266-288), the [jams/] directory and the log of
    actions.  [amplifiedSignals], a map from transaction hash to an entry,
    is kept as the list of the signal hashes of its entries. *)
Record State := mkState {
  isAmplifying : bool;
  DEX_CASCADE : list Dex;
  amplifiedSignals : list string;
  jams : gmap string Jam;
  actions : list Action
}.

(** The transaction behind the event, as far as lines 730-755 read it. *)
Record TxInfo := mkTx {
  from_emitter : bool;     (** [tx.from] is [YOUR_EMITTER], up to case *)
  to_vault : bool;         (** [tx.to] is [VAULT_ADDRESS], up to case *)
  decodes_signal : bool    (** [parseTransaction] yields a [...Signal] call *)
}.

(** How the body of the cascade loop (lines 862-1023) ends for one DEX. *)
Inductive DexOutcome :=
  | NonceRejected         (** [getNextNonce] throws (line 869) *)
  | BaitRejected          (** [sendTransaction] throws (line 877) *)
  | BaitReverted          (** [publicTx.wait()] throws (line 885) *)
  | MirrorEmpty           (** the mirror wallet holds nothing (line 895) *)
  | CaptureSetupFailed    (** a call of lines 892-954 throws *)
  | BundleRejected        (** [sendRawBundle] throws or answers an error *)
  | BundleSettled.        (** line 963 returns, included or not *)

(** What one invocation of [handleSignal] reads from outside. *)
Record SignalEnv := mkEnv {
  getTransaction : Awaited (option TxInfo);
  gasPrice : Awaited Z;             (** [getFeeData().gasPrice], in wei *)
  cascade : list Dex;               (** [getRecursiveDEXCascade(...)] *)
  getBalance : Awaited Z;           (** line 836 *)
  finalTradeAmount : Z;             (** [calculateTradeAmount(...)], in wei *)
  dex_outcome : nat -> DexOutcome;  (** by position in the cascade *)
  MAX_GAS_PRICE : Z;
  receipt : Awaited unit;           (** [swapTx.wait()] of line 1159 *)
  tokenBalance : Awaited Z;         (** line 1194 *)
  bridge_ok : nat -> bool;          (** [bridgeToBSV], per attempt *)
  recursive_signal : option bool    (** line 1347: [None] when not taken *)
}.

Definition MAX_RETRIES : nat := 3.

Definition set_lock (s : State) (b : bool) : State :=
  mkState b (DEX_CASCADE s) (amplifiedSignals s) (jams s) (actions s).

Definition set_cascade (s : State) (c : list Dex) : State :=
  mkState (isAmplifying s) c (amplifiedSignals s) (jams s) (actions s).

Definition set_jams (s : State) (j : gmap string Jam) : State :=
  mkState (isAmplifying s) (DEX_CASCADE s) (amplifiedSignals s) j (actions s).

Definition note_amplified (s : State) (hash : string) : State :=
  mkState (isAmplifying s) (DEX_CASCADE s) (amplifiedSignals s ++ [hash])
    (jams s) (actions s).

Definition act (s : State) (a : Action) : State :=
  mkState (isAmplifying s) (DEX_CASCADE s) (amplifiedSignals s) (jams s)
    (actions s ++ [a]).

(** The number of bait swaps sent for [hash] among [log]. *)
Definition bait_swaps (hash : string) (log : list Action) : nat :=
  length
    (List.filter
       (fun a =>
          match a with
          | sendTransaction _ h => String.eqb h hash
          | _ => false
          end)
       log).

(** How a block of the handler ends. *)
Inductive Control :=
  | Returned (s : State)    (** a [return]: the function is left *)
  | Completed (s : State)   (** the block ran to its end *)
  | Thrown (s : State).     (** an exception leaves the block *)

(** [isSemanticallyLegible] (lines 341-388) on a step found in a stored
    record, a [bigint] amount and a two-token path. *)
Definition MIN_SIGNAL_THRESHOLD : Z := 100000000000.

Definition isSemanticallyLegible (step : Step) (tradeAmount : Z)
    (swapPath : list string) : bool :=
  negb (tradeAmount =? 0)%Z
  && negb (String.eqb (from step) "")
  && negb (String.eqb (to step) "")
  && negb (String.eqb (action step) "")
  && (MIN_SIGNAL_THRESHOLD <=? tradeAmount)%Z
  && (length swapPath =? 2)%nat
  && forallb (fun token => existsb (fun entry => String.eqb (snd entry) token) TOKENS)
             swapPath.

(** [dex.ROUTER === DEX_CASCADE[DEX_CASCADE.length - 1].ROUTER] *)
Definition is_last_router (dex : Dex) (cascade : list Dex) : bool :=
  match last cascade with
  | Some final => String.eqb (ROUTER dex) (ROUTER final)
  | None => false
  end.

(** The cascade loop (lines 861-1034).  [index] is the position of the head
    of [todo] in [DEX_CASCADE]; the result carries [swapTx], set on line
    1019 when a DEX went through. *)
Fixpoint try_cascade (env : SignalEnv) (hash : string) (has_mirror : bool)
    (todo : list Dex) (index : nat) (s : State) : Control * bool :=
  match todo with
  | [] => (Completed s, false)
  | dex :: rest =>
      let failed (s : State) :=
        if is_last_router dex (DEX_CASCADE s) then (Thrown s, false)
        else try_cascade env hash has_mirror rest (S index) s in
      match dex_outcome env index with
      | NonceRejected => failed s
      | BaitRejected => failed (act s (sendTransaction (ROUTER dex) hash))
      | BaitReverted => failed (act s (sendTransaction (ROUTER dex) hash))
      | outcome =>
          let s := act s (sendTransaction (ROUTER dex) hash) in
          if negb has_mirror then failed s
          else
            match outcome with
            | MirrorEmpty => (Returned s, false)
            | CaptureSetupFailed => failed s
            | BundleRejected => failed (act s (sendRawBundle (ROUTER dex) hash))
            | _ => (Completed (act s (sendRawBundle (ROUTER dex) hash)), true)
            end
      end
  end.

(** [withRetries(operation, 'BSV-Bridge')] around lines 1260-1278: at most
    three attempts; the first that succeeds merges the incremented [bsv]
    counter into the stored record. *)
Fixpoint bridge_with_retries (env : SignalEnv) (hash : string)
    (topology : Topology) (left attempt : nat) (s : State) : State :=
  match left with
  | O => s
  | S left' =>
      let s := act s (bridgeToBSV hash) in
      if bridge_ok env attempt then
        let topology :=
          mkTopology (topo_eth topology) (js_or_Z (topo_bsv topology) 0 + 1)
            (vectorClock topology) in
        set_jams s
          (snd (Index.JAMStore.update hash
                  (mkPatch None None None (Some (Some topology)) None None)
                  (jams s)))
      else bridge_with_retries env hash topology left' (S attempt) s
  end.

(** Lines 1036-1357: what follows the cascade once [swapTx] is set. *)
Definition after_swap (env : SignalEnv) (hash : string) (jamData : Jam)
    (myStep : Step) (gas : Z) (s : State) : Control :=
  if (MAX_GAS_PRICE env <? gas)%Z then Returned s
  else if negb (existsb
                  (fun step => String.eqb (actor step) "AMPLIFIER"
                               && String.eqb (action step) "SWAP")
                  (proverb jamData))
  then Returned s
  else
    let s := note_amplified s hash in
    match receipt env with
    | Rejected => Thrown s
    | Resolved _ =>
        match resolve_token (to myStep) with
        | None => Returned s
        | Some tokenAddress =>
            match tokenBalance env with
            | Rejected => Thrown s
            | Resolved balance =>
                let s :=
                  if (0 <? balance)%Z then act s (transfer tokenAddress hash)
                  else s in
                let topology :=
                  js_or_opt (recursiveTopology jamData) (mkTopology 1 0 None) in
                let s := bridge_with_retries env hash topology 3 0 s in
                let s :=
                  match recursive_signal env with
                  | Some _ => act s (emitRecursiveSignal hash)
                  | None => s
                  end in
                Completed s
            end
        end
    end.

(** The inner [try] block (lines 765-1357). *)
Definition amplify (env : SignalEnv) (hash : string) (s : State) : Control :=
  match gasPrice env with
  | Rejected => Thrown s
  | Resolved gas =>
      match Index.JAMStore.retrieve hash (jams s) with
      | None => Returned s
      | Some jamData =>
          match meta jamData with
          | None => Returned s
          | Some jam_meta =>
              if negb (audit_pass jam_meta) then Returned s
              else
                match find_actor "AMPLIFIER" (proverb jamData) with
                | None => Returned s
                | Some myStep =>
                    if negb (String.eqb (action myStep) "SWAP") then Returned s
                    else
                      let s := set_cascade s (cascade env) in
                      match resolve_token (from myStep),
                            resolve_token (to myStep) with
                      | Some fromToken, Some toToken =>
                          match getBalance env with
                          | Rejected => Thrown s
                          | Resolved _ =>
                              if negb (isSemanticallyLegible myStep
                                         (finalTradeAmount env)
                                         [fromToken; toToken])
                              then Returned s
                              else
                                let has_mirror :=
                                  bool_decide
                                    (is_Some (find_actor "MIRROR" (proverb jamData))) in
                                match try_cascade env hash has_mirror
                                        (DEX_CASCADE s) 0 s with
                                | (Completed s, true) =>
                                    after_swap env hash jamData myStep gas s
                                | (Completed s, false) => Thrown s
                                | (other, _) => other
                                end
                          end
                      | _, _ => Returned s
                      end
                end
          end
      end
  end.

(** One pass through the body of the retry loop (lines 711-1375).  An
    exception of the inner block is caught on line 1358 and the pass ends
    with the [break] of line 1366. *)
Definition attempt (env : SignalEnv) (hash : string) (s : State) : Control :=
  if isAmplifying s then Returned s
  else
    let s := set_lock s true in
    match getTransaction env with
    | Rejected => Thrown s
    | Resolved None => Returned (set_lock s false)
    | Resolved (Some tx) =>
        if negb (from_emitter tx) then Returned (set_lock s false)
        else if to_vault tx && negb (decodes_signal tx)
        then Returned (set_lock s false)
        else
          match amplify env hash s with
          | Returned s => Returned s
          | Completed s | Thrown s => Completed s
          end
    end.

(** The retry loop (line 710), with [left] iterations to go. *)
Fixpoint retry_loop (env : SignalEnv) (hash : string) (left : nat)
    (s : State) : State :=
  match left with
  | O => set_lock s false
  | S left' =>
      match attempt env hash s with
      | Returned s => s
      | Completed s => set_lock s false
      | Thrown s => retry_loop env hash left' s
      end
  end.

(** [handleSignal] (lines 706-1379).

    The braces of the source do not balance here either: the [try] of line
    720 has no handler.  As in index.js, the [break] of line 1366 and the
    handler of line 1367 belong to the [try] of line 711 that wraps one
    pass of the retry loop, and line 1377 releases the lock after the loop.
    The names [encodedData] (line 879) and [actualProfitRatio] (line 1139)
    are bound nowhere in the file; the embedding takes them as bound. *)
Definition handleSignal (env : SignalEnv) (hash : string) (s : State)
    : State :=
  retry_loop env hash MAX_RETRIES s.

End Amplifier.

(** ** The mirror bot (mirror.js) *)
Module Mirror.

(** Calls that act on the chain, each for a signal hash. *)
Inductive Action :=
  | approve (token : string) (hash : string)
  | executeProverb (hash : string)
  | deposit (token : string) (hash : string)
  | mint (token : string) (hash : string).

(** Module-level variables, the [jams/] directory and the log of actions. *)
Record State := mkState {
  mirroredSignals : gset string;
  totalMirrored : nat;
  jams : gmap string Jam;
  actions : list Action
}.

(** How the execution of the assigned step ends. *)
Inductive StepOutcome :=
  | BalanceRejected     (** [balanceOf] or [decimals] throws *)
  | BalanceZero
  | ApproveRejected     (** [approve] throws, or its [wait()] does *)
  | ActionRejected      (** the swap or deposit call throws, or is reverted *)
  | Confirmed.

Record EventEnv := mkEnv {
  event_present : bool;
  getTransaction : Awaited bool;   (** [tx.from] is [YOUR_SIGNAL_WALLET] *)
  step_outcome : StepOutcome
}.

Definition act (s : State) (a : Action) : State :=
  mkState (mirroredSignals s) (totalMirrored s) (jams s) (actions s ++ [a]).

Definition mark_mirrored (s : State) (hash : string) : State :=
  mkState ({[hash]} ∪ mirroredSignals s) (totalMirrored s) (jams s) (actions s).

Definition count_mirrored (s : State) : State :=
  mkState (mirroredSignals s) (S (totalMirrored s)) (jams s) (actions s).

(** [safeRetrieveJam]: the stored [proverb] and [meta], or the defaults
    [[]] and [{}]; an empty [meta] has no [audit_pass]. *)
Definition safeRetrieveJam (hash : string) (jams : gmap string Jam)
    : list Step * option Meta :=
  match Index.JAMStore.retrieve hash jams with
  | Some data => (proverb data, meta data)
  | None => ([], None)
  end.

(** The approve-then-act sequence shared by the four branches: [after] is
    run once the action is confirmed. *)
Definition approve_then (env : EventEnv) (hash : string) (token : string)
    (action : Action) (after : State -> State) (s : State) : State :=
  match step_outcome env with
  | BalanceRejected | BalanceZero => s
  | ApproveRejected => act s (approve token hash)
  | ActionRejected => act (act s (approve token hash)) action
  | Confirmed =>
      mark_mirrored (after (act (act s (approve token hash)) action)) hash
  end.

(** Lines 383-544 of the bot: the dispatch on [myStep.action]. *)
Definition execute_step (env : EventEnv) (hash : string) (myStep : Step)
    (s : State) : State :=
  let action_is a := String.eqb (action myStep) a in
  if action_is "SWAP" then
    match resolve_token (from myStep), resolve_token (to myStep) with
    | Some tokenFrom, Some _ =>
        approve_then env hash tokenFrom (executeProverb hash) count_mirrored s
    | _, _ => s
    end
  else if action_is "DEPOSIT_AAVE" || action_is "DEPOSIT" then
    match resolve_token (from myStep) with
    | Some tokenAddress =>
        approve_then env hash tokenAddress (deposit tokenAddress hash) id s
    | None => s
    end
  else if action_is "DEPOSIT_COMPOUND" then
    match token_address (from myStep), token_address (to myStep) with
    | Some tokenAddress, Some cTokenAddress =>
        approve_then env hash tokenAddress (mint cTokenAddress hash) id s
    | _, _ => s
    end
  else if action_is "DEPOSIT_SAVINGS" then
    match token_address "DAI", token_address "sDAI" with
    | Some daiAddress, Some sDaiAddress =>
        approve_then env hash daiAddress (deposit sDaiAddress hash) id s
    | _, _ => s
    end
  else s.

(** [processSignalEvent] *)
Definition processSignalEvent (env : EventEnv) (hash : string) (s : State)
    : State :=
  if negb (event_present env) then s
  else
    match getTransaction env with
    | Rejected => s
    | Resolved from_wallet =>
        if negb from_wallet then s
        else if bool_decide (hash ∈ mirroredSignals s) then s
        else
          let '(proverb, meta) := safeRetrieveJam hash (jams s) in
          if negb (js_or_opt (audit_pass <$> meta) false) then s
          else
            match find_actor "MIRROR" proverb with
            | None => s
            | Some myStep => execute_step env hash myStep s
            end
    end.

End Mirror.

(** ** The gist auto-updater *)
Module Gist.

Definition MAX_RETRIES : nat := 2.
Definition MIN_UPDATE_INTERVAL : Z := 600000.

(** What steps 1-3 of [updateGist] find on disk. *)
Inductive FileStatus :=
  | NotAccessible
  | ReadRejected
  | Blank
  | InvalidJSON
  | ValidJSON (jamContent : string).

(** The answer to one PATCH request. *)
Inductive Response :=
  | Status200
  | RateLimited403      (** 403 with a body that mentions the rate limit *)
  | OtherStatus
  | RequestError.

(** Where the invocation in flight is suspended, if there is one:
    waiting for the answer to request [i], or sleeping before request
    [i + 1]. *)
Inductive Phase :=
  | Idle
  | Awaiting (i : nat)
  | Sleeping (i : nat).

(** The module-level variables [isUpdating] and [lastUpdateTime], the
    suspended invocation, and the requests sent so far with the document
    each carried. *)
Record State := mkState {
  isUpdating : bool;
  lastUpdateTime : Z;
  phase : Phase;
  content : string;
  pushes : list string;
  accepted : nat
}.

Definition initial_state : State := mkState false 0 Idle "" [] 0.

(** What the event loop delivers. *)
Inductive Event :=
  | Invoke (now : Z) (file : FileStatus)   (** a call of [updateGist()] *)
  | Answer (now : Z) (response : Response) (** the ['end'] or ['error'] of
                                               the request in flight *)
  | Wake.                                  (** [sleep(RETRY_DELAY)] is over *)

(** Lines 91-112: send request [i]. *)
Definition send (s : State) (i : nat) : State :=
  mkState (isUpdating s) (lastUpdateTime s) (Awaiting i) (content s)
    (pushes s ++ [content s]) (accepted s).

(** The [finally] of line 125, reached by every exit after line 51. *)
Definition finish (s : State) : State :=
  mkState false (lastUpdateTime s) Idle (content s) (pushes s) (accepted s).

Definition set_lastUpdateTime (s : State) (t : Z) : State :=
  mkState (isUpdating s) t (phase s) (content s) (pushes s) (accepted s).

Definition count_accepted (s : State) : State :=
  mkState (isUpdating s) (lastUpdateTime s) (phase s) (content s) (pushes s)
    (S (accepted s)).

(** Lines 115-121: request [i] failed. *)
Definition failed (s : State) (i : nat) : State :=
  if (i =? MAX_RETRIES - 1)%nat then finish s
  else mkState (isUpdating s) (lastUpdateTime s) (Sleeping i) (content s)
         (pushes s) (accepted s).

(** [updateGist] (lines 37-129), one event at a time. *)
Definition step (s : State) (e : Event) : State :=
  match e with
  | Invoke now file =>
      if isUpdating s then s
      else
        let timeSinceLastUpdate := now - lastUpdateTime s in
        if timeSinceLastUpdate <? MIN_UPDATE_INTERVAL then s
        else
          match file with
          | ValidJSON jamContent =>
              if (0 <? MAX_RETRIES)%nat then
                send (mkState true (lastUpdateTime s) Idle jamContent
                        (pushes s) (accepted s)) 0
              else s
          | _ => s
          end
  | Answer now response =>
      match phase s with
      | Awaiting i =>
          match response with
          | Status200 => finish (count_accepted (set_lastUpdateTime s now))
          | RateLimited403 => failed (set_lastUpdateTime s now) i
          | OtherStatus | RequestError => failed s i
          end
      | _ => s
      end
  | Wake =>
      match phase s with
      | Sleeping i =>
          if (S i <? MAX_RETRIES)%nat then send s (S i) else finish s
      | _ => s
      end
  end.

Definition run (s : State) (events : list Event) : State :=
  fold_left step events s.



End Gist.

(** ** JAMStore on disk (index.js, lines 13-51)

    [Index.JAMStore] above is the store as its readers see it; here are the
    same three methods on the files themselves.  The file system is a map
    from paths to contents.  [JSON.stringify], [JSON.parse] and [path.join]
    belong to the platform and are parameters. *)
Module JamFiles.

(** The result of [retrieve]: [null], the parsed value, or the
    [SyntaxError] that [JSON.parse] raises on a file it cannot read. *)
Inductive Retrieved (Value : Type) :=
  | Null
  | Parsed (value : Value)
  | SyntaxError.
Arguments Null {Value}.
Arguments Parsed {Value} value.
Arguments SyntaxError {Value}.

Section JAMStore.

Variable Value : Type.
(** [JSON.stringify(value, null, 2)] *)
Variable JSON_stringify : Value -> string.
(** [JSON.parse(text)], [None] when it throws *)
Variable JSON_parse : string -> option Value.
Variable path_join : string -> string -> string.
(** [{ ...existing, ...updates }] *)
Variable merge : Value -> Value -> Value.
(** [this.storePath] *)
Variable storePath : string.

Definition filePath (hash : string) : string :=
  path_join storePath (hash +:+ ".json").

Definition store (hash : string) (jamData : Value)
    (fs : gmap string string) : gmap string string :=
  <[filePath hash := JSON_stringify jamData]> fs.

Definition retrieve (hash : string) (fs : gmap string string)
    : Retrieved Value :=
  match fs !! filePath hash with
  | Some data =>
      match JSON_parse data with
      | Some value => Parsed value
      | None => SyntaxError
      end
  | None => Null
  end.

Definition update (hash : string) (updates : Value)
    (fs : gmap string string) : Retrieved Value * gmap string string :=
  match retrieve hash fs with
  | Parsed existing =>
      let updated := merge existing updates in
      (Parsed updated, store hash updated fs)
  | other => (other, fs)
  end.

(** A file system [fs] holds the records of [jams]: each stored record is
    read back from its file, and a hash without a record has no file. *)
Definition holds (fs : gmap string string) (jams : gmap string Value)
    : Prop :=
  forall hash,
    retrieve hash fs =
    match jams !! hash with Some v => Parsed v | None => Null end.

End JAMStore.

End JamFiles.

(** ** JSON text

    A reading of [JSON.stringify(value, null, 2)] and [JSON.parse] on the
    values a record is made of: [null], booleans, integers, strings of
    bytes, arrays, and objects as lists of members in property order.
    Strings are written with the escapes of [QuoteJSONString]; nested
    values are indented by two spaces per level. *)
Module Json.

Open Scope string_scope.
Open Scope char_scope.

Inductive json :=
  | JNull
  | JBool (b : bool)
  | JNumber (n : Z)
  | JString (s : string)
  | JArray (items : list json)
  | JObject (members : list (string * json)).

(** Induction on a value, with the property at hand for every element of
    an array and every member of an object. *)
Section JsonInduction.
Variable P : json -> Prop.
Hypothesis HNull : P JNull.
Hypothesis HBool : forall b, P (JBool b).
Hypothesis HNumber : forall n, P (JNumber n).
Hypothesis HString : forall s, P (JString s).
Hypothesis HArray : forall items, Forall P items -> P (JArray items).
Hypothesis HObject :
  forall members,
    Forall (fun member => P (snd member)) members -> P (JObject members).

Fixpoint json_nested_ind (v : json) : P v :=
  match v with
  | JNull => HNull
  | JBool b => HBool b
  | JNumber n => HNumber n
  | JString s => HString s
  | JArray items =>
      HArray items
        ((fix all (l : list json) : Forall P l :=
            match l with
            | [] => @List.Forall_nil _ P
            | x :: l' => @List.Forall_cons _ P x l' (json_nested_ind x) (all l')
            end) items)
  | JObject members =>
      HObject members
        ((fix all (l : list (string * json))
            : Forall (fun member => P (snd member)) l :=
            match l with
            | [] => @List.Forall_nil _ _
            | (k, x) :: l' =>
                @List.Forall_cons _ (fun member => P (snd member)) (k, x) l'
                  (json_nested_ind x) (all l')
            end) members)
  end.
End JsonInduction.

Definition hex_digit (n : N) : ascii :=
  match n with
  | 0%N => "0" | 1%N => "1" | 2%N => "2" | 3%N => "3" | 4%N => "4"
  | 5%N => "5" | 6%N => "6" | 7%N => "7" | 8%N => "8" | 9%N => "9"
  | 10%N => "a" | 11%N => "b" | 12%N => "c" | 13%N => "d" | 14%N => "e"
  | _ => "f"
  end.

Definition hex_value (c : ascii) : option N :=
  let n := N_of_ascii c in
  if (48 <=? n)%N && (n <=? 57)%N then Some (n - 48)%N
  else if (97 <=? n)%N && (n <=? 102)%N then Some (n - 87)%N
  else if (65 <=? n)%N && (n <=? 70)%N then Some (n - 55)%N
  else None.

(** One code unit inside a quoted string. *)
Definition quote_char (c : ascii) : string :=
  let n := N_of_ascii c in
  if (n =? 34)%N then String "\" (String "034" "")
  else if (n =? 92)%N then String "\" (String "\" "")
  else if (n =? 8)%N then String "\" (String "b" "")
  else if (n =? 12)%N then String "\" (String "f" "")
  else if (n =? 10)%N then String "\" (String "n" "")
  else if (n =? 13)%N then String "\" (String "r" "")
  else if (n =? 9)%N then String "\" (String "t" "")
  else if (n <? 32)%N then
    String "\" (String "u" (String "0" (String "0"
      (String (hex_digit (n / 16)) (String (hex_digit (n mod 16)) "")))))
  else String c "".

Fixpoint quote_body (s : string) : string :=
  match s with
  | EmptyString => EmptyString
  | String c rest => (quote_char c ++ quote_body rest)%string
  end.

Definition quote (s : string) : string :=
  String "034" (quote_body s ++ String "034" "")%string.

Definition show_Z (n : Z) : string :=
  DecimalString.NilZero.string_of_int (Z.to_int n).

Fixpoint spaces (n : nat) : string :=
  match n with
  | O => EmptyString
  | S n' => String " " (spaces n')
  end.

Definition newline : string := String (ascii_of_nat 10) "".

(** The parts, with [sep] between each two of them. *)
Fixpoint join (sep : string) (parts : list string) : string :=
  match parts with
  | [] => EmptyString
  | [part] => part
  | part :: others => (part ++ sep ++ join sep others)%string
  end.

(** The text of an array or an object at nesting depth [depth] from the
    texts of its elements: each on a line of its own, indented one level
    more than the closing bracket. *)
Definition bracket (opening closing : string) (depth : nat)
    (parts : list string) : string :=
  let inner := (newline ++ spaces (2 * S depth))%string in
  let outer := (newline ++ spaces (2 * depth))%string in
  match parts with
  | [] => (opening ++ closing)%string
  | _ => (opening ++ inner ++ join ("," ++ inner) parts
          ++ outer ++ closing)%string
  end.

(** [JSON.stringify(value, null, 2)] at nesting depth [depth]. *)
Fixpoint stringify_at (depth : nat) (value : json) : string :=
  match value with
  | JNull => "null"%string
  | JBool true => "true"%string
  | JBool false => "false"%string
  | JNumber n => show_Z n
  | JString s => quote s
  | JArray items =>
      bracket "[" "]" depth (map (stringify_at (S depth)) items)
  | JObject members =>
      bracket "{" "}" depth
        (map (fun member : string * json =>
                let '(key, item) := member in
                (quote key ++ ": " ++ stringify_at (S depth) item)%string)
             members)
  end.

Definition stringify (value : json) : string := stringify_at 0 value.

Definition is_ws (c : ascii) : bool :=
  let n := N_of_ascii c in
  (n =? 32)%N || (n =? 10)%N || (n =? 13)%N || (n =? 9)%N.

Fixpoint skip_ws (s : string) : string :=
  match s with
  | String c rest => if is_ws c then skip_ws rest else s
  | EmptyString => s
  end.

Definition is_digit (c : ascii) : bool :=
  let n := N_of_ascii c in (48 <=? n)%N && (n <=? 57)%N.

(** The digits at the head of [s], and what follows them. *)
Fixpoint take_digits (s : string) : string * string :=
  match s with
  | String c rest =>
      if is_digit c then
        let '(digits, rest') := take_digits rest in (String c digits, rest')
      else (EmptyString, s)
  | EmptyString => (EmptyString, s)
  end.

(** Whether a fraction or an exponent follows the digits. *)
Definition fraction_follows (rest : string) : bool :=
  match rest with
  | String c _ => Ascii.eqb c "." || Ascii.eqb c "e" || Ascii.eqb c "E"
  | EmptyString => false
  end.

(** An integer literal; a fraction or an exponent is outside the values
    modelled and is refused. *)
Definition read_number (s : string) : option (Z * string) :=
  let '(sign, body) :=
    match s with
    | String c rest =>
        if Ascii.eqb c "-" then (String "-" "", rest) else (EmptyString, s)
    | EmptyString => (EmptyString, s)
    end in
  let '(digits, rest) := take_digits body in
  match digits with
  | EmptyString => None
  | String first more =>
      if Ascii.eqb first "0" && negb (String.eqb more "") then None
      else if fraction_follows rest then None
      else
        match DecimalString.NilZero.int_of_string (sign ++ digits) with
        | Some i => Some (Z.of_int i, rest)
        | None => None
        end
  end.

(** The body of a string literal, after its opening quote. *)
Fixpoint read_string (fuel : nat) (s : string) : option (string * string) :=
  match fuel with
  | O => None
  | S fuel' =>
      match s with
      | EmptyString => None
      | String c rest =>
          if Ascii.eqb c "034" then Some (EmptyString, rest)
          else if Ascii.eqb c "\" then
            match rest with
            | String e rest' =>
                let plain (x : ascii) :=
                  match read_string fuel' rest' with
                  | Some (body, after) => Some (String x body, after)
                  | None => None
                  end in
                if Ascii.eqb e "034" then plain "034"
                else if Ascii.eqb e "\" then plain "\"
                else if Ascii.eqb e "/" then plain "/"
                else if Ascii.eqb e "b" then plain (ascii_of_nat 8)
                else if Ascii.eqb e "f" then plain (ascii_of_nat 12)
                else if Ascii.eqb e "n" then plain (ascii_of_nat 10)
                else if Ascii.eqb e "r" then plain (ascii_of_nat 13)
                else if Ascii.eqb e "t" then plain (ascii_of_nat 9)
                else if Ascii.eqb e "u" then
                  match rest' with
                  | String h1 (String h2 (String h3 (String h4 rest''))) =>
                      match hex_value h1, hex_value h2,
                            hex_value h3, hex_value h4 with
                      | Some 0%N, Some 0%N, Some a, Some b =>
                          if (a <? 8)%N then
                            match read_string fuel' rest'' with
                            | Some (body, after) =>
                                Some (String (ascii_of_N (a * 16 + b)) body,
                                      after)
                            | None => None
                            end
                          else None
                      | _, _, _, _ => None
                      end
                  | _ => None
                  end
                else None
            | EmptyString => None
            end
          else if (N_of_ascii c <? 32)%N then None
          else
            match read_string fuel' rest with
            | Some (body, after) => Some (String c body, after)
            | None => None
            end
      end
  end.

(** [s] without the prefix [word], when it starts with it. *)
Fixpoint strip_prefix (word s : string) : option string :=
  match word with
  | EmptyString => Some s
  | String c word' =>
      match s with
      | String c' s' => if Ascii.eqb c c' then strip_prefix word' s' else None
      | EmptyString => None
      end
  end.

(** The rest of a literal name ([null], [true], [false]). *)
Definition expect (word : string) (s : string) (value : json)
    : option (json * string) :=
  match strip_prefix word s with
  | Some rest => Some (value, rest)
  | None => None
  end.

(** A value at the head of [s], and what follows it. *)
Fixpoint read_value (fuel : nat) (s : string) : option (json * string) :=
  match fuel with
  | O => None
  | S fuel' =>
      match skip_ws s with
      | EmptyString => None
      | String c rest =>
          if Ascii.eqb c "n" then expect "ull" rest JNull
          else if Ascii.eqb c "t" then expect "rue" rest (JBool true)
          else if Ascii.eqb c "f" then expect "alse" rest (JBool false)
          else if Ascii.eqb c "034" then
            match read_string (S (String.length rest)) rest with
            | Some (body, after) => Some (JString body, after)
            | None => None
            end
          else if Ascii.eqb c "[" then
            match skip_ws rest with
            | String "]" after => Some (JArray [], after)
            | _ =>
                match read_items fuel' rest with
                | Some (items, after) => Some (JArray items, after)
                | None => None
                end
            end
          else if Ascii.eqb c "{" then
            match skip_ws rest with
            | String "}" after => Some (JObject [], after)
            | _ =>
                match read_members fuel' rest with
                | Some (members, after) => Some (JObject members, after)
                | None => None
                end
            end
          else
            match read_number (String c rest) with
            | Some (n, after) => Some (JNumber n, after)
            | None => None
            end
      end
  end

with read_items (fuel : nat) (s : string) : option (list json * string) :=
  match fuel with
  | O => None
  | S fuel' =>
      match read_value fuel' s with
      | Some (item, after) =>
          match skip_ws after with
          | String "," more =>
              match read_items fuel' more with
              | Some (items, rest) => Some (item :: items, rest)
              | None => None
              end
          | String "]" rest => Some ([item], rest)
          | _ => None
          end
      | None => None
      end
  end

with read_members (fuel : nat) (s : string)
    : option (list (string * json) * string) :=
  match fuel with
  | O => None
  | S fuel' =>
      match skip_ws s with
      | String "034" body =>
          match read_string (S (String.length body)) body with
          | Some (key, after) =>
              match skip_ws after with
              | String ":" more =>
                  match read_value fuel' more with
                  | Some (item, after') =>
                      match skip_ws after' with
                      | String "," more' =>
                          match read_members fuel' more' with
                          | Some (members, rest) =>
                              Some ((key, item) :: members, rest)
                          | None => None
                          end
                      | String "}" rest => Some ([(key, item)], rest)
                      | _ => None
                      end
                  | None => None
                  end
              | _ => None
              end
          | None => None
          end
      | _ => None
      end
  end.

(** [JSON.parse(text)]: one value, then nothing but white space. *)
Definition parse (text : string) : option json :=
  match read_value (S (String.length text)) text with
  | Some (value, rest) =>
      match skip_ws rest with
      | EmptyString => Some value
      | _ => None
      end
  | None => None
  end.

(** [{ ...existing, ...updates }] on objects: a member of [updates]
    replaces the member of the same key, or is added at the end. *)
Fixpoint set_member (key : string) (value : json)
    (members : list (string * json)) : list (string * json) :=
  match members with
  | [] => [(key, value)]
  | (k, v) :: rest =>
      if String.eqb k key then (k, value) :: rest
      else (k, v) :: set_member key value rest
  end.

Definition merge (existing updates : json) : json :=
  match existing, updates with
  | JObject base, JObject extra =>
      JObject (fold_left (fun acc kv => set_member (fst kv) (snd kv) acc)
                 extra base)
  | JObject base, _ => existing
  | _, _ => updates
  end.

(** [path.join] on a directory and a file name free of separators. *)
Definition path_join (dir file : string) : string :=
  (dir ++ "/" ++ file)%string.

(** *** Notions the round trip is stated with *)

(** The nodes of a value, each element counted once more for the list
    cell that holds it: an upper bound on the fuel reading it takes. *)
Fixpoint size (v : json) : nat :=
  match v with
  | JArray items => S (list_sum (map (fun x => S (size x)) items))
  | JObject members =>
      S (list_sum (map (fun member : string * json =>
                          S (size (snd member))) members))
  | _ => 1
  end.

(** What may follow the digits of an integer: nothing, or a character
    that is no digit and starts no fraction or exponent. *)
Definition number_end (rest : string) : bool :=
  match rest with
  | EmptyString => true
  | String c _ =>
      negb (is_digit c || Ascii.eqb c "." || Ascii.eqb c "e"
            || Ascii.eqb c "E")
  end.

(** The first character of the text of a value is no white space and
    closes no bracket. *)
Definition value_head (c : ascii) : bool :=
  negb (is_ws c) && negb (Ascii.eqb c "]") && negb (Ascii.eqb c "}").

(** The text of one member of an object. *)
Definition member_text (depth : nat) (member : string * json) : string :=
  let '(key, item) := member in
  (quote key ++ ": " ++ stringify_at depth item)%string.

(** A value is read back from its text at any depth, whatever follows
    it, given fuel for its nodes. *)
Definition reads_back (v : json) : Prop :=
  forall (depth : nat) (rest : string) (fuel : nat),
    number_end rest = true -> (size v <= fuel)%nat ->
    read_value fuel (stringify_at depth v ++ rest) = Some (v, rest).

End Json.

(** ** Notions the properties are stated with *)



Definition intensities_nonneg (s : Index.State) : Prop :=
    Forall (fun q => (0 <= q)%Q)
      (Index.intensities (Index.missedEmissionsVector s)).

Section CycleShapes.
Variable keccak256 : Jam -> string.

Abbreviation analyzeAndGenerateJam := (Index.analyzeAndGenerateJam keccak256).

(** The five ways in which a cycle ends. *)
Inductive cycle_end (env : Index.CycleEnv) (s : Index.State)
    : Index.State -> Prop :=
  | end_busy :
      Index.isEmitting s = true -> cycle_end env s s
  | end_missed c :
      Index.isEmitting s = false ->
      Index.timing_checks env (Index.set_isEmitting s true) = Index.Missed c ->
      cycle_end env s
        (Index.record_missed (Index.set_isEmitting s true)
           (Index.t_check env) c)
  | end_skipped :
      Index.isEmitting s = false ->
      Index.timing_checks env (Index.set_isEmitting s true) = Index.Skipped ->
      cycle_end env s
        (Index.set_isEmitting (Index.set_isEmitting s true) false)
  | end_no_record m :
      Index.isEmitting s = false ->
      Index.timing_checks env (Index.set_isEmitting s true) = Index.Proceed ->
      analyzeAndGenerateJam env (Index.set_isEmitting s true) = (None, m) ->
      cycle_end env s
        (Index.set_metrics (Index.set_isEmitting s true) m)
  | end_emitted jam hash m :
      Index.isEmitting s = false ->
      Index.timing_checks env (Index.set_isEmitting s true) = Index.Proceed ->
      analyzeAndGenerateJam env (Index.set_isEmitting s true)
      = (Some (jam, hash), m) ->
      cycle_end env s
        (Index.set_isEmitting
           (Index.emit env
              (Index.set_metrics (Index.set_isEmitting s true) m) jam hash)
           false).

(** What the emit half of a cycle leaves behind, case by case. *)
Inductive emit_end (env : Index.CycleEnv) (s : Index.State) (jam : Jam)
    (hash : string) : Index.State -> Prop :=
  | emit_not_written :
      Index.write_ok env = false ->
      emit_end env s jam hash (Index.emit_cycle_failed s)
  | emit_not_submitted :
      Index.write_ok env = true -> Index.fee_ok env = false ->
      emit_end env s jam hash
        (Index.emit_cycle_failed
           (Index.set_jams s (Index.JAMStore.store hash jam (Index.jams s))))
  | emit_rejected :
      Index.write_ok env = true -> Index.fee_ok env = true ->
      Index.tx_outcome env <> Index.Mined ->
      emit_end env s jam hash
        (Index.emit_cycle_failed
           (Index.log_call
              (Index.set_jams s (Index.JAMStore.store hash jam (Index.jams s)))
              (Index.submission (Index.lastHash s) hash)))
  | emit_mined s' :
      Index.write_ok env = true -> Index.fee_ok env = true ->
      Index.tx_outcome env = Index.Mined ->
      Index.lastHash s' = Some hash ->
      Index.jams s' = Index.JAMStore.store hash jam (Index.jams s) ->
      Index.emissionSuccesses (Index.metrics s')
      = S (Index.emissionSuccesses (Index.metrics s)) ->
      (Index.calls s'
       = Index.calls s ++ [Index.submission (Index.lastHash s) hash]
       \/ Index.calls s'
          = Index.calls s ++ [Index.submission (Index.lastHash s) hash;
                              Index.bridgeToBSV hash]) ->
      emit_end env s jam hash s'.
End CycleShapes.

  (** A block that ends without having acted or written. *)
Definition quiet (s : Amplifier.State) (c : Amplifier.Control) : Prop :=
    match c with
    | Amplifier.Returned s' | Amplifier.Completed s'
    | Amplifier.Thrown s' =>
        Amplifier.actions s' = Amplifier.actions s
        /\ Amplifier.jams s' = Amplifier.jams s
    end.


(** ** Sample inputs *)

(** A cycle at 13:21 UTC, from the initial state, on a target that passes
    the audit. *)
Definition passing_analysis : Index.Analysis :=
  Index.mkAnalysis true None (Some ["swap"; "swapExactETHForTokens"])
    "0x4200000000000000000000000000000000000006" "0xproof" "0xproof".

Definition aligned_env : Index.CycleEnv :=
  Index.mkEnv 48060000 (1 # 2) (fun _ => Index.Returned passing_analysis)
    48060000 (1 # 4) "2.618" "" [] true true Index.Mined
    48061000 None.

(** A cycle at 13:21 UTC on a target that fails the audit. *)
Definition failing_analysis : Index.Analysis :=
  Index.mkAnalysis false (Some "Contract too small - likely a proxy") None
    "0x00000000000000000000000000000000000000aa" "0xproof" "0xproof".

Definition failing_env : Index.CycleEnv :=
  Index.mkEnv 48060000 (1 # 2) (fun _ => Index.Returned failing_analysis)
    48060000 (1 # 4) "2.618" "" [] true true Index.Mined
    48061000 None.

(** A second cycle, at 21:01 UTC. *)
Definition evening_env : Index.CycleEnv :=
  Index.mkEnv 75660000 (1 # 2) (fun _ => Index.Returned passing_analysis)
    75660000 (3 # 4) "2.618" "" [] true true Index.Mined
    75661000 None.

(** A record that failed the audit, as a store could hold it. *)
Definition unaudited_jam : Jam :=
  mkJam
    [mkStep "WETH" "USDC" "SWAP" "AMPLIFIER" (Some "swap");
     mkStep "USDC" "WETH" "SWAP" "MIRROR" (Some "swap")]
    (Some (mkMeta 48060 None "0xaa" "0xproof" "0xproof" false ["swap"]
             "CLASSIC_ARBITRAGE" "2.618" true false 7 [0; 0; 0; 0]
             ["1.618"; "0.618"; "1.000"] ""))
    []
    (Some (mkTopology 1 0 (Some (mkClock 1 0)))) 1 (99 # 100).

(** An environment in which every call of the amplifier goes through. *)
Definition smooth_env : Amplifier.SignalEnv :=
  Amplifier.mkEnv
    (Resolved (Some (Amplifier.mkTx true true true)))
    (Resolved 1000000)
    [Amplifier.mkDex "Uniswap V3" "0x2626664c2603336e57b271c5c0b26f421741e481"
       "concentrated-liquidity"]
    (Resolved 1000000000000000000)
    1618000000000
    (fun _ => Amplifier.BundleSettled)
    20000000
    (Resolved tt)
    (Resolved 5)
    (fun _ => true)
    None.

Definition eager_mirror_env : Mirror.EventEnv :=
  Mirror.mkEnv true (Resolved true) Mirror.Confirmed.





(** ** Notions for the Strategist's bookkeeping *)

(** [attempts] and [successes] added up over the pattern library. *)
Definition total_attempts (m : Index.Metrics) : nat :=
  list_sum (map (fun p => Index.attempts (Index.patternSuccess m p))
              Index.pattern_keys).

Definition total_successes (m : Index.Metrics) : nat :=
  list_sum (map (fun p => Index.successes (Index.patternSuccess m p))
              Index.pattern_keys).

(** The counters of [metrics] agree with one another.  [slack] is [1]
    between the moment a record is built and the end of its cycle, when the
    pattern [selected] has been charged an attempt whose outcome is not
    counted yet, and [0] otherwise. *)
Definition counters_agree (slack : nat) (selected : Index.PatternId)
    (m : Index.Metrics) : Prop :=
  total_attempts m = Index.auditPasses m
  /\ total_successes m = Index.emissionSuccesses m
  /\ (forall p,
        Index.successes (Index.patternSuccess m p)
        + (if decide (p = selected) then slack else 0)
        <= Index.attempts (Index.patternSuccess m p))%nat
  /\ (Index.auditPasses m + Index.auditFails m <= Index.totalAnalyses m)%nat
  /\ (Index.emissionSuccesses m + slack <= Index.auditPasses m)%nat
  /\ (Index.emissionFailures m + slack <= Index.auditPasses m)%nat.

(** The vault was called to register [hash]. *)
Definition submitted (hash : string) (calls : list Index.Call) : Prop :=
  Index.emitSignal hash ∈ calls
  \/ exists parentHash, Index.emitRecursiveSignal hash parentHash ∈ calls.

(** What the Strategist remembers of its emissions is backed by the store
    and by the log: each hash of [emittedSignals] names an audited record
    and was submitted to the vault, and [lastHash] is one of them. *)
Definition emissions_backed (s : Index.State) : Prop :=
  (forall hash,
     hash ∈ Index.emittedSignals s ->
     audited (Index.JAMStore.retrieve hash (Index.jams s)) = true
     /\ submitted hash (Index.calls s))
  /\ (forall hash,
        Index.lastHash s = Some hash -> hash ∈ Index.emittedSignals s).

(** The two counts of missed cycles move together, and the two arrays of
    the vector grow and shrink together. *)
Definition missed_in_step (s : Index.State) : Prop :=
  let v := Index.missedEmissionsVector s in
  Index.missedEmissions s = Index.count v
  /\ length (Index.timestamps v) = length (Index.intensities v)
  /\ (Index.count v <= length (Index.timestamps v))%nat.

(** Every intensity recorded is a consensus multiplier. *)
Definition intensities_in_range (s : Index.State) : Prop :=
  Forall (fun q => (0 <= q <= Index.PHI_SQUARED)%Q)
    (Index.intensities (Index.missedEmissionsVector s)).

(** ** index.js: the scheduler (lines 626-687) *)
Module Scheduler.

(** [a < b] where [b] may be [Infinity]. *)
Definition lt_ext (a : Z) (b : ExtZ) : bool :=
  match b with
  | Infinity => true
  | Fin x => a <? x
  end.

(** The [forEach] of lines 635-648: the minutes until the next window. *)
Definition nextWindowMinutes (now : Z) : ExtZ :=
  let currentMinutes := Index.utc_minutes_of_day now in
  fold_left
    (fun nextWindowMinutes time =>
       let windowMinutes := fst time * 60 + snd time in
       let minutesUntil := windowMinutes - currentMinutes in
       let minutesUntil :=
         if minutesUntil <=? 0 then minutesUntil + 1440 else minutesUntil in
       if lt_ext minutesUntil nextWindowMinutes then Fin minutesUntil
       else nextWindowMinutes)
    Index.CONSENSUS_TIMES Infinity.

(** [calculateOptimalInterval()]; [rand] is the [Math.random()] of line
    652. *)
Definition calculateOptimalInterval (now : Z) (rand : Q) : Z :=
  let jitter := Qfloor (rand * 60000) in
  match nextWindowMinutes now with
  | Fin nextWindowMinutes =>
      let interval := nextWindowMinutes * 60000 + jitter in
      Z.min interval 1800000
  | Infinity => 1800000
  end.

(** [parseInt(process.env.DETECT_INTERVAL, 10) || 300000]; [None] when
    [parseInt] gives [NaN]. *)
Definition BASE_INTERVAL (DETECT_INTERVAL : option Z) : Z :=
  match DETECT_INTERVAL with
  | Some parsed => js_or_Z parsed 300000
  | None => 300000
  end.

(** The delay [scheduleNextEmission] passes to [setTimeout] (line 670). *)
Definition interval (DETECT_INTERVAL : option Z) (now : Z) (rand : Q) : Z :=
  Z.min (calculateOptimalInterval now rand) (BASE_INTERVAL DETECT_INTERVAL).

End Scheduler.

(** ** Notions for the timing policy *)

(** The distance between two minutes of the day on the 24-hour dial. *)
Definition dial_distance (a b : Z) : Z :=
  Z.min (Z.abs (a - b)) (1440 - Z.abs (a - b)).

(** The minute of the day at which a consensus window sits. *)
Definition window_minute (time : Z * Z) : Z := fst time * 60 + snd time.

(** ** substrate.js: the verification oracle (lines 1-250) *)
Module Substrate.

(** [s.includes(pattern)] *)
Fixpoint includes (pattern s : string) : bool :=
  String.prefix pattern s
  || match s with
     | String _ rest => includes pattern rest
     | EmptyString => false
     end.

(** [toLowerCase] on the letters of an address. *)
Definition lower (c : ascii) : ascii :=
  let n := N_of_ascii c in
  if ((65 <=? n) && (n <=? 90))%N then ascii_of_N (n + 32) else c.

Fixpoint toLowerCase (s : string) : string :=
  match s with
  | String c rest => String (lower c) (toLowerCase rest)
  | EmptyString => EmptyString
  end.

(** [risk] *)
Record Risk := mkRisk {
  score : option Q;
  has_create2 : bool;
  has_delegatecall : bool;
  has_selfdestruct : bool;
  bytecode_size : Q
}.

(** An analysis object.  A property that some branch leaves out is
    optional; [bait_hooks] is [None] when it is missing or is not an
    array.  [phi_alignment] holds two renderings ([toFixed]) and is kept
    as the texts written. *)
Record AnalysisResult := mkResult {
  address : option string;
  bytecode_proof : option string;
  audit_pass : bool;
  reason : option string;
  source_estimate : option string;
  risk : option Risk;
  bait_hooks : option (list string);
  substrate_hash : option string;
  timestamp : option Z;
  phi_alignment : option (string * string)
}.

(** What [decompileBytecode] returns, as far as [analyzeContract] reads
    it: [None] for [bait_hooks] stands for a value that is not an
    array. *)
Record Decompiled := mkDecompiled {
  d_source_estimate : string;
  d_bait_hooks : option (list string)
}.

(** Module-level [substrateCache] and the cache file as last written. *)
Record State := mkState {
  substrateCache : gmap string AnalysisResult;
  cache_file : gmap string AnalysisResult
}.

(** What one call of [analyzeContract] reads from outside. *)
Record Env := mkEnv {
  now : Z;                              (** [Date.now()] of line 90 *)
  getCode : Awaited (option string);    (** [provider.getCode(address)] *)
  decompiled : option Decompiled;       (** [decompileBytecode]; [None]
                                            for [null] *)
  now_result : Z;                       (** [Date.now()] of line 205 *)
  risk_resonance_text : string;
  size_factor_text : string;
  write_ok : bool                       (** [fs.writeFileSync] returns *)
}.

Definition PHI : Q := 1.618033988749895.
Definition PHI_INVERSE : Q := 0.618033988749895.

Definition KNOWN_SAFE_CONTRACTS : list string :=
  ["0x833589fcd6edb6e08f4c7c32d4f71b54bda02913";
   "0x4200000000000000000000000000000000000006";
   "0x50c5725949a6f0c72e6c4a641f24049a917db0cb"].

Definition default_hooks : list string :=
  ["swap"; "swapExactETHForTokens"; "swapExactTokensForTokens"].

(** [KNOWN_SAFE_CONTRACTS.includes(address.toLowerCase())] *)
Definition known_safe (address : string) : bool :=
  existsb (String.eqb (toLowerCase address)) KNOWN_SAFE_CONTRACTS.

(** [saveCache] (lines 25-31): a failed write is logged and dropped. *)
Definition saveCache (env : Env) (s : State) : State :=
  if write_ok env then mkState (substrateCache s) (substrateCache s) else s.

(** Lines 119-121, 167-169 and 213-215. *)
Definition cache_and_save (env : Env) (address bytecode_proof : string)
    (analysisResult : AnalysisResult) (s : State) : State :=
  let cache := <[address := analysisResult]> (substrateCache s) in
  let cache := <[bytecode_proof := analysisResult]> cache in
  saveCache env (mkState cache (cache_file s)).

(** [fetchBytecode] (lines 35-46) *)
Definition fetchBytecode (env : Env) : option string :=
  match getCode env with
  | Resolved (Some bytecode) =>
      if String.eqb bytecode "" || String.eqb bytecode "0x" then None
      else Some bytecode
  | Resolved None | Rejected => None
  end.

(** Lines 89-98: the entry served from the cache, if one is. *)
Definition cached (env : Env) (address : string) (s : State)
    : option AnalysisResult :=
  match substrateCache s !! address with
  | Some entry =>
      match bytecode_proof entry with
      | Some proof =>
          if String.eqb proof "" then None
          else
            let cacheAge :=
              (inject_Z (now env - js_or_Z (js_or_opt (timestamp entry) 0%Z) 0%Z)
               / 1000)%Q in
            let validityWindow := Qfloor (3600 * PHI) in
            if negb (Qle_bool (inject_Z validityWindow) cacheAge)
            then Some entry else None
      | None => None
      end
  | None => None
  end.

Section Oracle.

(** [ethers.keccak256] *)
Variable keccak256 : string -> string.
(** [DECOMPILER_URL] (line 11) *)
Variable DECOMPILER_URL : string.

(** [analyzeContract] (lines 85-248).  The statements after the [return]
    of line 216 are never run. *)
Definition analyzeContract (env : Env) (address : string) (s : State)
    : AnalysisResult * State :=
  match cached env address s with
  | Some entry => (entry, s)
  | None =>
      match fetchBytecode env with
      | None =>
          (mkResult None None false (Some "No bytecode") None None None None
             None None, s)
      | Some bytecode =>
          let bytecode_proof := keccak256 bytecode in
          if known_safe address then
            let analysisResult :=
              mkResult (Some address) (Some bytecode_proof) true None
                (Some "Known safe contract")
                None (Some default_hooks) (Some bytecode_proof) None None in
            (analysisResult,
             cache_and_save env address bytecode_proof analysisResult s)
          else
            let bytecodeSize :=
              (inject_Z (Z.of_nat (String.length bytecode)) / 2 - 1)%Q in
            let hasCreate2 := includes "f5" bytecode in
            let hasDelegateCall := includes "f4" bytecode in
            let hasSelfdestruct := includes "ff" bytecode in
            if String.eqb DECOMPILER_URL ""
               || includes "example.com" DECOMPILER_URL
            then
              let risk :=
                mkRisk None hasCreate2 hasDelegateCall hasSelfdestruct
                  bytecodeSize in
              let analysisResult :=
                if known_safe address then
                  mkResult (Some address) (Some bytecode_proof) true None
                    (Some "Known safe contract") (Some risk)
                    (Some default_hooks) (Some bytecode_proof) None None
                else if negb (Qle_bool 100 bytecodeSize) then
                  mkResult (Some address) (Some bytecode_proof) false
                    (Some "Contract too small - likely a proxy")
                    (Some "Heuristic analysis (no decompiler available)")
                    (Some risk) (Some default_hooks) (Some bytecode_proof)
                    None None
                else if hasSelfdestruct then
                  mkResult (Some address) (Some bytecode_proof) false
                    (Some "Contract contains SELFDESTRUCT opcode")
                    (Some "Heuristic analysis (no decompiler available)")
                    (Some risk) (Some default_hooks) (Some bytecode_proof)
                    None None
                else
                  mkResult (Some address) (Some bytecode_proof) true None
                    (Some "Heuristic analysis (no decompiler available)")
                    (Some risk) (Some default_hooks) (Some bytecode_proof)
                    None None in
              (analysisResult,
               cache_and_save env address bytecode_proof analysisResult s)
            else
              let decomp := decompiled env in
              let riskScore :=
                ((if hasCreate2 then PHI_INVERSE else 0)
                 + (if hasDelegateCall then PHI_INVERSE * PHI_INVERSE else 0)
                 + (if hasSelfdestruct then 1 else 0))%Q in
              let risk :=
                mkRisk (Some riskScore) hasCreate2 hasDelegateCall
                  hasSelfdestruct bytecodeSize in
              let too_small := negb (Qle_bool 100 bytecodeSize) in
              let analysisResult :=
                mkResult (Some address) (Some bytecode_proof)
                  (if too_small then false
                   else negb (Qle_bool 0.8 riskScore))
                  (if too_small
                   then Some "Contract too small - likely a proxy" else None)
                  (Some match decomp with
                        | Some d => d_source_estimate d
                        | None => "Phi-aligned heuristic analysis"
                        end)
                  (Some risk)
                  match decomp with
                  | Some d => d_bait_hooks d
                  | None => Some default_hooks
                  end
                  (Some bytecode_proof) (Some (now_result env))
                  (Some (risk_resonance_text env, size_factor_text env)) in
              (analysisResult,
               cache_and_save env address bytecode_proof analysisResult s)
      end
  end.

End Oracle.

(** The answer as the Strategist reads it (index.js, lines 309-372). *)
Definition as_read (result : AnalysisResult) : Index.Analysis :=
  Index.mkAnalysis (audit_pass result) (reason result) (bait_hooks result)
    (js_or_opt (address result) "") (js_or_opt (bytecode_proof result) "")
    (js_or_opt (substrate_hash result) "").

End Substrate.

(** *** Sample inputs for the oracle *)

(** A contract of 300 bytes without [f4], [f5] or [ff]. *)
Definition plain_bytecode : string :=
  String.concat "" ("0x" :: repeat "60" 300).

Definition first_analysis : Substrate.Env :=
  Substrate.mkEnv 1700000000000 (Resolved (Some plain_bytecode)) None
    1700000000500 "0.000" "0.185" true.

(** ** substrate.js: the amplifier's helpers (lines 328-337, 390-451,
    559-569) *)
Module AmplifierTools.

(** [getConsensusMultiplier] of the amplifier (lines 328-334): the
    distance is computed as in index.js, the tiers are its own. *)
Definition getConsensusMultiplier (now : Z) : Q :=
  let minDistance := Index.getMinDistanceToConsensusWindow now in
  if ext_leb minDistance 2 then 2.618
  else if ext_leb minDistance 5 then 1.618
  else if ext_leb minDistance 10 then 1.382
  else 1.

Definition PHI : Q := 1.618033988749895.

(** [ethers.parseEther(x.toFixed(8))], in wei: [x] rounded to eight
    decimals, the nearer one and the larger on a tie. *)
Definition parseEther_toFixed8 (x : Q) : Z :=
  (Qfloor (x * 100000000 + (1 # 2))%Q * 10000000000)%Z.

(** [parseFloat(ethers.formatEther(amount))] *)
Definition formatEther (amount : Z) : Q :=
  (inject_Z amount / 1000000000000000000)%Q.

(** [parseFloat(ethers.formatUnits(gasPrice, 'gwei'))] *)
Definition formatGwei (gasPrice : Z) : Q :=
  (inject_Z gasPrice / 1000000000)%Q.

(** [calculateTradeAmount(signalConfidence, gasPrice)] (lines 390-441), in
    wei; [gasPrice] is [None] for [null].  The third argument is only
    logged. *)
Definition calculateTradeAmount (now : Z) (signalConfidence : Q)
    (gasPrice : option Z) : Z :=
  match gasPrice with
  | None => 0
  | Some gasPrice =>
      if gasPrice <=? 0 then 0
      else
        let baseAmount := 1618000000000 in
        let consensusMultiplier := getConsensusMultiplier now in
        let gasPriceGwei := formatGwei gasPrice in
        let baseAmount :=
          if negb (Qle_bool gasPriceGwei 75)
          then parseEther_toFixed8 (0.000001618 / (PHI * PHI))
          else if negb (Qle_bool gasPriceGwei 50)
          then parseEther_toFixed8 (0.000001618 / PHI)
          else if negb (Qle_bool gasPriceGwei 25)
          then 1618000000000
          else baseAmount in
        let baseAmount :=
          parseEther_toFixed8 (formatEther baseAmount * consensusMultiplier) in
        if negb (Qle_bool signalConfidence 0.95)
        then baseAmount * 144 / 100
        else baseAmount
  end.

Definition MAX_HISTORY : nat := 50.

(** [updateGasHistory(gasPrice)] (lines 444-451) on [recentGasPrices]. *)
Definition updateGasHistory (gasPrice : Z) (recentGasPrices : list Q)
    : list Q :=
  let recentGasPrices := recentGasPrices ++ [formatGwei gasPrice] in
  if (MAX_HISTORY <? length recentGasPrices)%nat
  then tail recentGasPrices
  else recentGasPrices.

(** [recentGasPrices] after a run of readings, from the empty history
    the module starts with (line 295). *)
Definition gas_history (readings : list Z) : list Q :=
  fold_left (fun recentGasPrices gasPrice =>
               updateGasHistory gasPrice recentGasPrices)
    readings [].

(** [getNextNonce()] (lines 560-569) on [currentNonce]: the nonce
    returned, or [Rejected] when [getTransactionCount] throws, and the
    new value of [currentNonce]. *)
Definition getNextNonce (pending : Awaited Z) (currentNonce : option Z)
    : Awaited Z * option Z :=
  match pending with
  | Rejected => (Rejected, currentNonce)
  | Resolved nonce =>
      let currentNonce :=
        match currentNonce with
        | None => nonce
        | Some current => if current <? nonce then nonce else current + 1
        end in
      (Resolved currentNonce, Some currentNonce)
  end.

(** The nonces a run of calls hands out, one answer of the provider per
    call. *)
Fixpoint nonces (answers : list (Awaited Z)) (currentNonce : option Z)
    : list Z :=
  match answers with
  | [] => []
  | pending :: rest =>
      match getNextNonce pending currentNonce with
      | (Resolved nonce, currentNonce) => nonce :: nonces rest currentNonce
      | (Rejected, currentNonce) => nonces rest currentNonce
      end
  end.

End AmplifierTools.

(** ** dex-config.js: the choice of DEX (lines 25-80, 130-176, 207-249) *)
Module DexConfig.

Open Scope Q_scope.

Definition AERODROME : Amplifier.Dex :=
  Amplifier.mkDex "Aerodrome" "0xcf77a3ba9a5ca399b7c97c74d54e5b1beb874e43"
    "solidly-fork".

Definition UNISWAP_V3 : Amplifier.Dex :=
  Amplifier.mkDex "Uniswap V3" "0x2626664c2603336e57b271c5c0b26f421741e481"
    "concentrated-liquidity".

Definition ROCKETSWAP : Amplifier.Dex :=
  Amplifier.mkDex "RocketSwap" "0x4CF22670302b0b678B65403D8408436aBDe59aBB"
    "uniswap-v2-fork".

(** [a < b] on numbers, where [None] stands for [NaN]. *)
Definition lt_number (a : option Q) (b : Q) : bool :=
  match a with
  | Some x => negb (Qle_bool b x)
  | None => false
  end.

(** [!x || x <= 0] on a number; [None] stands for a missing value or
    [NaN]. *)
Definition invalid (x : option Q) : bool :=
  match x with
  | Some v => Qle_bool v 0
  | None => true
  end.

Record Choice := mkChoice {
  primary : Amplifier.Dex;
  fallback : Amplifier.Dex;
  choice_reason : string
}.

(** [selectOptimalDEX(gasPrice, tradeSize)] *)
Definition selectOptimalDEX (gasPrice tradeSize : option Q) : Choice :=
  if invalid gasPrice then
    mkChoice UNISWAP_V3 ROCKETSWAP "Default due to invalid gas price"
  else if invalid tradeSize then
    mkChoice UNISWAP_V3 ROCKETSWAP "Default due to invalid trade size"
  else
    let gasPriceGwei := gasPrice in
    let tradeSizeETH := tradeSize in
    if lt_number tradeSizeETH 0.0001 then
      mkChoice UNISWAP_V3 ROCKETSWAP
        "Small trade - using Uniswap V3 for reliability"
    else if lt_number gasPriceGwei 10 && lt_number tradeSizeETH 0.01 then
      mkChoice UNISWAP_V3 ROCKETSWAP
        "Medium trade, low gas - concentrated liquidity optimal"
    else
      mkChoice UNISWAP_V3 ROCKETSWAP
        "Default - using Uniswap V3 for best execution".

Definition PHI : Q := 1.618033988749895.
Definition PHI_INVERSE : Q := 0.618033988749895.
Definition PHI_SQUARED : Q := 2.618033988749895.

(** The comparator [(a, b) => b.priority - a.priority]. *)
Definition by_priority_desc (a b : Amplifier.Dex * Q) : Q := snd b - snd a.

(** [getRecursiveDEXCascade(gasPrice, tradeSize, depth)]; [depth] is an
    integer, so that [Math.pow(PHI, depth - 1)] is a power of [PHI]. *)
Definition getRecursiveDEXCascade (gasPrice tradeSize : option Q)
    (depth : Z) : list Amplifier.Dex :=
  let gasPriceGwei := gasPrice in
  let depthMultiplier := Qpower PHI (depth - 1)%Z in
  let cascade :=
    if lt_number gasPriceGwei (0.01 * depthMultiplier) then
      [(UNISWAP_V3, PHI_SQUARED); (ROCKETSWAP, PHI); (AERODROME, PHI_INVERSE)]
    else if lt_number gasPriceGwei (0.1 * depthMultiplier) then
      [(UNISWAP_V3, PHI); (ROCKETSWAP, PHI_INVERSE);
       (AERODROME, 1 / PHI_SQUARED)]
    else
      [(UNISWAP_V3, PHI_SQUARED); (ROCKETSWAP, PHI); (AERODROME, 1)] in
  map fst (js_sort by_priority_desc cascade).

End DexConfig.

(** The state a block of the handler ends in. *)
Definition final_state (c : Amplifier.Control) : Amplifier.State :=
  match c with
  | Amplifier.Returned s | Amplifier.Completed s | Amplifier.Thrown s => s
  end.

(** ** mirror.js: the wait before the mirror's step (lines 164-183) *)
Module MirrorTiming.

Definition PHI : Q := 1.618033988749895.

(** The [baseWait] of [calculateOptimalWaitTime] (lines 166-178).  On
    [Infinity] every test of the chain fails and [Math.min] keeps its
    second argument. *)
Definition baseWait (minDistance : ExtZ) : Q :=
  match minDistance with
  | Fin d =>
      let minDistance := inject_Z d in
      if Qle_bool minDistance 3 then 1000
      else if Qle_bool minDistance 8 then (minDistance * PHI) * 1000
      else if Qle_bool minDistance 13 then (minDistance * PHI * PHI) * 1000
      else Qmin ((minDistance * PHI * PHI * PHI) * 1000) (2.618 * 60 * 1000)
  | Infinity => 2.618 * 60 * 1000
  end.

(** [calculateOptimalWaitTime(minDistance, signalConfidence)] *)
Definition calculateOptimalWaitTime (minDistance : ExtZ)
    (signalConfidence : Q) : Z :=
  Qfloor (baseWait minDistance * (1 - signalConfidence * 0.1)).

(** Line 380 of the bot: the wait before the mirror's step, at the
    instant [now]. *)
Definition waitTime (now : Z) : Z :=
  calculateOptimalWaitTime (Index.getMinDistanceToConsensusWindow now) 0.9.

End MirrorTiming.


(** ** Notions for the gist updater *)

(** The calls of [updateGist] that find a valid document on disk. *)
Definition is_valid_invocation (e : Gist.Event) : bool :=
  match e with
  | Gist.Invoke _ (Gist.ValidJSON _) => true
  | _ => false
  end.

Definition valid_invocations (events : list Gist.Event) : nat :=
  length (List.filter is_valid_invocation events).

(** The requests the invocation in flight may still send, and whether it
    waits for an answer. *)
Definition requests_left (p : Gist.Phase) : nat :=
  match p with
  | Gist.Idle => 0
  | Gist.Awaiting i | Gist.Sleeping i => Gist.MAX_RETRIES - 1 - i
  end.

Definition in_flight (p : Gist.Phase) : nat :=
  match p with
  | Gist.Awaiting _ => 1
  | _ => 0
  end.

(** What holds of the updater's state after the events [events]. *)
Definition gist_invariant (events : list Gist.Event) (s : Gist.State)
    : Prop :=
  (Gist.isUpdating s = true <-> Gist.phase s <> Gist.Idle)
  /\ (Gist.phase s <> Gist.Idle ->
      exists now, In (Gist.Invoke now (Gist.ValidJSON (Gist.content s))) events)
  /\ (forall c, In c (Gist.pushes s) ->
                exists now, In (Gist.Invoke now (Gist.ValidJSON c)) events)
  /\ (length (Gist.pushes s) + requests_left (Gist.phase s)
      <= Gist.MAX_RETRIES * valid_invocations events)%nat
  /\ (Gist.accepted s + in_flight (Gist.phase s)
      <= length (Gist.pushes s))%nat
  /\ match Gist.phase s with
     | Gist.Idle => True
     | Gist.Awaiting i => (i < Gist.MAX_RETRIES)%nat
     | Gist.Sleeping i => (S i < Gist.MAX_RETRIES)%nat
     end.

(** ** The gist updater's watcher (lines 133-179 of the updater) *)
Module Watcher.

Definition DEBOUNCE_DELAY : Z := 120000.

(** The variables of [main]: the timer held in [debounceTimeout], as the
    instant it is due ([None] when none is pending: it fired or was
    cleared), [updateQueue], and the instants at which [updateGist] was
    called. *)
Record State := mkState {
  debounceTimeout : option Z;
  updateQueue : list Z;
  updates : list Z
}.

(** What the event loop delivers to [main]'s callbacks. *)
Inductive Event :=
  | Change (now : Z)    (** the watcher reports a ['change'] *)
  | Other (now : Z)     (** the watcher reports another [eventType] *)
  | Timers (now : Z).   (** the timers due at [now] are run *)

Definition time (e : Event) : Z :=
  match e with
  | Change now | Other now | Timers now => now
  end.

(** [main()], called at [now]: the watcher is installed and line 176
    calls [updateGist()]. *)
Definition main (now : Z) : State := mkState None [] [now].

(** The callback of [fs.watch] (lines 148-172) and the callback of
    [setTimeout] (lines 167-170). *)
Definition step (s : State) (e : Event) : State :=
  match e with
  | Change now =>
      (* clearTimeout(debounceTimeout) *)
      let updateQueue := updateQueue s ++ [now] in
      let updateQueue :=
        List.filter (fun time => now - time <? 3600000) updateQueue in
      if (10 <? length updateQueue)%nat then
        mkState None updateQueue (updates s)
      else
        mkState (Some (now + DEBOUNCE_DELAY)) updateQueue (updates s)
  | Other _ => s
  | Timers now =>
      match debounceTimeout s with
      | Some due =>
          if due <=? now then mkState None (updateQueue s) (updates s ++ [now])
          else s
      | None => s
      end
  end.

Definition run (s : State) (events : list Event) : State :=
  fold_left step events s.

End Watcher.

(** ** Notions for the watcher *)

(** The instants of the changes among [events], in order. *)
Definition change_times (events : list Watcher.Event) : list Z :=
  flat_map
    (fun e => match e with Watcher.Change now => [now] | _ => [] end)
    events.

(** The clock does not go back along [times]. *)
Fixpoint nondecreasing (times : list Z) : Prop :=
  match times with
  | [] => True
  | a :: rest => Forall (fun b => a <= b) rest /\ nondecreasing rest
  end.

(** The changes of [events] that are less than an hour old at [now]. *)
Definition recent_changes (now : Z) (events : list Watcher.Event) : list Z :=
  List.filter (fun time => now - time <? 3600000) (change_times events).

(** What holds of the watcher's state after the events [events] of a run
    started at [start]. *)
Definition watcher_invariant (start : Z) (events : list Watcher.Event)
    (s : Watcher.State) : Prop :=
  (forall due,
     Watcher.debounceTimeout s = Some due ->
     exists c,
       In c (change_times events)
       /\ due = c + Watcher.DEBOUNCE_DELAY
       /\ forall c', In c' (change_times events) -> c' <= c)
  /\ (forall t,
        In t (Watcher.updates s) ->
        t = start
        \/ In (Watcher.Timers t) events
           /\ exists c,
                In c (change_times events)
                /\ c + Watcher.DEBOUNCE_DELAY <= t
                /\ forall c', In c' (change_times events) ->
                              c' <= c \/ t <= c')
  /\ (forall now,
        Forall (fun e => Watcher.time e <= now) events ->
        List.filter (fun time => now - time <? 3600000) (Watcher.updateQueue s)
        = recent_changes now events)
  /\ (length (Watcher.updates s)
      + match Watcher.debounceTimeout s with Some _ => 1 | None => 0 end
      <= 1 + length (change_times events))%nat.

(** ** bsv-echo.js: the BSV echo *)
Module BsvEcho.

Definition PHI : Q := 1.618033988749895.

(** [e.d || 1] on an echo whose field [d] is absent or an integer. *)
Definition depth_of (e : option Z) : Z :=
  match e with
  | Some d => js_or_Z d 1
  | None => 1
  end.

(** [calculateEchoDepth(previousEchoes)] (lines 175-184); an echo is given
    by its field [d]. *)
Definition calculateEchoDepth (previousEchoes : list (option Z)) : Z :=
  match map depth_of previousEchoes with
  | [] => 1
  | d :: depths =>
      let maxDepth := fold_left Z.max depths d in
      Z.min (Qfloor (inject_Z maxDepth * PHI)) 8
  end.

(** The requests sent to the WhatsOnChain API so far: the GETs of
    [fetchUTXOs] and the POSTs of [broadcastTx]. *)
Record Net := mkNet {
  gets : nat;
  posts : nat
}.

Definition sent_get (s : Net) : Net := mkNet (S (gets s)) (posts s).
Definition sent_post (s : Net) : Net := mkNet (gets s) (S (posts s)).

Definition Utxo : Type := string * Z * Z.

(** The answer to a GET of the unspent outputs. *)
Inductive GetAnswer :=
  | GetFailed                (** [fetch] rejects *)
  | GetStatus (status : Z)   (** [response.ok] is false *)
  | GetNotJSON               (** no JSON content type, or [json()] throws *)
  | GetJSON (utxoData : option (list Utxo)).  (** [None]: not an array *)

(** The answer to a POST of a raw transaction. *)
Inductive PostAnswer :=
  | PostFailed               (** [fetch] or [response.text()] rejects *)
  | PostStatus (status : Z).

Inductive Error :=
  | ReferenceError (name : string)
  | TypeError.

(** The arguments of [bridgeToBSV], as far as the control flow reads
    them. *)
Record EchoJam := mkEchoJam {
  jam_hash : option string
}.

Record BaseResult := mkBaseResult {
  base_hash : option string;
  profit : option Q
}.

Record Env := mkEnv {
  address : bool;            (** [BSV_PRIVATE_KEY] gave a key and an address *)
  get : nat -> GetAnswer;    (** the answer to the n-th GET *)
  post : nat -> PostAnswer   (** the answer to the n-th POST *)
}.

Section Echo.

(** The value of the object literal of lines 62-110, and what the [bsv]
    library makes of it and the outputs: the signed transaction in hex,
    [None] when the library throws. *)
Variable Compressed : Type.
Variable build : Compressed -> list Utxo -> option string.

(** [compressJAM(jam, baseResult)] (lines 44-113).  [PHI_INVERSE] (line
    52) is bound nowhere in the file, so a truthy [baseResult.profit]
    ends in a [ReferenceError]; [jam.hash.slice] (line 64) needs a hash;
    and [compression_quality] (line 101) reads [compressed] inside the
    initializer of [compressed], where the binding is not yet
    initialized. *)
Definition compressJAM (jam : EchoJam) (baseResult : option BaseResult)
    : Error + Compressed :=
  let truthy_profit :=
    match baseResult with
    | Some result =>
        match profit result with
        | Some p => negb (Qeq_bool p 0)
        | None => false
        end
    | None => false
    end in
  if truthy_profit then inl (ReferenceError "PHI_INVERSE")
  else
    match jam_hash jam with
    | None => inl TypeError
    | Some _ => inl (ReferenceError "compressed")
    end.

(** [createEchoTx(jam, baseResult, utxos)] (lines 116-172): the hex of the
    transaction, or [null]. *)
Definition createEchoTx (env : Env) (jam : EchoJam)
    (baseResult : option BaseResult) (utxos : list Utxo) : option string :=
  if negb (address env) then None
  else
    match compressJAM jam baseResult with
    | inr compressed => build compressed utxos
    | inl _ => None
    end.

(** [fetchUTXOs(retryCount)] (lines 210-263) past the test of line 211,
    with [left = 5 - retryCount]. *)
Fixpoint fetchUTXOs_from (env : Env) (left : nat) (s : Net)
    : Awaited (list Utxo) * Net :=
  let answer := get env (gets s) in
  let s := sent_get s in
  match answer with
  | GetFailed => (Rejected, s)
  | GetStatus status =>
      if status =? 429 then
        match left with
        | S left' => fetchUTXOs_from env left' s
        | O => (Rejected, s)
        end
      else (Rejected, s)
  | GetNotJSON => (Rejected, s)
  | GetJSON None => (Resolved [], s)
  | GetJSON (Some utxoData) => (Resolved utxoData, s)
  end.

Definition fetchUTXOs (env : Env) (s : Net) : Awaited (list Utxo) * Net :=
  if negb (address env) then (Resolved [], s)
  else fetchUTXOs_from env 5 s.

(** [broadcastTx(txHex, retryCount)] (lines 298-331), with
    [left = 5 - retryCount]. *)
Fixpoint broadcastTx_from (env : Env) (left : nat) (s : Net)
    : Awaited Z * Net :=
  let answer := post env (posts s) in
  let s := sent_post s in
  match answer with
  | PostFailed => (Rejected, s)
  | PostStatus status =>
      if status =? 429 then
        match left with
        | S left' => broadcastTx_from env left' s
        | O => (Rejected, s)
        end
      else (Resolved status, s)
  end.

(** [broadcastTx(txHex)]; the result is the status of the answer it
    returns the text of. *)
Definition broadcastTx (env : Env) (s : Net) : Awaited Z * Net :=
  broadcastTx_from env 5 s.

(** The loop of [emitEcho] (lines 266-295), with [left] passes to go. *)
Fixpoint emitEcho_loop (env : Env) (jam : EchoJam)
    (baseResult : option BaseResult) (left : nat) (s : Net)
    : option string * Net :=
  match left with
  | O => (None, s)
  | S left' =>
      match fetchUTXOs env s with
      | (Rejected, s) => emitEcho_loop env jam baseResult left' s
      | (Resolved [], s) => (None, s)
      | (Resolved utxos, s) =>
          match createEchoTx env jam baseResult utxos with
          | Some echoResult =>
              match broadcastTx env s with
              | (Resolved _, s) => (Some echoResult, s)
              | (Rejected, s) => emitEcho_loop env jam baseResult left' s
              end
          | None => emitEcho_loop env jam baseResult left' s
          end
      end
  end.

Definition emitEcho (env : Env) (jam : EchoJam)
    (baseResult : option BaseResult) (retries : nat) (s : Net)
    : option string * Net :=
  emitEcho_loop env jam baseResult retries s.

(** [bridgeToBSV(jam, baseResult)] (lines 338-368): of the four chains of
    [CHAIN_FALLBACK_SEQUENCE] only BSV has a handler; [Rejected] is the
    error thrown on line 367. *)
Definition bridgeToBSV (env : Env) (jam : EchoJam)
    (baseResult : option BaseResult) (s : Net) : Awaited string * Net :=
  match emitEcho env jam baseResult 3 s with
  | (Some result, s) => (Resolved result, s)
  | (None, s) => (Rejected, s)
  end.

End Echo.

End BsvEcho.

(** * Properties *)

(** ** The pattern selector *)

Section SortFacts.
Implicit Types (l : list (Index.PatternId * Q)).
Implicit Types (x y b : Index.PatternId * Q).

Open Scope Q_scope.




End SortFacts.








(** ** Resonance *)

Section ResonanceFacts.
Open Scope Q_scope.

Lemma nat_Q_nonneg (n : nat) : 0 <= Index.nat_Q n.
Proof.
  unfold Index.nat_Q, Qle. simpl. lia.
Qed.

Lemma nat_Q_pos (n : nat) : (0 < n)%nat -> 0 < Index.nat_Q n.
Proof.
  intros H. unfold Index.nat_Q, Qlt. simpl. lia.
Qed.

Lemma Qdiv_nonneg (a b : Q) : 0 <= a -> 0 <= b -> 0 <= a / b.
Proof.
  intros Ha Hb. unfold Qdiv. apply Qmult_le_0_compat; [exact Ha|].
  now apply Qinv_le_0_compat.
Qed.

Lemma getPatternSuccessRate_nonneg (m : Index.Metrics) (p : Index.PatternId) :
  0 <= Index.getPatternSuccessRate m p.
Proof.
  unfold Index.getPatternSuccessRate.
  destruct (Index.attempts (Index.patternSuccess m p) =? 0)%nat.
  - lra.
  - apply Qdiv_nonneg; apply nat_Q_nonneg.
Qed.

Lemma weighted_sum_nonneg (len : Q) (l : list Q) (idx : nat) (acc : Q) :
  0 <= len -> 0 <= acc -> Forall (fun q => 0 <= q) l ->
  0 <= Index.weighted_sum len idx l acc.
Proof.
  intros Hlen. revert idx acc.
  induction l as [|x xs IH]; intros idx acc Hacc Hall; simpl; [exact Hacc|].
  apply Forall_cons in Hall as [Hx Hxs]. apply IH; [|exact Hxs].
  assert (0 <= x * (Index.nat_Q (idx + 1) / len)).
  { apply Qmult_le_0_compat; [exact Hx|].
    apply Qdiv_nonneg; [apply nat_Q_nonneg | exact Hlen]. }
  lra.
Qed.

Lemma calculateVectorMagnitude_nonneg (v : Index.MissedVector) :
  Forall (fun q => 0 <= q) (Index.intensities v) ->
  0 <= Index.calculateVectorMagnitude v.
Proof.
  intros Hall. unfold Index.calculateVectorMagnitude.
  destruct (Index.intensities v) as [|x xs] eqn:E; [lra|].
  apply Qdiv_nonneg; [|apply nat_Q_nonneg].
  apply weighted_sum_nonneg; [apply nat_Q_nonneg | lra | exact Hall].
Qed.

Lemma baseResonance_pos (p : Index.PatternId) :
  0 < Index.baseResonance (Index.PROVERB_PATTERNS p).
Proof. destruct p; reflexivity. Qed.

(** The five values of the consensus multiplier. *)
Lemma getConsensusMultiplier_cases (now : Z) :
  let c := Index.getConsensusMultiplier now in
  c = Index.PHI_SQUARED \/ c = Index.PHI \/ c = Index.PHI_INVERSE
  \/ c = 1 / Index.PHI_SQUARED \/ c = 1.
Proof.
  unfold Index.getConsensusMultiplier.
  repeat destruct (ext_leb _ _); tauto.
Qed.

Lemma getConsensusMultiplier_range (now : Z) :
  0 < Index.getConsensusMultiplier now <= Index.PHI_SQUARED.
Proof.
  destruct (getConsensusMultiplier_cases now) as [H|[H|[H|[H|H]]]];
    rewrite H; split; reflexivity || (intros E; discriminate E).
Qed.

Lemma adjustedConfidence_le (b r : Q) (k : nat) (g : Q) :
  Index.adjustedConfidence b r k g <= 0.99.
Proof. unfold Index.adjustedConfidence. apply Q.le_min_l. Qed.

Lemma adjustedConfidence_nonneg (b r : Q) (k : nat) (g : Q) :
  0 <= b -> 0 <= r -> 0 <= g -> 0 <= Index.adjustedConfidence b r k g.
Proof.
  intros Hb Hr Hg. unfold Index.adjustedConfidence.
  apply Q.min_glb; [lra|].
  pose proof (nat_Q_nonneg k) as Hk.
  assert (0 <= b * (0.5 + r * 0.5)) by (apply Qmult_le_0_compat; lra).
  lra.
Qed.

Lemma scaled_bounds (a c C : Q) :
  0 <= a <= 0.99 -> 0 < c <= C ->
  0 <= a * c /\ a * c <= 0.99 * c /\ a * c <= 0.99 * C.
Proof.
  intros [Ha0 Ha1] [Hc0 Hc1].
  assert (0 <= a * c) by (apply Qmult_le_0_compat; lra).
  assert (a * c <= 0.99 * c) by (apply Qmult_le_compat_r; lra).
  assert (0.99 * c <= 0.99 * C) by (apply Qmult_le_l; lra).
  repeat split; lra.
Qed.
End ResonanceFacts.

(** ** The shape of a cycle *)

Section CycleFacts.
Variable keccak256 : Jam -> string.

Abbreviation generateJam := (Index.generateJam keccak256).
Abbreviation analyzeAndGenerateJam := (Index.analyzeAndGenerateJam keccak256).
Abbreviation detectAndEmit := (Index.detectAndEmit keccak256).

(** A record comes out of [analyzeAndGenerateJam] only through
    [generateJam], on a state that differs from the caller's in its
    metrics alone. *)
Lemma analyzeAndGenerateJam_from_Some left k env s m0 r m :
  Index.analyzeAndGenerateJam_from keccak256 left k env s m0 = (Some r, m) ->
  exists analysis m',
    generateJam env (Index.set_metrics s m') analysis = (Some r, m).
Proof.
  revert k m0. induction left as [|left IH]; intros k m0; simpl;
    destruct (Index.analyze env k) as [|analysis]; try discriminate.
  - intros H. eexists _, _. exact H.
  - apply IH.
  - intros H. eexists _, _. exact H.
Qed.

Lemma analyzeAndGenerateJam_Some env s r m :
  analyzeAndGenerateJam env s = (Some r, m) ->
  exists analysis m',
    generateJam env (Index.set_metrics s m') analysis = (Some r, m).
Proof. apply analyzeAndGenerateJam_from_Some. Qed.

(** What [generateJam] puts in the record it builds. *)
Lemma generateJam_Some env s analysis jam hash m :
  generateJam env s analysis = (Some (jam, hash), m) ->
  Index.a_audit_pass analysis = true
  /\ hash = keccak256 jam
  /\ (exists jam_meta,
        meta jam = Some jam_meta
        /\ audit_pass jam_meta = true
        /\ parentJam jam_meta = Index.lastHash s)
  /\ cascadeDepth jam = Index.next_cascadeDepth (Index.jams s) (Index.lastHash s)
  /\ recursiveTopology jam
     = Some (mkTopology 1 0
               (Some (Index.generateVectorClock (Index.jams s) (Index.lastHash s))))
  /\ (exists p,
        resonance jam
        = Index.adaptiveResonance
            (Index.adjustedConfidence
               (Index.baseResonance (Index.PROVERB_PATTERNS p))
               (Index.getPatternSuccessRate
                  (Index.audit_passed (Index.metrics s)) p)
               (Index.missedEmissions s)
               (Index.calculateVectorMagnitude (Index.missedEmissionsVector s)))
            (Index.getConsensusMultiplier (Index.t_build env))).
Proof.
  unfold Index.generateJam.
  destruct (Index.a_audit_pass analysis); simpl; [|discriminate].
  destruct (Index.a_bait_hooks analysis) as [hooks|]; [|discriminate].
  intros [= <- <- _]. simpl.
  repeat split; eauto.
Qed.

Lemma detectAndEmit_end env s :
  cycle_end keccak256 env s (detectAndEmit env s).
Proof.
  unfold Index.detectAndEmit.
  destruct (Index.isEmitting s) eqn:Hbusy; [now constructor|].
  destruct (Index.timing_checks env (Index.set_isEmitting s true)) eqn:Ht;
    [now constructor | now constructor |].
  change (Index.set_isEmitting (Index.set_isEmitting s true) true)
    with (Index.set_isEmitting s true).
  destruct (analyzeAndGenerateJam env (Index.set_isEmitting s true))
    as [[[jam hash]|] m] eqn:Ha.
  - now apply end_emitted.
  - now apply end_no_record.
Qed.

Lemma timing_checks_Missed env s c :
  Index.timing_checks env s = Index.Missed c ->
  c = Index.getConsensusMultiplier (Index.t_check env).
Proof.
  unfold Index.timing_checks.
  repeat match goal with |- context [if ?b then _ else _] =>
    destruct b end; congruence.
Qed.
End CycleFacts.

Section StrategistInvariants.
Variable keccak256 : Jam -> string.

Open Scope Q_scope.

Lemma emit_missedEmissionsVector env s jam hash :
  let v := Index.missedEmissionsVector s in
  let v' := Index.missedEmissionsVector (Index.emit env s jam hash) in
  v' = v
  \/ v' = Index.mkVector 0 (Index.last5 (Index.timestamps v))
            (Index.last5 (Index.intensities v)).
Proof.
  unfold Index.emit.
  destruct (Index.write_ok env); simpl; [|now left].
  destruct (Index.fee_ok env); simpl; [|now left].
  destruct (Index.tx_outcome env); simpl; try now left.
  destruct (Index.bsv_echo env) as [[|]|]; simpl; now right.
Qed.

Lemma detectAndEmit_intensities_nonneg env s :
  intensities_nonneg s ->
  intensities_nonneg (Index.detectAndEmit keccak256 env s).
Proof.
  unfold intensities_nonneg. intros H.
  destruct (detectAndEmit_end keccak256 env s); simpl; try exact H.
  - apply Forall_app. split; [exact H|].
    apply Forall_singleton.
    match goal with Ht : Index.timing_checks _ _ = _ |- _ =>
      apply timing_checks_Missed in Ht as -> end.
    apply Qlt_le_weak, getConsensusMultiplier_range.
  - destruct (emit_missedEmissionsVector env
                (Index.set_metrics (Index.set_isEmitting s true) m) jam hash)
      as [E|E]; simpl in E; rewrite E; simpl; [exact H|].
    unfold Index.last5. now apply Forall_drop.
Qed.

Lemma reachable_intensities_nonneg s :
  Index.reachable keccak256 s -> intensities_nonneg s.
Proof.
  induction 1 as [jams|env s _ IH].
  - apply Forall_nil_2.
  - now apply detectAndEmit_intensities_nonneg.
Qed.

(** C3, as the code has it.  In every cycle that builds a record, the
    confidence term is clamped to at most [0.99], and the resonance
    stored is that term multiplied by the consensus multiplier of the
    moment: it lies between [0] and [0.99] times the multiplier, hence
    never above [0.99 * PHI_SQUARED]; it stays within [[0, 0.99]]
    whenever the multiplier is at most [1]. *)
Theorem resonance_bounds env s jam hash m :
  Index.reachable keccak256 s ->
  Index.analyzeAndGenerateJam keccak256 env (Index.set_isEmitting s true)
  = (Some (jam, hash), m) ->
  let c := Index.getConsensusMultiplier (Index.t_build env) in
  0 <= resonance jam
  /\ resonance jam <= 0.99 * c
  /\ resonance jam <= 0.99 * Index.PHI_SQUARED
  /\ (c <= 1 -> resonance jam <= 0.99).
Proof.
  intros Hreach Hbuilt c.
  apply reachable_intensities_nonneg in Hreach.
  apply analyzeAndGenerateJam_Some in Hbuilt as (analysis & m' & Hgen).
  apply generateJam_Some in Hgen as (_ & _ & _ & _ & _ & p & Hres).
  simpl in Hres. rewrite Hres. unfold Index.adaptiveResonance.
  match goal with |- context [Index.adjustedConfidence ?b ?r ?k ?g] =>
    pose proof (adjustedConfidence_le b r k g) as Hle;
    assert (0 <= Index.adjustedConfidence b r k g) as Hge;
    [|set (a := Index.adjustedConfidence b r k g) in *]
  end.
  { apply adjustedConfidence_nonneg.
    - apply Qlt_le_weak, baseResonance_pos.
    - apply getPatternSuccessRate_nonneg.
    - now apply calculateVectorMagnitude_nonneg. }
  fold c.
  destruct (scaled_bounds a c Index.PHI_SQUARED (conj Hge Hle)
              (getConsensusMultiplier_range _)) as (H0 & H1 & H2).
  repeat split; try assumption.
  intros Hc. lra.
Qed.
End StrategistInvariants.

Lemma resonance_bounds_witness :
  exists jam hash m,
    Index.analyzeAndGenerateJam (fun _ => "0xjam") aligned_env
      (Index.set_isEmitting (Index.initial_state ∅) true)
    = (Some (jam, hash), m)
    /\ (0 <= resonance jam)%Q
    /\ (resonance jam <= 0.99 * Index.PHI_SQUARED)%Q.
Proof.
  eexists _, _, _. split; [reflexivity|].
  destruct (resonance_bounds (fun _ => "0xjam") aligned_env
              (Index.initial_state ∅) _ _ _
              (Index.reachable_start _ ∅) eq_refl) as (H0 & _ & H2 & _).
  split; [exact H0|exact H2].
Defined.

(** C3, as stated, fails: the record built by that cycle carries a
    resonance of [0.99 * PHI_SQUARED], about [2.59]. *)
Lemma resonance_above_099 :
  exists jam hash m,
    Index.analyzeAndGenerateJam (fun _ => "0xjam") aligned_env
      (Index.set_isEmitting (Index.initial_state ∅) true)
    = (Some (jam, hash), m)
    /\ ~ (0 <= resonance jam <= 0.99)%Q.
Proof.
  eexists _, _, _. split; [reflexivity|].
  simpl. intros [_ H]. revert H. apply Qlt_not_le. reflexivity.
Qed.

(** ** Emission *)

Section EmitFacts.
Variable keccak256 : Jam -> string.

Lemma emit_cases env s jam hash :
  emit_end env s jam hash (Index.emit env s jam hash).
Proof.
  unfold Index.emit.
  destruct (Index.write_ok env) eqn:Hw; simpl; [|now constructor].
  destruct (Index.fee_ok env) eqn:Hf; simpl; [|now constructor].
  destruct (Index.tx_outcome env) eqn:Ht; simpl;
    try (apply emit_rejected; congruence).
  apply emit_mined; try assumption;
    destruct (Index.bsv_echo env) as [[|]|]; simpl;
    try reflexivity;
    try (destruct (_ ≫= Index.pattern_of_key); reflexivity);
    rewrite <- ?app_assoc; simpl; auto.
Qed.
End EmitFacts.

(** ** The Strategist: audit gate, busy flag, lineage, submission *)

Section StrategistFacts.
Variable keccak256 : Jam -> string.

Abbreviation generateJam := (Index.generateJam keccak256).
Abbreviation analyzeAndGenerateJam := (Index.analyzeAndGenerateJam keccak256).
Abbreviation detectAndEmit := (Index.detectAndEmit keccak256).
Abbreviation cycles := (Index.cycles keccak256).

Lemma analyzeAndGenerateJam_from_failing left k env s m0 :
  match Index.first_answer_from left k env with
  | Some analysis => Index.a_audit_pass analysis = false
  | None => True
  end ->
  fst (Index.analyzeAndGenerateJam_from keccak256 left k env s m0) = None.
Proof.
  revert k m0. induction left as [|left IH]; intros k m0; simpl;
    destruct (Index.analyze env k) as [|analysis]; try reflexivity;
    try apply IH;
    intros Hfail; unfold Index.generateJam; rewrite Hfail; reflexivity.
Qed.

Lemma analyzeAndGenerateJam_failing env s :
  match Index.first_answer env with
  | Some analysis => Index.a_audit_pass analysis = false
  | None => True
  end ->
  fst (analyzeAndGenerateJam env s) = None.
Proof. apply analyzeAndGenerateJam_from_failing. Qed.

(** A cycle that builds no record writes nothing and calls nothing. *)
Lemma detectAndEmit_no_record env s :
  fst (analyzeAndGenerateJam env (Index.set_isEmitting s true)) = None ->
  Index.jams (detectAndEmit env s) = Index.jams s
  /\ Index.calls (detectAndEmit env s) = Index.calls s
  /\ Index.lastHash (detectAndEmit env s) = Index.lastHash s.
Proof.
  intros Hnone.
  destruct (detectAndEmit_end keccak256 env s); simpl; auto.
  match goal with H : analyzeAndGenerateJam _ _ = _ |- _ =>
    rewrite H in Hnone end.
  discriminate.
Qed.

(** Once the flag is set, a cycle is the identity. *)
Lemma detectAndEmit_busy env s :
  Index.isEmitting s = true -> detectAndEmit env s = s.
Proof. intros H. unfold Index.detectAndEmit. now rewrite H. Qed.

Lemma cycles_busy envs s :
  Index.isEmitting s = true -> cycles envs s = s.
Proof.
  intros H. induction envs as [|env envs IH]; [reflexivity|].
  unfold Index.cycles. simpl. rewrite detectAndEmit_busy by exact H.
  exact IH.
Qed.

(** C10.  When a cycle passes the timing checks and
    [analyzeAndGenerateJam] returns [null], [detectAndEmit] returns with
    [isEmitting] still set, having written no record and made no call;
    from that state every later invocation, under any environment,
    returns at the guard and changes nothing. *)
Theorem busy_flag_stays_set env s m :
  Index.isEmitting s = false ->
  Index.timing_checks env (Index.set_isEmitting s true) = Index.Proceed ->
  analyzeAndGenerateJam env (Index.set_isEmitting s true) = (None, m) ->
  let s' := detectAndEmit env s in
  Index.isEmitting s' = true
  /\ Index.jams s' = Index.jams s
  /\ Index.calls s' = Index.calls s
  /\ (forall env', detectAndEmit env' s' = s')
  /\ (forall envs, cycles envs s' = s').
Proof.
  intros Hfree Htime Hnull s'.
  assert (s' = Index.set_metrics (Index.set_isEmitting s true) m) as ->.
  { unfold s', Index.detectAndEmit. rewrite Hfree, Htime.
    change (Index.set_isEmitting (Index.set_isEmitting s true) true)
      with (Index.set_isEmitting s true).
    now rewrite Hnull. }
  split; [reflexivity|]. split; [reflexivity|]. split; [reflexivity|].
  split.
  - intros env'. now apply detectAndEmit_busy.
  - intros envs. now apply cycles_busy.
Qed.

Lemma analyzeAndGenerateJam_from_emissionSuccesses left k env s m0 :
  Index.emissionSuccesses
    (snd (Index.analyzeAndGenerateJam_from keccak256 left k env s m0))
  = Index.emissionSuccesses m0.
Proof.
  revert k m0. induction left as [|left IH]; intros k m0; simpl;
    destruct (Index.analyze env k) as [|analysis];
    try reflexivity; try (rewrite IH; reflexivity);
    unfold Index.generateJam; simpl;
    destruct (Index.a_audit_pass analysis); simpl; try reflexivity;
    destruct (Index.a_bait_hooks analysis); reflexivity.
Qed.

Lemma analyzeAndGenerateJam_emissionSuccesses env s r m :
  analyzeAndGenerateJam env s = (r, m) ->
  Index.emissionSuccesses m = Index.emissionSuccesses (Index.metrics s).
Proof.
  intros H.
  pose proof (analyzeAndGenerateJam_from_emissionSuccesses
                Index.MAX_RETRIES 0 env s (Index.metrics s)) as E.
  unfold Index.analyzeAndGenerateJam in H. rewrite H in E. exact E.
Qed.

(** What a cycle that succeeded has done. *)
Lemma succeeded_inv env s :
  Index.succeeded keccak256 env s ->
  exists jam hash m,
    analyzeAndGenerateJam env (Index.set_isEmitting s true)
    = (Some (jam, hash), m)
    /\ Index.isEmitting s = false
    /\ Index.lastHash (detectAndEmit env s) = Some hash
    /\ Index.jams (detectAndEmit env s)
       = Index.JAMStore.store hash jam (Index.jams s)
    /\ (Index.calls (detectAndEmit env s)
        = Index.calls s ++ [Index.submission (Index.lastHash s) hash]
        \/ Index.calls (detectAndEmit env s)
           = Index.calls s ++ [Index.submission (Index.lastHash s) hash;
                               Index.bridgeToBSV hash]).
Proof.
  unfold Index.succeeded. intros Hs.
  destruct (detectAndEmit_end keccak256 env s) as [| | |m ? ? Ha|jam hash m Hb Ht Ha];
    simpl in Hs; try lia.
  - apply analyzeAndGenerateJam_emissionSuccesses in Ha. simpl in Ha. lia.
  - exists jam, hash, m. split; [exact Ha|]. split; [exact Hb|].
    apply analyzeAndGenerateJam_emissionSuccesses in Ha. simpl in Ha.
    destruct (emit_cases env
                (Index.set_metrics (Index.set_isEmitting s true) m) jam hash)
      as [Hw|Hw Hf|Hw Hf Hx|s' Hw Hf Hx Hl Hj Hn Hc];
      simpl in *; try lia.
    auto.
Qed.

Lemma js_or_Z_0 (x : Z) : js_or_Z x 0 = x.
Proof. unfold js_or_Z. destruct (Z.eqb_spec x 0); congruence. Qed.

Lemma next_cascadeDepth_latest s :
  Index.next_cascadeDepth (Index.jams s) (Index.lastHash s)
  = match Index.latest_record s with
    | Some parent => (cascadeDepth parent + 1)%Z
    | None => 1%Z
    end.
Proof.
  unfold Index.next_cascadeDepth, Index.latest_record.
  destruct (Index.truthy (Index.lastHash s)) as [hash|]; [|reflexivity].
  rewrite js_or_Z_0.
  now destruct (Index.JAMStore.retrieve _ _).
Qed.

Lemma generateVectorClock_latest s :
  eth (Index.generateVectorClock (Index.jams s) (Index.lastHash s))
  = (js_or_opt (Index.latest_record s ≫= Index.own_clock) 0 + 1)%Z.
Proof.
  unfold Index.generateVectorClock, Index.latest_record, Index.own_clock.
  destruct (Index.truthy (Index.lastHash s)) as [hash|]; [|reflexivity].
  destruct (Index.JAMStore.retrieve _ _) as [parent|]; [|reflexivity].
  simpl.
  destruct (recursiveTopology parent) as [topology|]; [|reflexivity].
  simpl. now destruct (vectorClock topology).
Qed.

Lemma truthy_Some (h : string) : h <> "" -> Index.truthy (Some h) = Some h.
Proof.
  intros H. simpl. destruct (String.eqb_spec h ""); [contradiction|reflexivity].
Qed.

(** The record built by a cycle that succeeded, against the record that
    was the latest before the cycle. *)
Lemma succeeded_lineage env s :
  (forall jam, keccak256 jam <> "") ->
  Index.succeeded keccak256 env s ->
  exists jam jam_meta,
    Index.latest_record (detectAndEmit env s) = Some jam
    /\ Index.lastHash (detectAndEmit env s) = Some (keccak256 jam)
    /\ meta jam = Some jam_meta
    /\ parentJam jam_meta = Index.lastHash s
    /\ cascadeDepth jam
       = match Index.latest_record s with
         | Some parent => (cascadeDepth parent + 1)%Z
         | None => 1%Z
         end
    /\ Index.own_clock jam
       = Some (js_or_opt (Index.latest_record s ≫= Index.own_clock) 0 + 1)%Z.
Proof.
  intros Hk Hs.
  apply succeeded_inv in Hs as (jam & hash & m & Ha & _ & Hl & Hj & _).
  apply analyzeAndGenerateJam_Some in Ha as (analysis & m' & Hg).
  apply generateJam_Some in Hg
    as (_ & -> & (jam_meta & Hm & _ & Hp) & Hd & Hc & _).
  simpl in Hp, Hd, Hc.
  exists jam, jam_meta. repeat split; try assumption.
  - unfold Index.latest_record. rewrite Hl, truthy_Some by apply Hk.
    rewrite Hj. apply lookup_insert_eq.
  - rewrite Hd. apply (next_cascadeDepth_latest s).
  - unfold Index.own_clock at 1. rewrite Hc.
    transitivity
      (Some (eth (Index.generateVectorClock (Index.jams s) (Index.lastHash s))));
      [reflexivity|].
    f_equal. apply generateVectorClock_latest.
Qed.

(** C4.  Along a chain of records built by successful cycles: the record
    of a cycle has the [cascadeDepth] of the record that was the latest
    before it plus one, and [1] when there was none to resolve; its own
    counter in the vector clock is the parent's plus one (counting from
    [0] when the parent carries no clock).  For two consecutive
    successful cycles the second record names the first as its parent and
    both numbers grow by exactly one; after [n] further successful cycles
    they have grown by exactly [n]. *)
Theorem lineage_increments_by_one :
  (forall jam, keccak256 jam <> "") ->
  (forall env s,
     Index.succeeded keccak256 env s ->
     exists jam,
       Index.latest_record (detectAndEmit env s) = Some jam
       /\ match Index.latest_record s with
          | Some parent =>
              cascadeDepth jam = (cascadeDepth parent + 1)%Z
              /\ Index.own_clock jam
                 = Some (js_or_opt (Index.own_clock parent) 0 + 1)%Z
          | None =>
              cascadeDepth jam = 1%Z /\ Index.own_clock jam = Some 1%Z
          end)
  /\ (forall env1 env2 s,
        Index.succeeded keccak256 env1 s ->
        Index.succeeded keccak256 env2 (detectAndEmit env1 s) ->
        exists parent child child_meta counter,
          Index.latest_record (detectAndEmit env1 s) = Some parent
          /\ Index.latest_record (detectAndEmit env2 (detectAndEmit env1 s))
             = Some child
          /\ meta child = Some child_meta
          /\ parentJam child_meta = Some (keccak256 parent)
          /\ cascadeDepth child = (cascadeDepth parent + 1)%Z
          /\ Index.own_clock parent = Some counter
          /\ Index.own_clock child = Some (counter + 1)%Z)
  /\ (forall envs env s,
        Index.all_succeeded keccak256 (env :: envs) s ->
        exists first last counter,
          Index.latest_record (detectAndEmit env s) = Some first
          /\ Index.latest_record (cycles envs (detectAndEmit env s))
             = Some last
          /\ cascadeDepth last
             = (cascadeDepth first + Z.of_nat (length envs))%Z
          /\ Index.own_clock first = Some counter
          /\ Index.own_clock last
             = Some (counter + Z.of_nat (length envs))%Z).
Proof.
  intros Hk.
  assert (forall env1 env2 s,
        Index.succeeded keccak256 env1 s ->
        Index.succeeded keccak256 env2 (detectAndEmit env1 s) ->
        exists parent child child_meta counter,
          Index.latest_record (detectAndEmit env1 s) = Some parent
          /\ Index.latest_record (detectAndEmit env2 (detectAndEmit env1 s))
             = Some child
          /\ meta child = Some child_meta
          /\ parentJam child_meta = Some (keccak256 parent)
          /\ cascadeDepth child = (cascadeDepth parent + 1)%Z
          /\ Index.own_clock parent = Some counter
          /\ Index.own_clock child = Some (counter + 1)%Z) as Hpair.
  { intros env1 env2 s H1 H2.
    apply (succeeded_lineage _ _ Hk) in H1
      as (parent & pm & Hp & Hlp & _ & _ & _ & Hpc).
    apply (succeeded_lineage _ _ Hk) in H2
      as (child & cm & Hc & _ & Hcm & Hcp & Hcd & Hcc).
    rewrite Hp in Hcd, Hcc. simpl in Hcc. rewrite Hpc in Hcc. simpl in Hcc.
    exists parent, child, cm. eexists.
    repeat split; try eassumption. congruence. }
  split; [|split; [exact Hpair|]].
  - intros env s Hs.
    apply (succeeded_lineage _ _ Hk) in Hs
      as (jam & jm & Hj & _ & _ & _ & Hd & Hc).
    exists jam. split; [exact Hj|].
    destruct (Index.latest_record s) as [parent|]; simpl in Hc; auto.
  - intros envs. induction envs as [|env' envs IH]; intros env s [H1 Hrest].
    + apply (succeeded_lineage _ _ Hk) in H1
        as (jam & jm & Hj & _ & _ & _ & _ & Hc).
      exists jam, jam. eexists. simpl.
      rewrite Z.add_0_r. repeat split; try eassumption.
      rewrite Hc. f_equal. lia.
    + destruct Hrest as [H2 Hrest'].
      destruct (Hpair env env' s H1 H2)
        as (first & second & sm & counter & Hf & Hsnd & _ & _ & Hd & Hfc & Hsc).
      destruct (IH env' (detectAndEmit env s) (conj H2 Hrest'))
        as (second' & last & counter' & Hsnd' & Hlast & Hld & Hsc' & Hlc).
      rewrite Hsnd in Hsnd'. injection Hsnd' as <-.
      rewrite Hsc in Hsc'. injection Hsc' as <-.
      exists first, last, counter.
      split; [exact Hf|]. split; [exact Hlast|].
      split; [|split; [exact Hfc|]].
      * rewrite Hld, Hd. simpl length. lia.
      * rewrite Hlc. f_equal. simpl length. lia.
Qed.

(** [lastHash] is [null] or the hash of a record built earlier. *)
Lemma detectAndEmit_lastHash env s :
  Index.lastHash (detectAndEmit env s) = Index.lastHash s
  \/ exists jam, Index.lastHash (detectAndEmit env s) = Some (keccak256 jam).
Proof.
  destruct (detectAndEmit_end keccak256 env s)
    as [| | | |jam hash m Hb Ht Ha]; simpl; auto.
  apply analyzeAndGenerateJam_Some in Ha as (analysis & m' & Hg).
  apply generateJam_Some in Hg as (_ & -> & _).
  destruct (emit_cases env
              (Index.set_metrics (Index.set_isEmitting s true) m) jam
              (keccak256 jam)) as [| | |s' _ _ _ Hl]; simpl; eauto.
Qed.

Lemma reachable_lastHash s :
  Index.reachable keccak256 s ->
  Index.lastHash s = None
  \/ exists jam, Index.lastHash s = Some (keccak256 jam).
Proof.
  induction 1 as [jams|env s _ IH]; [now left|].
  destruct (detectAndEmit_lastHash env s) as [->|]; auto.
Qed.

Lemma submission_None hash : Index.submission None hash = Index.emitSignal hash.
Proof. reflexivity. Qed.

Lemma submission_Some parentHash hash :
  parentHash <> "" -> parentHash <> Index.ZeroHash ->
  Index.submission (Some parentHash) hash
  = Index.emitRecursiveSignal hash parentHash.
Proof.
  intros Hne Hnz. unfold Index.submission.
  rewrite truthy_Some by exact Hne.
  destruct (String.eqb_spec parentHash Index.ZeroHash); [contradiction|].
  reflexivity.
Qed.

(** C5.  In every cycle the Strategist makes at most one call on the
    vault, for the record it has just stored: [emitSignal] with the hash
    alone when there is no parent hash, [emitRecursiveSignal] with the
    hash and the parent hash otherwise; the record names that same parent
    in [meta.parentJam]. *)
Theorem submission_follows_parent env s :
  (forall jam, keccak256 jam <> "" /\ keccak256 jam <> Index.ZeroHash) ->
  Index.reachable keccak256 s ->
  let s' := detectAndEmit env s in
  Index.calls s' = Index.calls s
  \/ exists jam jam_meta,
       let hash := keccak256 jam in
       let call :=
         match Index.lastHash s with
         | None => Index.emitSignal hash
         | Some parentHash => Index.emitRecursiveSignal hash parentHash
         end in
       Index.JAMStore.retrieve hash (Index.jams s') = Some jam
       /\ meta jam = Some jam_meta
       /\ parentJam jam_meta = Index.lastHash s
       /\ (Index.calls s' = Index.calls s ++ [call]
           \/ Index.calls s'
              = Index.calls s ++ [call; Index.bridgeToBSV hash]).
Proof.
  intros Hk Hreach s'. unfold s'.
  destruct (detectAndEmit_end keccak256 env s)
    as [| | | |jam hash m Hb Ht Ha]; simpl; auto.
  apply analyzeAndGenerateJam_Some in Ha as (analysis & m' & Hg).
  apply generateJam_Some in Hg as (_ & -> & (jam_meta & Hm & _ & Hp) & _).
  simpl in Hp.
  assert (Index.submission (Index.lastHash s) (keccak256 jam)
          = match Index.lastHash s with
            | None => Index.emitSignal (keccak256 jam)
            | Some parentHash =>
                Index.emitRecursiveSignal (keccak256 jam) parentHash
            end) as Hsub.
  { destruct (reachable_lastHash s Hreach) as [->|[parent ->]];
      [reflexivity|].
    apply submission_Some; apply Hk. }
  destruct (emit_cases env
              (Index.set_metrics (Index.set_isEmitting s true) m) jam
              (keccak256 jam)) as [| |Hw Hf Hx|s'' Hw Hf Hx Hl Hj Hn Hc];
    simpl in *; auto; right; exists jam, jam_meta; simpl;
    rewrite <- Hsub.
  - split; [apply lookup_insert_eq|]. auto.
  - split; [rewrite Hj; apply lookup_insert_eq|]. auto.
Qed.
End StrategistFacts.

(** ** The reflex workers *)

Section AmplifierFacts.
Import Amplifier.

Lemma amplify_unaudited env hash s :
  audited (jams s !! hash) = false -> quiet s (amplify env hash s).
Proof.
  unfold amplify, audited, Index.JAMStore.retrieve. intros H.
  destruct (gasPrice env); simpl; [easy|].
  destruct (jams s !! hash) as [jamData|]; simpl; [|easy].
  destruct (meta jamData) as [jam_meta|]; simpl; [|easy].
  rewrite H. simpl. easy.
Qed.

Lemma attempt_unaudited env hash s :
  audited (jams s !! hash) = false -> quiet s (attempt env hash s).
Proof.
  intros H. unfold attempt.
  destruct (isAmplifying s); simpl; [easy|].
  destruct (getTransaction env) as [|[tx|]]; simpl; try easy.
  destruct (from_emitter tx); simpl; [|easy].
  destruct (to_vault tx && negb (decodes_signal tx)); simpl; [easy|].
  pose proof (amplify_unaudited env hash (set_lock s true) H) as Hq.
  destruct (amplify env hash (set_lock s true)); exact Hq.
Qed.

Lemma retry_loop_unaudited env hash left s :
  audited (jams s !! hash) = false ->
  actions (retry_loop env hash left s) = actions s
  /\ jams (retry_loop env hash left s) = jams s.
Proof.
  revert s. induction left as [|left IH]; intros s H; simpl; [easy|].
  pose proof (attempt_unaudited env hash s H) as Hq.
  destruct (attempt env hash s) as [s'|s'|s']; simpl in Hq;
    destruct Hq as [Ha Hj]; simpl; try easy.
  rewrite <- Hj in H. destruct (IH s' H) as [-> ->]. easy.
Qed.

(** The amplifier does not act on a hash whose record is missing,
    carries no [meta], or failed the audit. *)
Lemma handleSignal_unaudited env hash s :
  audited (jams s !! hash) = false ->
  actions (handleSignal env hash s) = actions s.
Proof. intros H. now apply retry_loop_unaudited. Qed.

(** While the lock is held, [handleSignal] returns at line 714. *)
Lemma handleSignal_locked env hash s :
  isAmplifying s = true -> handleSignal env hash s = s.
Proof.
  intros H. unfold handleSignal. simpl. unfold attempt. now rewrite H.
Qed.
End AmplifierFacts.

Section MirrorFacts.
Import Mirror.

Lemma processSignalEvent_unaudited env hash s :
  audited (jams s !! hash) = false ->
  actions (processSignalEvent env hash s) = actions s.
Proof.
  unfold processSignalEvent, safeRetrieveJam, audited,
    Index.JAMStore.retrieve. intros H.
  destruct (event_present env); simpl; [|reflexivity].
  destruct (getTransaction env) as [|[|]]; simpl; try reflexivity.
  destruct (bool_decide (hash ∈ mirroredSignals s)); [reflexivity|].
  destruct (jams s !! hash) as [data|]; simpl; [|reflexivity].
  destruct (meta data) as [m|]; simpl; [|reflexivity].
  now rewrite H.
Qed.

(** The mirror skips a hash recorded in [mirroredSignals]. *)
Lemma processSignalEvent_mirrored env hash s :
  hash ∈ mirroredSignals s -> processSignalEvent env hash s = s.
Proof.
  intros H. unfold processSignalEvent.
  destruct (event_present env); simpl; [|reflexivity].
  destruct (getTransaction env) as [|[|]]; simpl; try reflexivity.
  now rewrite bool_decide_eq_true_2.
Qed.

(** The mirror records a hash once its step is confirmed, so a second
    delivery of the hash does nothing. *)
Lemma processSignalEvent_twice env1 env2 hash s :
  let s1 := processSignalEvent env1 hash s in
  let s2 := processSignalEvent env2 hash s1 in
  (length (actions s) < length (actions s1))%nat ->
  step_outcome env1 = Confirmed ->
  s2 = s1.
Proof.
  intros s1 s2 Hacted Hconf. unfold s2.
  apply processSignalEvent_mirrored.
  unfold s1 in *. clear s1 s2. revert Hacted.
  unfold processSignalEvent.
  destruct (event_present env1); simpl; [|lia].
  destruct (getTransaction env1) as [|[|]]; simpl; try lia.
  destruct (bool_decide (hash ∈ mirroredSignals s)); [lia|].
  destruct (safeRetrieveJam hash (jams s)) as [proverb meta].
  destruct (negb _); [lia|].
  destruct (find_actor "MIRROR" proverb) as [myStep|]; [|lia].
  unfold execute_step.
  repeat match goal with
         | |- context [if ?b then _ else _] => destruct b
         | |- context [match ?o with Some _ => _ | None => _ end] =>
             destruct o
         end; try lia; intros _;
    unfold approve_then; rewrite Hconf; simpl; set_solver.
Qed.
End MirrorFacts.

(** ** The audit gate, end to end *)

Section AuditGate.
Variable keccak256 : Jam -> string.

(** C1.  A target that fails the audit yields no record: when the answer
    the Strategist works on is not a pass (or no attempt returns one),
    [analyzeAndGenerateJam] returns [null] and the cycle neither writes to
    the store nor calls the vault; every record the Strategist does build
    carries [audit_pass = true].  A reflex worker handed a hash whose
    record is missing, has no [meta] or has [audit_pass] unset performs no
    action at all: this holds for [handleSignal] of the amplifier and for
    [processSignalEvent] of the mirror. *)
Theorem audit_gate :
  (forall env s,
     match Index.first_answer env with
     | Some analysis => Index.a_audit_pass analysis = false
     | None => True
     end ->
     let s' := Index.detectAndEmit keccak256 env s in
     (forall s0, fst (Index.analyzeAndGenerateJam keccak256 env s0) = None)
     /\ Index.jams s' = Index.jams s
     /\ Index.calls s' = Index.calls s)
  /\ (forall env s jam hash m,
        Index.analyzeAndGenerateJam keccak256 env s = (Some (jam, hash), m) ->
        audited (Some jam) = true)
  /\ (forall env hash s,
        audited (Amplifier.jams s !! hash) = false ->
        Amplifier.actions (Amplifier.handleSignal env hash s)
        = Amplifier.actions s)
  /\ (forall env hash s,
        audited (Mirror.jams s !! hash) = false ->
        Mirror.actions (Mirror.processSignalEvent env hash s)
        = Mirror.actions s).
Proof.
  split; [|split; [|split]].
  - intros env s Hfail s'.
    split; [intros s0; now apply analyzeAndGenerateJam_failing|].
    destruct (detectAndEmit_no_record keccak256 env s) as (Hj & Hc & _);
      [now apply analyzeAndGenerateJam_failing | auto].
  - intros env s jam hash m Ha.
    apply analyzeAndGenerateJam_Some in Ha as (analysis & m' & Hg).
    apply generateJam_Some in Hg as (_ & _ & (jam_meta & Hm & Hp & _) & _).
    simpl. now rewrite Hm.
  - intros env hash s. apply handleSignal_unaudited.
  - intros env hash s. apply processSignalEvent_unaudited.
Qed.
End AuditGate.

Lemma audit_gate_witness :
  Index.calls
    (Index.detectAndEmit (fun _ => "0xjam") failing_env (Index.initial_state ∅))
  = []
  /\ Amplifier.actions
       (Amplifier.handleSignal smooth_env "0xbad"
          (Amplifier.mkState false [] [] {[ "0xbad" := unaudited_jam ]} []))
     = []
  /\ Mirror.actions
       (Mirror.processSignalEvent eager_mirror_env "0xbad"
          (Mirror.mkState ∅ 0 {[ "0xbad" := unaudited_jam ]} []))
     = [].
Proof.
  destruct (audit_gate (fun _ => "0xjam")) as (Hs & _ & Ha & Hm).
  split; [|split].
  - destruct (Hs failing_env (Index.initial_state ∅)) as (_ & _ & Hc).
    + reflexivity.
    + exact Hc.
  - apply (Ha smooth_env "0xbad"
             (Amplifier.mkState false [] [] {[ "0xbad" := unaudited_jam ]} [])).
    reflexivity.
  - apply (Hm eager_mirror_env "0xbad"
             (Mirror.mkState ∅ 0 {[ "0xbad" := unaudited_jam ]} [])).
    reflexivity.
Defined.

(** ** Two deliveries of one hash to the amplifier *)


(** ** JAMStore.update *)

Section UpdateFacts.
Import Index.JAMStore.

(** C6, as the code has it.  [update] on a hash without a record returns
    [null] and leaves the store as it is.  On a hash with a record it
    returns the record with every key of the update laid over it, and
    stores that under the same hash: the keys the update does not name
    keep their value (in particular [proverb] and [meta] when it names
    neither), the store holds the same hashes as before, and the record
    of every other hash is untouched. *)
Theorem update_merges_named_keys (hash : string) (updates : JamPatch)
    (jams : gmap string Jam) :
  (retrieve hash jams = None -> update hash updates jams = (None, jams))
  /\ (forall existing,
        retrieve hash jams = Some existing ->
        let updated := spread existing updates in
        update hash updates jams = (Some updated, store hash updated jams)
        /\ retrieve hash (snd (update hash updates jams)) = Some updated
        /\ (p_proverb updates = None -> proverb updated = proverb existing)
        /\ (p_meta updates = None -> meta updated = meta existing)
        /\ (p_tags updates = None -> tags updated = tags existing)
        /\ (p_recursiveTopology updates = None ->
            recursiveTopology updated = recursiveTopology existing)
        /\ (p_cascadeDepth updates = None ->
            cascadeDepth updated = cascadeDepth existing)
        /\ (p_resonance updates = None ->
            resonance updated = resonance existing)
        /\ dom (snd (update hash updates jams)) = dom jams
        /\ (forall other,
              other <> hash ->
              retrieve other (snd (update hash updates jams))
              = retrieve other jams)).
Proof.
  split.
  - unfold update. intros ->. reflexivity.
  - intros existing Hex updated. unfold update. rewrite Hex. simpl.
    split; [reflexivity|].
    split; [apply lookup_insert_eq|].
    do 6 (split; [intros H; unfold updated, spread; simpl; now rewrite H|]).
    split.
    + unfold store. apply dom_insert_lookup_L. eauto.
    + intros other Hne. unfold retrieve, store.
      now rewrite lookup_insert_ne.
Qed.
End UpdateFacts.

Lemma update_merges_named_keys_witness :
  meta
    (spread unaudited_jam
       (mkPatch None None None
          (Some (Some (mkTopology 1 1 (Some (mkClock 1 0))))) None None))
  = meta unaudited_jam.
Proof.
  destruct (update_merges_named_keys "0xbad"
              (mkPatch None None None
                 (Some (Some (mkTopology 1 1 (Some (mkClock 1 0))))) None None)
              {[ "0xbad" := unaudited_jam ]}) as [_ H].
  destruct (H unaudited_jam) as (_ & _ & _ & Hm & _).
  - reflexivity.
  - apply Hm. reflexivity.
Defined.

(** C6, as stated, fails: an update that names [meta] replaces the stored
    [meta]. *)
Lemma update_overwrites_meta :
  let jams : gmap string Jam := {[ "0xbad" := unaudited_jam ]} in
  let updates := mkPatch None (Some None) None None None None in
  exists existing updated,
    Index.JAMStore.retrieve "0xbad" jams = Some existing
    /\ Index.JAMStore.retrieve "0xbad"
         (snd (Index.JAMStore.update "0xbad" updates jams))
       = Some updated
    /\ meta updated <> meta existing
    /\ audited (Some existing) = false.
Proof.
  eexists _, _. split; [reflexivity|]. split; [reflexivity|].
  split; [discriminate | reflexivity].
Qed.

(** ** The gist updater *)

Section GistFacts.
Import Gist.





End GistFacts.



(** ** JSON text: what is written is read back *)

Section JsonFacts.
Import Json.
Open Scope string_scope.

Lemma append_nil (b : string) : ("" ++ b = b)%string.
Proof. reflexivity. Qed.

Lemma append_cons (c : ascii) (a b : string) :
  (String c a ++ b = String c (a ++ b))%string.
Proof. reflexivity. Qed.

Lemma append_assoc (a b c : string) : ((a ++ b) ++ c = a ++ (b ++ c))%string.
Proof.
  induction a as [|x a IH]; [reflexivity|].
  rewrite !append_cons. now rewrite IH.
Qed.

Lemma length_append (a b : string) :
  String.length (a ++ b) = (String.length a + String.length b)%nat.
Proof.
  induction a as [|x a IH]; [reflexivity|].
  rewrite append_cons. simpl. now rewrite IH.
Qed.

Lemma skip_ws_spaces (n : nat) (s : string) :
  skip_ws (spaces n ++ s) = skip_ws s.
Proof.
  induction n as [|n IH]; [reflexivity|].
  simpl spaces. rewrite append_cons. simpl. exact IH.
Qed.

Lemma skip_ws_newline (n : nat) (s : string) :
  skip_ws (newline ++ spaces n ++ s) = skip_ws s.
Proof.
  unfold newline. rewrite append_cons, append_nil. simpl.
  apply skip_ws_spaces.
Qed.

Lemma skip_ws_head (c : ascii) (s : string) :
  is_ws c = false -> skip_ws (String c s) = String c s.
Proof. intros H. simpl. now rewrite H. Qed.

(** One quoted code unit is read back as the unit itself. *)
Lemma read_string_quote_char (c : ascii) (fuel : nat) (tail : string) :
  read_string (S fuel) (quote_char c ++ tail)
  = match read_string fuel tail with
    | Some (body, after) => Some (String c body, after)
    | None => None
    end.
Proof.
  destruct c as [[|] [|] [|] [|] [|] [|] [|] [|]]; reflexivity.
Qed.

Lemma read_string_quote_body (s rest : string) (fuel : nat) :
  (String.length s < fuel)%nat ->
  read_string fuel (quote_body s ++ String "034" rest) = Some (s, rest).
Proof.
  revert fuel. induction s as [|c s IH]; intros fuel Hfuel.
  - destruct fuel; [simpl in Hfuel; lia|]. reflexivity.
  - destruct fuel; [simpl in Hfuel; lia|].
    simpl quote_body. rewrite append_assoc, read_string_quote_char.
    rewrite IH by (simpl in Hfuel; lia). reflexivity.
Qed.

Lemma length_quote_char (c : ascii) : (1 <= String.length (quote_char c))%nat.
Proof.
  destruct c as [[|] [|] [|] [|] [|] [|] [|] [|]]; vm_compute; lia.
Qed.

Lemma length_quote_body (s : string) :
  (String.length s <= String.length (quote_body s))%nat.
Proof.
  induction s as [|c s IH]; simpl; [lia|].
  rewrite length_append. pose proof (length_quote_char c). lia.
Qed.

(** A quoted string is read back, with enough fuel for all that follows. *)
Lemma read_string_quote (s rest : string) :
  read_string (S (String.length (quote_body s ++ String "034" rest)))
    (quote_body s ++ String "034" rest)
  = Some (s, rest).
Proof.
  apply read_string_quote_body.
  rewrite length_append. pose proof (length_quote_body s). simpl. lia.
Qed.

(** *** Integers *)

Lemma number_end_take_digits (rest : string) :
  number_end rest = true -> take_digits rest = (EmptyString, rest).
Proof.
  destruct rest as [|c rest]; [reflexivity|]. simpl. intros H.
  destruct (is_digit c); [discriminate|reflexivity].
Qed.

Lemma number_end_fraction (rest : string) :
  number_end rest = true -> fraction_follows rest = false.
Proof.
  destruct rest as [|c rest]; [reflexivity|]. simpl. intros H.
  destruct (is_digit c); [discriminate|]. simpl in H.
  now apply negb_true_iff in H.
Qed.

Lemma take_digits_uint (d : Decimal.uint) (rest : string) :
  number_end rest = true ->
  take_digits (DecimalString.NilEmpty.string_of_uint d ++ rest)
  = (DecimalString.NilEmpty.string_of_uint d, rest).
Proof.
  intros H. induction d as [|d IH|d IH|d IH|d IH|d IH|d IH|d IH|d IH|d IH|d IH];
    simpl DecimalString.NilEmpty.string_of_uint;
    [now apply number_end_take_digits|..];
    rewrite append_cons; simpl; rewrite IH; reflexivity.
Qed.

Lemma nzhead_head (d d' : Decimal.uint) : Decimal.nzhead d <> Decimal.D0 d'.
Proof. induction d; simpl; congruence. Qed.

(** The decimal digits of a positive number do not start with a zero. *)
Lemma to_uint_head (p : positive) (d' : Decimal.uint) :
  Pos.to_uint p <> Decimal.D0 d'.
Proof.
  intros E. pose proof (DecimalPos.Unsigned.to_of (Pos.to_uint p)) as H.
  rewrite DecimalPos.Unsigned.of_to in H. simpl in H.
  rewrite E in H. unfold Decimal.unorm in H. simpl in H.
  destruct (Decimal.nzhead d') eqn:E'; try discriminate H.
  - injection H as ->. now apply (DecimalPos.Unsigned.to_uint_nonzero p).
  - now apply nzhead_head in E'.
Qed.

Lemma read_number_digits (sign : bool) (c : ascii) (more rest : string) :
  is_digit c = true ->
  take_digits (String c more ++ rest) = (String c more, rest) ->
  Ascii.eqb c "0" && negb (String.eqb more "") = false ->
  number_end rest = true ->
  read_number ((if sign then String "-" "" else "") ++ String c more ++ rest)
  = match DecimalString.NilZero.int_of_string
            ((if sign then String "-" "" else "") ++ String c more) with
    | Some i => Some (Z.of_int i, rest)
    | None => None
    end.
Proof.
  intros Hc Htake Hzero Hend. unfold read_number.
  assert (Ascii.eqb c "-" = false) as Hminus.
  { destruct c as [[|] [|] [|] [|] [|] [|] [|] [|]];
      try reflexivity; discriminate Hc. }
  destruct sign.
  - change (String "-" "" ++ String c more ++ rest)%string
      with (String "-" (String c more ++ rest)).
    cbv beta iota. rewrite Ascii.eqb_refl, Htake, Hzero.
    rewrite (number_end_fraction _ Hend). reflexivity.
  - change ("" ++ String c more ++ rest)%string
      with (String c (more ++ rest)).
    cbv beta iota. rewrite Hminus.
    change (String c (more ++ rest)) with (String c more ++ rest)%string.
    rewrite Htake, Hzero.
    rewrite (number_end_fraction _ Hend). reflexivity.
Qed.

Lemma uint_head (d : Decimal.uint) :
  d <> Decimal.Nil -> (forall d', d <> Decimal.D0 d') ->
  exists c more,
    DecimalString.NilEmpty.string_of_uint d = String c more
    /\ is_digit c = true /\ Ascii.eqb c "0" = false.
Proof.
  intros Hnil Hzero.
  destruct d as [|d|d|d|d|d|d|d|d|d|d]; [congruence|exfalso; now apply (Hzero d)|..];
    simpl; eexists _, _; (split; [reflexivity|split; reflexivity]).
Qed.

(** An integer is read back from its decimal text, when what follows the
    text cannot be taken for more of the number. *)
Lemma read_number_show_Z (n : Z) (rest : string) :
  number_end rest = true ->
  read_number (show_Z n ++ rest) = Some (n, rest).
Proof.
  intros Hend.
  assert (DecimalString.NilZero.int_of_string (show_Z n)
          = Some (Z.to_int n)) as Hread.
  { unfold show_Z. apply DecimalString.NilZero.isi.
    - destruct n as [|p|p]; simpl; try congruence.
      intros [= E]. now apply DecimalPos.Unsigned.to_uint_nonnil in E.
    - destruct n as [|p|p]; simpl; try congruence.
      intros [= E]. now apply DecimalPos.Unsigned.to_uint_nonnil in E. }
  destruct n as [|p|p].
  - change (show_Z 0) with ("" ++ String "0" "")%string.
    rewrite append_assoc.
    rewrite (read_number_digits false "0" "" rest); trivial.
    change (String "0" "" ++ rest)%string with (String "0" rest).
    simpl. now rewrite (number_end_take_digits _ Hend).
  - destruct (uint_head (Pos.to_uint p)) as (c & more & E & Hc & Hz).
    { apply DecimalPos.Unsigned.to_uint_nonnil. }
    { apply to_uint_head. }
    assert (show_Z (Z.pos p) = ("" ++ String c more)%string) as Eshow.
    { unfold show_Z. simpl.
      unfold DecimalString.NilZero.string_of_uint.
      rewrite <- E. pose proof (DecimalPos.Unsigned.to_uint_nonnil p).
      now destruct (Pos.to_uint p). }
    rewrite Eshow in Hread |- *. rewrite append_assoc.
    rewrite (read_number_digits false c more rest); trivial.
    + rewrite Hread. now rewrite DecimalZ.of_to.
    + rewrite <- E. now apply take_digits_uint.
    + now rewrite Hz.
  - destruct (uint_head (Pos.to_uint p)) as (c & more & E & Hc & Hz).
    { apply DecimalPos.Unsigned.to_uint_nonnil. }
    { apply to_uint_head. }
    assert (show_Z (Z.neg p) = (String "-" "" ++ String c more)%string)
      as Eshow.
    { unfold show_Z. simpl.
      unfold DecimalString.NilZero.string_of_uint.
      rewrite <- E. pose proof (DecimalPos.Unsigned.to_uint_nonnil p).
      now destruct (Pos.to_uint p). }
    rewrite Eshow in Hread |- *. rewrite append_assoc.
    rewrite (read_number_digits true c more rest); trivial.
    + rewrite Hread. now rewrite DecimalZ.of_to.
    + rewrite <- E. now apply take_digits_uint.
    + now rewrite Hz.
Qed.

(** *** Values *)

Lemma skip_ws_idem (s : string) : skip_ws (skip_ws s) = skip_ws s.
Proof.
  induction s as [|c s IH]; [reflexivity|]. simpl.
  destruct (is_ws c) eqn:E; [exact IH|]. simpl. now rewrite E.
Qed.

(** Reading a value starts after the white space. *)
Lemma read_value_skip_ws (fuel : nat) (s : string) :
  read_value fuel (skip_ws s) = read_value fuel s.
Proof.
  destruct fuel; [reflexivity|]. simpl. now rewrite skip_ws_idem.
Qed.

Lemma read_value_newline (fuel n : nat) (s : string) :
  read_value fuel (newline ++ spaces n ++ s) = read_value fuel s.
Proof.
  rewrite <- read_value_skip_ws, skip_ws_newline.
  apply read_value_skip_ws.
Qed.

Lemma read_value_space (fuel : nat) (s : string) :
  read_value fuel (String " " s) = read_value fuel s.
Proof.
  rewrite <- read_value_skip_ws. simpl skip_ws.
  apply read_value_skip_ws.
Qed.

Lemma read_members_skip_ws (fuel : nat) (s : string) :
  read_members fuel (skip_ws s) = read_members fuel s.
Proof.
  destruct fuel; [reflexivity|]. simpl. now rewrite skip_ws_idem.
Qed.

Lemma read_members_newline (fuel n : nat) (s : string) :
  read_members fuel (newline ++ spaces n ++ s) = read_members fuel s.
Proof.
  rewrite <- read_members_skip_ws, skip_ws_newline.
  apply read_members_skip_ws.
Qed.

Lemma digit_head (c : ascii) : is_digit c = true -> value_head c = true.
Proof.
  destruct c as [[|] [|] [|] [|] [|] [|] [|] [|]];
    intros H; try reflexivity; discriminate H.
Qed.

Lemma show_Z_head (n : Z) :
  exists c more,
    show_Z n = String c more /\ (is_digit c = true \/ c = "-"%char).
Proof.
  destruct n as [|p|p].
  - exists "0"%char, "". split; [reflexivity|now left].
  - destruct (uint_head (Pos.to_uint p)) as (c & more & E & Hc & _).
    { apply DecimalPos.Unsigned.to_uint_nonnil. }
    { apply to_uint_head. }
    exists c, more. split; [|now left].
    unfold show_Z. simpl. unfold DecimalString.NilZero.string_of_uint.
    rewrite <- E. pose proof (DecimalPos.Unsigned.to_uint_nonnil p).
    now destruct (Pos.to_uint p).
  - eexists _, _. split; [reflexivity|now right].
Qed.

Lemma stringify_head (depth : nat) (v : json) :
  exists c s, stringify_at depth v = String c s /\ value_head c = true.
Proof.
  destruct v as [|[|]|n|s|[|x xs]|[|[k x] xs]];
    try (eexists _, _; split; reflexivity).
  destruct (show_Z_head n) as (c & more & E & [H| ->]).
  - exists c, more. split; [exact E|now apply digit_head].
  - exists "-"%char, more. split; [exact E|reflexivity].
Qed.

Lemma read_value_number (fuel : nat) (c : ascii) (s : string) :
  is_digit c = true \/ c = "-"%char ->
  read_value (S fuel) (String c s)
  = match read_number (String c s) with
    | Some (n, after) => Some (JNumber n, after)
    | None => None
    end.
Proof.
  destruct c as [[|] [|] [|] [|] [|] [|] [|] [|]];
    intros [H|H]; try discriminate H; reflexivity.
Qed.

Lemma read_value_array (fuel : nat) (text : string) (c : ascii) (s : string) :
  skip_ws text = String c s -> value_head c = true ->
  read_value (S fuel) (String "[" text)
  = match read_items fuel text with
    | Some (items, after) => Some (JArray items, after)
    | None => None
    end.
Proof.
  intros E H. simpl. rewrite E.
  destruct c as [[|] [|] [|] [|] [|] [|] [|] [|]];
    try reflexivity; discriminate H.
Qed.

Lemma read_value_object (fuel : nat) (text : string) (c : ascii) (s : string) :
  skip_ws text = String c s -> value_head c = true ->
  read_value (S fuel) (String "{" text)
  = match read_members fuel text with
    | Some (members, after) => Some (JObject members, after)
    | None => None
    end.
Proof.
  intros E H. simpl. rewrite E.
  destruct c as [[|] [|] [|] [|] [|] [|] [|] [|]];
    try reflexivity; discriminate H.
Qed.

Lemma read_value_string (fuel : nat) (body : string) :
  read_value (S fuel) (String "034" body)
  = match read_string (S (String.length body)) body with
    | Some (s, after) => Some (JString s, after)
    | None => None
    end.
Proof. reflexivity. Qed.

Lemma read_items_eq (fuel : nat) (s : string) :
  read_items (S fuel) s
  = match read_value fuel s with
    | Some (item, after) =>
        match skip_ws after with
        | String "," more =>
            match read_items fuel more with
            | Some (items, rest) => Some (item :: items, rest)
            | None => None
            end
        | String "]" rest => Some ([item], rest)
        | _ => None
        end
    | None => None
    end.
Proof. reflexivity. Qed.

Lemma read_members_eq (fuel : nat) (body : string) :
  read_members (S fuel) (String "034" body)
  = match read_string (S (String.length body)) body with
    | Some (key, after) =>
        match skip_ws after with
        | String ":" more =>
            match read_value fuel more with
            | Some (item, after') =>
                match skip_ws after' with
                | String "," more' =>
                    match read_members fuel more' with
                    | Some (members, rest) =>
                        Some ((key, item) :: members, rest)
                    | None => None
                    end
                | String "}" rest => Some ([(key, item)], rest)
                | _ => None
                end
            | None => None
            end
        | _ => None
        end
    | None => None
    end.
Proof. reflexivity. Qed.

Lemma append_nil_r (s : string) : (s ++ "")%string = s.
Proof.
  induction s as [|c s IH]; [reflexivity|]. rewrite append_cons.
  now rewrite IH.
Qed.

Lemma join_cons (sep part next : string) (others : list string) :
  join sep (part :: next :: others)
  = (part ++ sep ++ join sep (next :: others))%string.
Proof. reflexivity. Qed.

Ltac flatten :=
  repeat (rewrite append_assoc || rewrite append_cons || rewrite append_nil).

Lemma read_items_join (depth k k' : nat) (rest : string)
    (x : json) (xs : list json) (fuel : nat) :
  Forall reads_back (x :: xs) ->
  (list_sum (map (fun x => S (size x)) (x :: xs)) <= fuel)%nat ->
  read_items fuel
    (newline ++ spaces k
     ++ join (String "," (newline ++ spaces k))
          (map (stringify_at depth) (x :: xs))
     ++ newline ++ spaces k' ++ String "]" rest)
  = Some (x :: xs, rest).
Proof.
  revert x fuel. induction xs as [|y ys IH]; intros x fuel Hall Hfuel;
    (destruct fuel as [|fuel]; [simpl in Hfuel; lia|]);
    inversion Hall as [|? ? Hx Hxs]; subst;
    rewrite read_items_eq, read_value_newline.
  - change (join _ (map (stringify_at depth) [x]))
      with (stringify_at depth x).
    rewrite Hx; [|reflexivity|simpl in Hfuel; lia].
    rewrite skip_ws_newline. reflexivity.
  - change (map (stringify_at depth) (x :: y :: ys))
      with (stringify_at depth x :: stringify_at depth y
            :: map (stringify_at depth) ys).
    rewrite join_cons. flatten.
    rewrite Hx; [|reflexivity|simpl in Hfuel; lia].
    rewrite (skip_ws_head "," _ eq_refl). cbv beta iota.
    change (stringify_at depth y :: map (stringify_at depth) ys)
      with (map (stringify_at depth) (y :: ys)).
    rewrite IH; [reflexivity|exact Hxs|simpl in Hfuel |- *; lia].
Qed.

Lemma read_members_join (depth k k' : nat) (rest : string)
    (m : string * json) (ms : list (string * json)) (fuel : nat) :
  Forall (fun member => reads_back (snd member)) (m :: ms) ->
  (list_sum (map (fun member : string * json => S (size (snd member)))
               (m :: ms)) <= fuel)%nat ->
  read_members fuel
    (newline ++ spaces k
     ++ join (String "," (newline ++ spaces k))
          (map (member_text depth) (m :: ms))
     ++ newline ++ spaces k' ++ String "}" rest)
  = Some (m :: ms, rest).
Proof.
  revert m fuel. induction ms as [|m' ms IH]; intros [key item] fuel Hall Hfuel;
    (destruct fuel as [|fuel]; [simpl in Hfuel; lia|]);
    inversion Hall as [|? ? Hx Hxs]; subst; simpl in Hx;
    rewrite read_members_newline.
  - change (join _ (map (member_text depth) [(key, item)]))
      with (quote key ++ ": " ++ stringify_at depth item)%string.
    unfold quote. flatten.
    rewrite read_members_eq, read_string_quote.
    rewrite (skip_ws_head ":" _ eq_refl). cbv beta iota.
    rewrite read_value_space.
    rewrite Hx; [|reflexivity|simpl in Hfuel; lia].
    rewrite skip_ws_newline. reflexivity.
  - change (map (member_text depth) ((key, item) :: m' :: ms))
      with ((quote key ++ ": " ++ stringify_at depth item)%string
            :: member_text depth m' :: map (member_text depth) ms).
    rewrite join_cons. unfold quote. flatten.
    rewrite read_members_eq, read_string_quote.
    rewrite (skip_ws_head ":" _ eq_refl). cbv beta iota.
    rewrite read_value_space.
    rewrite Hx; [|reflexivity|simpl in Hfuel; lia].
    rewrite (skip_ws_head "," _ eq_refl). cbv beta iota.
    change (member_text depth m' :: map (member_text depth) ms)
      with (map (member_text depth) (m' :: ms)).
    rewrite IH; [reflexivity|exact Hxs|simpl in Hfuel |- *; lia].
Qed.

Lemma bracket_app (opening closing : ascii) (depth : nat)
    (part : string) (parts : list string) (rest : string) :
  (bracket (String opening "") (String closing "") depth (part :: parts)
   ++ rest)%string
  = String opening
      (newline ++ spaces (2 * S depth)
       ++ join (String "," (newline ++ spaces (2 * S depth))) (part :: parts)
       ++ newline ++ spaces (2 * depth) ++ String closing rest).
Proof. unfold bracket. flatten. reflexivity. Qed.

Lemma join_head (sep : string) (c : ascii) (s : string)
    (parts : list string) :
  exists s', join sep (String c s :: parts) = String c s'.
Proof.
  destruct parts as [|next parts]; [now exists s|].
  rewrite join_cons, append_cons. now eexists.
Qed.

(** Every value is read back from its text. *)
Lemma read_value_stringify (v : json) : reads_back v.
Proof.
  induction v as [|b|n|s|items IH|members IH] using json_nested_ind;
    intros depth rest fuel Hend Hfuel;
    (destruct fuel as [|fuel]; [simpl in Hfuel; lia|]).
  - reflexivity.
  - now destruct b.
  - destruct (show_Z_head n) as (c & more & E & H).
    simpl stringify_at. rewrite E, append_cons, read_value_number by exact H.
    rewrite <- append_cons, <- E, read_number_show_Z by exact Hend.
    reflexivity.
  - simpl stringify_at. unfold quote. flatten.
    rewrite read_value_string, read_string_quote. reflexivity.
  - destruct items as [|x xs]; [reflexivity|].
    change (stringify_at depth (JArray (x :: xs)))
      with (bracket (String "[" "") (String "]" "") depth
              (map (stringify_at (S depth)) (x :: xs))).
    change (map (stringify_at (S depth)) (x :: xs))
      with (stringify_at (S depth) x :: map (stringify_at (S depth)) xs).
    rewrite bracket_app.
    destruct (stringify_head (S depth) x) as (c & s & E & Hc).
    destruct (join_head (String "," (newline ++ spaces (2 * S depth))) c s
                (map (stringify_at (S depth)) xs)) as [s' E'].
    rewrite (read_value_array fuel _ c
               (s' ++ newline ++ spaces (2 * depth) ++ String "]" rest));
      [|rewrite skip_ws_newline, E, E', append_cons; apply skip_ws_head;
        unfold value_head in Hc; now destruct (is_ws c)|exact Hc].
    change (stringify_at (S depth) x :: map (stringify_at (S depth)) xs)
      with (map (stringify_at (S depth)) (x :: xs)).
    rewrite read_items_join; [reflexivity|exact IH|].
    change (size (JArray (x :: xs)))
      with (S (list_sum (map (fun x => S (size x)) (x :: xs)))) in Hfuel.
    lia.
  - destruct members as [|[key x] xs]; [reflexivity|].
    change (stringify_at depth (JObject ((key, x) :: xs)))
      with (bracket (String "{" "") (String "}" "") depth
              (map (member_text (S depth)) ((key, x) :: xs))).
    change (map (member_text (S depth)) ((key, x) :: xs))
      with (String "034" ((quote_body key ++ String "034" "")
                           ++ ": " ++ stringify_at (S depth) x)
            :: map (member_text (S depth)) xs).
    rewrite bracket_app.
    destruct (join_head (String "," (newline ++ spaces (2 * S depth)))
                "034" ((quote_body key ++ String "034" "")
                       ++ ": " ++ stringify_at (S depth) x)
                (map (member_text (S depth)) xs)) as [s' E'].
    rewrite (read_value_object fuel _ "034"
               (s' ++ newline ++ spaces (2 * depth) ++ String "}" rest));
      [|rewrite skip_ws_newline, E', append_cons; reflexivity|reflexivity].
    change (String "034" ((quote_body key ++ String "034" "")
                           ++ ": " ++ stringify_at (S depth) x)
            :: map (member_text (S depth)) xs)
      with (map (member_text (S depth)) ((key, x) :: xs)).
    rewrite read_members_join; [reflexivity|exact IH|].
    change (size (JObject ((key, x) :: xs)))
      with (S (list_sum (map (fun member : string * json =>
                                S (size (snd member))) ((key, x) :: xs))))
      in Hfuel.
    lia.
Qed.

(** *** Fuel *)

Lemma length_join (sep : string) (parts : list string) :
  (1 <= String.length sep)%nat ->
  (list_sum (map (fun part => S (String.length part)) parts)
   <= S (String.length (join sep parts)))%nat.
Proof.
  intros Hsep. induction parts as [|part [|next parts] IH].
  - simpl. lia.
  - simpl. lia.
  - rewrite join_cons, !length_append.
    change (list_sum (map (fun part => S (String.length part))
                        (part :: next :: parts)))
      with (S (String.length part)
            + list_sum (map (fun part => S (String.length part))
                          (next :: parts)))%nat.
    lia.
Qed.

Lemma length_bracket (opening closing : ascii) (depth : nat)
    (parts : list string) :
  (list_sum (map (fun part => S (String.length part)) parts)
   < String.length
       (bracket (String opening "") (String closing "") depth parts))%nat.
Proof.
  destruct parts as [|part parts]; [simpl; lia|].
  pose proof (length_join (String "," (newline ++ spaces (2 * S depth)))
                (part :: parts)) as H.
  rewrite <- (append_nil_r (bracket _ _ _ _)), bracket_app.
  simpl String.length in H |- *. rewrite !length_append.
  simpl String.length. lia.
Qed.

Lemma list_sum_le {A : Type} (f g : A -> nat) (l : list A) :
  Forall (fun x => f x <= g x)%nat l ->
  (list_sum (map f l) <= list_sum (map g l))%nat.
Proof.
  induction 1 as [|x l Hx _ IH]; simpl; lia.
Qed.

(** The text of a value has at least as many characters as the value has
    nodes, so the length of a text is fuel enough to read it. *)
Lemma size_le_length (v : json) :
  forall depth, (size v <= String.length (stringify_at depth v))%nat.
Proof.
  induction v as [|b|n|s|items IH|members IH] using json_nested_ind;
    intros depth.
  - simpl. lia.
  - destruct b; simpl; lia.
  - destruct (show_Z_head n) as (c & more & E & _).
    simpl stringify_at. rewrite E. simpl. lia.
  - simpl. lia.
  - change (stringify_at depth (JArray items))
      with (bracket (String "[" "") (String "]" "") depth
              (map (stringify_at (S depth)) items)).
    pose proof (length_bracket "[" "]" depth
                  (map (stringify_at (S depth)) items)) as H.
    rewrite map_map in H.
    change (size (JArray items))
      with (S (list_sum (map (fun x => S (size x)) items))).
    enough (list_sum (map (fun x => S (size x)) items)
            <= list_sum (map (fun x =>
                 S (String.length (stringify_at (S depth) x))) items))%nat
      by lia.
    apply list_sum_le. eapply Forall_impl; [exact IH|].
    intros x Hx. simpl. specialize (Hx (S depth)). lia.
  - change (stringify_at depth (JObject members))
      with (bracket (String "{" "") (String "}" "") depth
              (map (member_text (S depth)) members)).
    pose proof (length_bracket "{" "}" depth
                  (map (member_text (S depth)) members)) as H.
    rewrite map_map in H.
    change (size (JObject members))
      with (S (list_sum (map (fun member : string * json =>
                                S (size (snd member))) members))).
    enough (list_sum (map (fun member : string * json =>
                            S (size (snd member))) members)
            <= list_sum (map (fun member =>
                 S (String.length (member_text (S depth) member)))
                 members))%nat
      by lia.
    apply list_sum_le. eapply Forall_impl; [exact IH|].
    intros [key x] Hx. simpl in Hx |- *. specialize (Hx (S depth)).
    rewrite !length_append. lia.
Qed.

(** [JSON.parse] gives back every value [JSON.stringify] was given. *)
Lemma parse_stringify (v : json) : parse (stringify v) = Some v.
Proof.
  unfold parse, stringify.
  pose proof (read_value_stringify v 0%nat ""
                (S (String.length (stringify_at 0%nat v))) eq_refl) as H.
  rewrite append_nil_r in H. rewrite H; [reflexivity|].
  pose proof (size_le_length v 0%nat). lia.
Qed.
End JsonFacts.

(** ** JAMStore on disk *)

Section StoreOnDisk.
Context {Value : Type}.
Variable JSON_stringify : Value -> string.
Variable JSON_parse : string -> option Value.
Variable path_join : string -> string -> string.
Variable merge : Value -> Value -> Value.
Variable storePath : string.

Abbreviation store := (JamFiles.store Value JSON_stringify path_join storePath).
Abbreviation retrieve := (JamFiles.retrieve Value JSON_parse path_join storePath).
Abbreviation holds := (JamFiles.holds Value JSON_parse path_join storePath).

(** What [retrieve] finds right after [store], whatever the value. *)
Lemma retrieve_store hash jamData fs :
  retrieve hash (store hash jamData fs)
  = match JSON_parse (JSON_stringify jamData) with
    | Some value => JamFiles.Parsed value
    | None => JamFiles.SyntaxError
    end.
Proof.
  unfold JamFiles.retrieve, JamFiles.store. now rewrite lookup_insert_eq.
Qed.


(** The store seen by its readers, [Index.JAMStore], is what the files
    hold: a [store] on disk is an insertion in the map of records, as
    long as distinct hashes name distinct files. *)
Lemma store_holds hash jamData fs (jams : gmap string Value) :
  Inj (=) (=) (JamFiles.filePath path_join storePath) ->
  JSON_parse (JSON_stringify jamData) = Some jamData ->
  holds fs jams ->
  holds (store hash jamData fs) (<[hash := jamData]> jams).
Proof.
  intros Hinj Hround Hfs other.
  destruct (decide (other = hash)) as [->|Hne].
  - rewrite lookup_insert_eq. rewrite retrieve_store. now rewrite Hround.
  - rewrite lookup_insert_ne by congruence. rewrite <- (Hfs other).
    unfold JamFiles.retrieve, JamFiles.store.
    rewrite lookup_insert_ne; [reflexivity|].
    intros E. apply Hinj in E. congruence.
Qed.
End StoreOnDisk.

(** With the JSON text of [Json], every value is carried faithfully: from
    any state of the directory, [retrieve] right after [store] returns
    the value stored. *)
Lemma retrieve_store_json storePath hash (jamData : Json.json) fs :
  JamFiles.retrieve Json.json Json.parse Json.path_join storePath hash
    (JamFiles.store Json.json Json.stringify Json.path_join storePath hash
       jamData fs)
  = JamFiles.Parsed jamData.
Proof. rewrite retrieve_store. now rewrite parse_stringify. Qed.


(** ** The theorems at work: two cycles from the initial state *)

Lemma busy_flag_stays_set_witness :
  let s' :=
    Index.detectAndEmit (fun _ => "0xjam") failing_env (Index.initial_state ∅) in
  Index.isEmitting s' = true
  /\ Index.cycles (fun _ => "0xjam") [aligned_env; evening_env] s' = s'.
Proof.
  destruct (busy_flag_stays_set (fun _ => "0xjam") failing_env
              (Index.initial_state ∅)
              (snd (Index.analyzeAndGenerateJam (fun _ => "0xjam") failing_env
                      (Index.set_isEmitting (Index.initial_state ∅) true))))
    as (Hflag & _ & _ & _ & Hrun).
  - reflexivity.
  - reflexivity.
  - reflexivity.
  - split; [exact Hflag | apply Hrun].
Defined.

Lemma lineage_increments_by_one_witness :
  let s1 :=
    Index.detectAndEmit (fun _ => "0xjam") aligned_env (Index.initial_state ∅) in
  let s2 := Index.detectAndEmit (fun _ => "0xjam") evening_env s1 in
  exists parent child counter,
    Index.latest_record s1 = Some parent
    /\ Index.latest_record s2 = Some child
    /\ cascadeDepth child = (cascadeDepth parent + 1)%Z
    /\ Index.own_clock parent = Some counter
    /\ Index.own_clock child = Some (counter + 1)%Z.
Proof.
  destruct (lineage_increments_by_one (fun _ => "0xjam")) as (_ & Hpair & _).
  - intros jam. discriminate.
  - destruct (Hpair aligned_env evening_env (Index.initial_state ∅))
      as (parent & child & child_meta & counter & H1 & H2 & _ & _ & Hd & Hc1 & Hc2).
    + reflexivity.
    + reflexivity.
    + exists parent, child, counter. auto.
Defined.

Lemma submission_follows_parent_witness :
  let s :=
    Index.detectAndEmit (fun _ => "0xjam") aligned_env (Index.initial_state ∅) in
  let s' := Index.detectAndEmit (fun _ => "0xjam") evening_env s in
  Index.calls s = [Index.emitSignal "0xjam"]
  /\ (Index.calls s' = Index.calls s
      \/ exists jam jam_meta,
           Index.JAMStore.retrieve "0xjam" (Index.jams s') = Some jam
           /\ meta jam = Some jam_meta
           /\ parentJam jam_meta = Index.lastHash s
           /\ (Index.calls s'
               = Index.calls s ++ [Index.emitRecursiveSignal "0xjam" "0xjam"]
               \/ Index.calls s'
                  = Index.calls s ++ [Index.emitRecursiveSignal "0xjam" "0xjam";
                                      Index.bridgeToBSV "0xjam"])).
Proof.
  split; [reflexivity|].
  apply (submission_follows_parent (fun _ => "0xjam") evening_env
           (Index.detectAndEmit (fun _ => "0xjam") aligned_env
              (Index.initial_state ∅))).
  - intros jam. split; discriminate.
  - apply Index.reachable_cycle, Index.reachable_start.
Defined.

(** * Further properties *)

(** ** The Strategist's counters *)

Section StrategistLedger.
Variable keccak256 : Jam -> string.

Lemma pattern_of_key_pattern_key (p : Index.PatternId) :
  Index.pattern_of_key (Index.pattern_key p) = Some p.
Proof. now destruct p. Qed.

(** The metrics [generateJam] leaves, and the pattern its record names. *)
Lemma generateJam_metrics env s analysis r m :
  Index.generateJam keccak256 env s analysis = (r, m) ->
  match r with
  | Some (jam, _) =>
      exists selected,
        m = Index.bump_attempts (Index.audit_passed (Index.metrics s))
              selected (Index.t_build env)
        /\ (pattern_type <$> meta jam) ≫= Index.pattern_of_key = Some selected
  | None =>
      m = Index.audit_failed (Index.metrics s) (Index.a_reason analysis)
      \/ m = Index.metrics s
  end.
Proof.
  unfold Index.generateJam.
  destruct (Index.a_audit_pass analysis); simpl.
  - destruct (Index.a_bait_hooks analysis) as [hooks|].
    + intros [= <- <-]. eexists. split; [reflexivity|].
      simpl. apply pattern_of_key_pattern_key.
    + intros [= <- <-]. now right.
  - intros [= <- <-]. now left.
Qed.

Ltac ledger :=
  unfold counters_agree, total_attempts, total_successes in *;
  simpl in *;
  repeat match goal with
         | H : _ /\ _ |- _ => destruct H
         end.

Lemma counters_agree_analysis left k env s m0 r m p0 :
  counters_agree 0 p0 m0 ->
  Index.analyzeAndGenerateJam_from keccak256 left k env s m0 = (r, m) ->
  match r with
  | Some (jam, _) =>
      exists selected,
        counters_agree 1 selected m
        /\ (pattern_type <$> meta jam) ≫= Index.pattern_of_key = Some selected
  | None => counters_agree 0 p0 m
  end.
Proof.
  revert k m0. induction left as [|left IH]; intros k m0 H0; simpl;
    destruct (Index.analyze env k) as [|analysis].
  - intros [= <- <-]. destruct m0. ledger.
    repeat split; try assumption; lia.
  - intros Hg. apply generateJam_metrics in Hg. destruct r as [[jam hash]|].
    + destruct Hg as (selected & -> & Hp). exists selected. split; [|exact Hp].
      destruct m0 as [t a f es ef l ps]. ledger.
      match goal with H : forall p, _ |- _ => rename H into Hall end.
      pose proof (Hall Index.CLASSIC_ARBITRAGE).
      pose proof (Hall Index.STABLE_ROTATION).
      pose proof (Hall Index.YIELD_CAPTURE).
      pose proof (Hall Index.LIQUIDITY_PROBE).
      repeat split; try (destruct selected; simpl; lia).
      intros p. specialize (Hall p).
      destruct (decide (p = selected)); simpl; lia.
    + destruct m0 as [t a f es ef l ps].
      destruct Hg as [-> | ->]; ledger; repeat split; try assumption; lia.
  - apply IH. destruct m0. ledger. repeat split; try assumption; lia.
  - intros Hg. apply generateJam_metrics in Hg. destruct r as [[jam hash]|].
    + destruct Hg as (selected & -> & Hp). exists selected. split; [|exact Hp].
      destruct m0 as [t a f es ef l ps]. ledger.
      match goal with H : forall p, _ |- _ => rename H into Hall end.
      pose proof (Hall Index.CLASSIC_ARBITRAGE).
      pose proof (Hall Index.STABLE_ROTATION).
      pose proof (Hall Index.YIELD_CAPTURE).
      pose proof (Hall Index.LIQUIDITY_PROBE).
      repeat split; try (destruct selected; simpl; lia).
      intros p. specialize (Hall p).
      destruct (decide (p = selected)); simpl; lia.
    + destruct m0 as [t a f es ef l ps].
      destruct Hg as [-> | ->]; ledger; repeat split; try assumption; lia.
Qed.

(** The metrics the emit half of a cycle leaves: the failure is counted,
    or the success is, or both are (inclusion followed by a failed
    echo). *)
Lemma emit_metrics env s jam hash :
  let m := Index.metrics s in
  let won :=
    match (pattern_type <$> meta jam) ≫= Index.pattern_of_key with
    | Some p => Index.bump_successes (Index.emission_succeeded m) p
    | None => Index.emission_succeeded m
    end in
  Index.metrics (Index.emit env s jam hash) = Index.emission_failed m
  \/ Index.metrics (Index.emit env s jam hash) = won
  \/ Index.metrics (Index.emit env s jam hash) = Index.emission_failed won.
Proof.
  unfold Index.emit.
  destruct (Index.write_ok env); simpl; [|now left].
  destruct (Index.fee_ok env); simpl; [|now left].
  destruct (Index.tx_outcome env); simpl; try now left.
  destruct (Index.bsv_echo env) as [[|]|]; simpl; auto.
Qed.

Lemma counters_agree_emit env s jam hash selected :
  counters_agree 1 selected (Index.metrics s) ->
  (pattern_type <$> meta jam) ≫= Index.pattern_of_key = Some selected ->
  counters_agree 0 selected (Index.metrics (Index.emit env s jam hash)).
Proof.
  intros H Hp.
  destruct (emit_metrics env s jam hash) as [E|[E|E]];
    rewrite E, ?Hp; clear E Hp;
    destruct (Index.metrics s) as [t a f es ef l ps]; ledger;
    match goal with H : forall p, _ |- _ => rename H into Hall end;
    pose proof (Hall Index.CLASSIC_ARBITRAGE);
    pose proof (Hall Index.STABLE_ROTATION);
    pose proof (Hall Index.YIELD_CAPTURE);
    pose proof (Hall Index.LIQUIDITY_PROBE);
    (repeat split; try (destruct selected; simpl in *; lia));
    intros p; specialize (Hall p);
    destruct (decide (p = selected)); simpl in *; lia.
Qed.

Lemma counters_agree_any (p q : Index.PatternId) (m : Index.Metrics) :
  counters_agree 0 p m -> counters_agree 0 q m.
Proof.
  unfold counters_agree. intros (? & ? & Hall & ?).
  repeat split; try tauto. intros r. specialize (Hall r).
  destruct (decide (r = p)), (decide (r = q)); lia.
Qed.

Lemma counters_agree_cycle env s p :
  counters_agree 0 p (Index.metrics s) ->
  counters_agree 0 p (Index.metrics (Index.detectAndEmit keccak256 env s)).
Proof.
  intros H. destruct (detectAndEmit_end keccak256 env s) as
    [?|c ? ?|? ?|m ? ? Ha|jam hash m ? ? Ha]; simpl; try exact H.
  - apply (counters_agree_analysis _ _ _ _ _ _ _ p H) in Ha. exact Ha.
  - apply (counters_agree_analysis _ _ _ _ _ _ _ p H) in Ha.
    destruct Ha as (selected & Hk & Hp).
    apply (counters_agree_any selected).
    now apply counters_agree_emit.
Qed.

Lemma reachable_counters_agree s :
  Index.reachable keccak256 s ->
  counters_agree 0 Index.CLASSIC_ARBITRAGE (Index.metrics s).
Proof.
  induction 1 as [jams|env s _ IH].
  - unfold counters_agree. simpl. repeat split; try lia. intros p.
    destruct (decide _); simpl; lia.
  - now apply counters_agree_cycle.
Qed.

(** X1.  In every state the Strategist can reach, no pattern has more
    successes than attempts, so the success rate that enters the pattern
    score and the resonance lies between [0] and [1]. *)
Theorem success_rate_within_unit s p :
  Index.reachable keccak256 s ->
  (Index.successes (Index.patternSuccess (Index.metrics s) p)
   <= Index.attempts (Index.patternSuccess (Index.metrics s) p))%nat
  /\ (0 <= Index.getPatternSuccessRate (Index.metrics s) p <= 1)%Q.
Proof.
  intros Hreach. apply reachable_counters_agree in Hreach.
  destruct Hreach as (_ & _ & Hall & _). specialize (Hall p).
  assert (Index.successes (Index.patternSuccess (Index.metrics s) p)
          <= Index.attempts (Index.patternSuccess (Index.metrics s) p))%nat
    as Hle by lia.
  split; [exact Hle|]. split; [apply getPatternSuccessRate_nonneg|].
  unfold Index.getPatternSuccessRate.
  destruct (Nat.eqb_spec
              (Index.attempts (Index.patternSuccess (Index.metrics s) p)) 0)
    as [E|E]; [lra|].
  apply Qle_shift_div_r; [apply nat_Q_pos; lia|].
  unfold Index.nat_Q, Qle. simpl. lia.
Qed.

(** X2.  In every state the Strategist can reach, the counters of
    [metrics] add up: the attempts over all patterns are the audits
    passed, the successes over all patterns are the emissions included,
    no more audits are settled than analyses were started, and neither
    the emissions included nor the emissions failed outnumber the audits
    passed. *)
Theorem metrics_add_up s :
  Index.reachable keccak256 s ->
  let m := Index.metrics s in
  total_attempts m = Index.auditPasses m
  /\ total_successes m = Index.emissionSuccesses m
  /\ (Index.auditPasses m + Index.auditFails m <= Index.totalAnalyses m)%nat
  /\ (Index.emissionSuccesses m <= Index.auditPasses m)%nat
  /\ (Index.emissionFailures m <= Index.auditPasses m)%nat.
Proof.
  intros Hreach m. apply reachable_counters_agree in Hreach.
  destruct Hreach as (Ha & Hs & _ & Ht & Hes & Hef).
  repeat split; try assumption; fold m in Hes, Hef; lia.
Qed.
End StrategistLedger.

Lemma success_rate_within_unit_witness :
  let s :=
    Index.cycles (fun _ => "0xjam") [aligned_env; evening_env]
      (Index.initial_state ∅) in
  (Index.successes
     (Index.patternSuccess (Index.metrics s) Index.CLASSIC_ARBITRAGE)
   <= Index.attempts
        (Index.patternSuccess (Index.metrics s) Index.CLASSIC_ARBITRAGE))%nat
  /\ (0 <= Index.getPatternSuccessRate (Index.metrics s)
              Index.CLASSIC_ARBITRAGE <= 1)%Q.
Proof.
  apply (success_rate_within_unit (fun _ => "0xjam")).
  apply Index.reachable_cycle, Index.reachable_cycle, Index.reachable_start.
Defined.

Lemma metrics_add_up_witness :
  let m :=
    Index.metrics
      (Index.cycles (fun _ => "0xjam") [aligned_env; failing_env]
         (Index.initial_state ∅)) in
  total_attempts m = Index.auditPasses m
  /\ total_successes m = Index.emissionSuccesses m
  /\ (Index.auditPasses m + Index.auditFails m <= Index.totalAnalyses m)%nat
  /\ (Index.emissionSuccesses m <= Index.auditPasses m)%nat
  /\ (Index.emissionFailures m <= Index.auditPasses m)%nat.
Proof.
  apply (metrics_add_up (fun _ => "0xjam")).
  apply Index.reachable_cycle, Index.reachable_cycle, Index.reachable_start.
Defined.

(** ** What the Strategist remembers of its emissions *)

Section StrategistMemory.
Variable keccak256 : Jam -> string.

Lemma submitted_app hash calls extra :
  submitted hash calls -> submitted hash (calls ++ extra).
Proof.
  intros [H|[p H]]; [left|right; exists p]; apply elem_of_app; now left.
Qed.

Lemma submitted_submission hash lastHash calls extra :
  submitted hash (calls ++ Index.submission lastHash hash :: extra).
Proof.
  unfold Index.submission.
  destruct (Index.truthy lastHash) as [parentHash|];
    [destruct (String.eqb parentHash Index.ZeroHash)|];
    [left|right; exists parentHash|left];
    apply elem_of_app; right; apply elem_of_cons; now left.
Qed.

(** The emit half of a cycle either leaves the memory of emissions as it
    was, or adds [hash] to it after having stored the record and called
    the vault. *)
Lemma emit_memory env s jam hash :
  let s' := Index.emit env s jam hash in
  (Index.emittedSignals s' = Index.emittedSignals s
   /\ Index.lastHash s' = Index.lastHash s
   /\ (Index.jams s' = Index.jams s
       \/ Index.jams s' = Index.JAMStore.store hash jam (Index.jams s))
   /\ exists extra, Index.calls s' = Index.calls s ++ extra)
  \/ (Index.emittedSignals s' = {[hash]} ∪ Index.emittedSignals s
      /\ Index.lastHash s' = Some hash
      /\ Index.jams s' = Index.JAMStore.store hash jam (Index.jams s)
      /\ exists extra,
           Index.calls s'
           = Index.calls s ++ Index.submission (Index.lastHash s) hash :: extra).
Proof.
  unfold Index.emit.
  destruct (Index.write_ok env); simpl;
    [|left; repeat split; auto; exists []; now rewrite app_nil_r].
  destruct (Index.fee_ok env); simpl;
    [|left; repeat split; auto; exists []; now rewrite app_nil_r].
  destruct (Index.tx_outcome env); simpl;
    try (left; repeat split; auto; eexists; reflexivity).
  right.
  destruct (Index.bsv_echo env) as [[|]|]; simpl; repeat split;
    try (exists []; reflexivity);
    rewrite <- app_assoc; eexists; reflexivity.
Qed.

Lemma audited_store hash jam jams other :
  audited (Some jam) = true ->
  audited (Index.JAMStore.retrieve other jams) = true ->
  audited (Index.JAMStore.retrieve other (Index.JAMStore.store hash jam jams))
  = true.
Proof.
  intros Hj Ho. unfold Index.JAMStore.retrieve, Index.JAMStore.store.
  destruct (decide (other = hash)) as [->|Hne].
  - now rewrite lookup_insert_eq.
  - now rewrite lookup_insert_ne by congruence.
Qed.

Lemma emissions_backed_cycle env s :
  emissions_backed s ->
  emissions_backed (Index.detectAndEmit keccak256 env s).
Proof.
  intros [Hset Hlast].
  destruct (detectAndEmit_end keccak256 env s) as
    [?|c ? ?|? ?|m ? ? Ha|jam hash m ? ? Ha]; try (split; assumption).
  apply analyzeAndGenerateJam_Some in Ha as (analysis & m' & Hg).
  apply generateJam_Some in Hg as (_ & _ & (jam_meta & Hm & Hp & _) & _).
  assert (audited (Some jam) = true) as Hj by (simpl; now rewrite Hm).
  destruct (emit_memory env
              (Index.set_metrics (Index.set_isEmitting s true) m) jam hash)
    as [(He & Hl & Hjams & extra & Hc)|(He & Hl & Hjams & extra & Hc)];
    simpl in He, Hl, Hjams, Hc; split; simpl.
  - intros h Hh. rewrite He in Hh. destruct (Hset h Hh) as [Ha Hs].
    split.
    + destruct Hjams as [-> | ->]; [exact Ha|now apply audited_store].
    + rewrite Hc. now apply submitted_app.
  - intros h Hh. rewrite He. apply Hlast. congruence.
  - intros h Hh. rewrite He in Hh. rewrite Hjams, Hc.
    apply elem_of_union in Hh as [Hh|Hh].
    + apply elem_of_singleton in Hh as ->. split.
      * unfold Index.JAMStore.retrieve, Index.JAMStore.store.
        now rewrite lookup_insert_eq.
      * apply submitted_submission.
    + destruct (Hset h Hh) as [Ha Hs]. split.
      * now apply audited_store.
      * now apply submitted_app.
  - intros h Hh. rewrite He. apply elem_of_union. left.
    apply elem_of_singleton. congruence.
Qed.

(** X3.  In every state the Strategist can reach, each hash it counts as
    emitted names a record of the store that passes the audit test of the
    reflex workers and was submitted to the vault, and [lastHash], when
    set, is one of these hashes. *)
Theorem emitted_signals_are_backed s :
  Index.reachable keccak256 s -> emissions_backed s.
Proof.
  induction 1 as [jams|env s _ IH].
  - split; simpl; [intros h Hh; now apply not_elem_of_empty in Hh|discriminate].
  - now apply emissions_backed_cycle.
Qed.
End StrategistMemory.

Lemma emitted_signals_are_backed_witness :
  let s :=
    Index.detectAndEmit (fun _ => "0xjam") aligned_env (Index.initial_state ∅) in
  Index.lastHash s = Some "0xjam"
  /\ audited (Index.JAMStore.retrieve "0xjam" (Index.jams s)) = true
  /\ submitted "0xjam" (Index.calls s).
Proof.
  split; [reflexivity|].
  destruct (emitted_signals_are_backed (fun _ => "0xjam")
              (Index.detectAndEmit (fun _ => "0xjam") aligned_env
                 (Index.initial_state ∅))) as [Hset Hlast].
  - apply Index.reachable_cycle, Index.reachable_start.
  - apply Hset, Hlast. reflexivity.
Defined.

(** ** Recursive pressure *)

Section PressureFacts.
Variable keccak256 : Jam -> string.
Open Scope Q_scope.

Lemma length_last5 {A} (l : list A) :
  length (Index.last5 l) = Nat.min (length l) 5.
Proof. unfold Index.last5. rewrite length_drop. lia. Qed.

Lemma missed_in_step_cycle env s :
  missed_in_step s -> missed_in_step (Index.detectAndEmit keccak256 env s).
Proof.
  unfold missed_in_step. intros (Hc & Hl & Hn).
  destruct (detectAndEmit_end keccak256 env s) as
    [?|c ? ?|? ?|m ? ? Ha|jam hash m ? ? Ha]; simpl;
    try (repeat split; assumption).
  - rewrite !length_app. simpl. repeat split; lia.
  - unfold Index.emit.
    destruct (Index.write_ok env); simpl; [|repeat split; assumption].
    destruct (Index.fee_ok env); simpl; [|repeat split; assumption].
    destruct (Index.tx_outcome env); simpl; try (repeat split; assumption).
    destruct (Index.bsv_echo env) as [[|]|]; simpl;
      rewrite !length_last5; repeat split; lia.
Qed.

(** X4.  In every state the Strategist can reach, [missedEmissions] is
    [missedEmissionsVector.count], the arrays [timestamps] and
    [intensities] have the same length, and that length is at least the
    count: the history kept across a successful emission is never shorter
    than the count that is reset with it. *)
Theorem missed_counts_in_step s :
  Index.reachable keccak256 s -> missed_in_step s.
Proof.
  induction 1 as [jams|env s _ IH].
  - unfold missed_in_step. simpl. repeat split; lia.
  - now apply missed_in_step_cycle.
Qed.

(** The weighted sum of [calculateVectorMagnitude] adds at most [M] per
    element, when no element is above [M] and the indices stay below the
    length. *)
Lemma weighted_sum_le (n : nat) (M : Q) (l : list Q) (idx : nat) (acc : Q) :
  (idx + length l <= n)%nat ->
  Forall (fun q => 0 <= q <= M) l ->
  Index.weighted_sum (Index.nat_Q n) idx l acc
  <= acc + M * Index.nat_Q (length l).
Proof.
  revert idx acc. induction l as [|x xs IH]; intros idx acc Hn Hall.
  - simpl. change (Index.nat_Q 0) with 0. lra.
  - apply Forall_cons in Hall as [[Hx0 HxM] Hxs]. simpl in Hn |- *.
    eapply Qle_trans; [apply (IH (S idx)); [lia|exact Hxs]|].
    assert (0 < Index.nat_Q n) as Hpos by (apply nat_Q_pos; lia).
    assert (Index.nat_Q (idx + 1) / Index.nat_Q n <= 1) as Hw.
    { apply Qle_shift_div_r; [exact Hpos|].
      unfold Index.nat_Q, Qle. simpl. lia. }
    assert (0 <= Index.nat_Q (idx + 1) / Index.nat_Q n) as Hw0.
    { apply Qdiv_nonneg; apply nat_Q_nonneg. }
    assert (Index.nat_Q (S (length xs)) == Index.nat_Q (length xs) + 1) as E.
    { unfold Index.nat_Q. rewrite Nat2Z.inj_succ, <- Z.add_1_r.
      now rewrite inject_Z_plus. }
    rewrite E.
    assert (x * (Index.nat_Q (idx + 1) / Index.nat_Q n) <= M) by nra.
    lra.
Qed.

Lemma calculateVectorMagnitude_le (v : Index.MissedVector) (M : Q) :
  Forall (fun q => 0 <= q <= M) (Index.intensities v) ->
  0 <= M ->
  Index.calculateVectorMagnitude v <= M.
Proof.
  intros Hall HM. unfold Index.calculateVectorMagnitude.
  destruct (Index.intensities v) as [|x xs] eqn:E; [exact HM|].
  assert (0 < Index.nat_Q (length (x :: xs))) as Hpos
    by (apply nat_Q_pos; simpl; lia).
  apply Qle_shift_div_r; [exact Hpos|].
  eapply Qle_trans; [apply (weighted_sum_le (length (x :: xs)) M)|].
  - simpl. lia.
  - exact Hall.
  - lra.
Qed.

(** X5.  [calculateVectorMagnitude] is [0] on an empty vector and, on
    intensities that all lie between [0] and [M], lies between [0] and
    [M] as well: the recency weights never amplify. *)
Theorem magnitude_within_intensities (v : Index.MissedVector) (M : Q) :
  Forall (fun q => 0 <= q <= M) (Index.intensities v) ->
  0 <= M ->
  0 <= Index.calculateVectorMagnitude v <= M
  /\ (Index.intensities v = [] -> Index.calculateVectorMagnitude v = 0).
Proof.
  intros Hall HM. split; [split|].
  - apply calculateVectorMagnitude_nonneg.
    eapply Forall_impl; [exact Hall|]. intros q Hq. apply Hq.
  - now apply calculateVectorMagnitude_le.
  - unfold Index.calculateVectorMagnitude. now intros ->.
Qed.

Lemma intensities_in_range_cycle env s :
  intensities_in_range s ->
  intensities_in_range (Index.detectAndEmit keccak256 env s).
Proof.
  unfold intensities_in_range. intros H.
  destruct (detectAndEmit_end keccak256 env s) as
    [?|c ? Ht|? ?|m ? ? Ha|jam hash m ? ? Ha]; simpl; try exact H.
  - apply Forall_app. split; [exact H|]. apply Forall_singleton.
    apply timing_checks_Missed in Ht as ->.
    pose proof (getConsensusMultiplier_range (Index.t_check env)). lra.
  - destruct (emit_missedEmissionsVector env
                (Index.set_metrics (Index.set_isEmitting s true) m) jam hash)
      as [E|E]; simpl in E; rewrite E; simpl; [exact H|].
    unfold Index.last5. now apply Forall_drop.
Qed.

(** X6.  In every state the Strategist can reach, the recursive pressure
    that enters the resonance, [calculateVectorMagnitude] of the vector of
    missed emissions, lies between [0] and [PHI_SQUARED]. *)
Theorem recursive_pressure_bounded s :
  Index.reachable keccak256 s ->
  0 <= Index.calculateVectorMagnitude (Index.missedEmissionsVector s)
    <= Index.PHI_SQUARED.
Proof.
  intros Hreach.
  assert (intensities_in_range s) as Hall.
  { induction Hreach as [jams|env s _ IH]; [apply Forall_nil_2|].
    now apply intensities_in_range_cycle. }
  split.
  - apply calculateVectorMagnitude_nonneg.
    eapply Forall_impl; [exact Hall|]. intros q Hq. apply Hq.
  - apply calculateVectorMagnitude_le; [exact Hall|].
    intros E. discriminate E.
Qed.
End PressureFacts.

Lemma missed_counts_in_step_witness :
  missed_in_step
    (Index.cycles (fun _ => "0xjam") [aligned_env; aligned_env; evening_env]
       (Index.initial_state ∅)).
Proof.
  apply (missed_counts_in_step (fun _ => "0xjam")).
  repeat apply Index.reachable_cycle. apply Index.reachable_start.
Defined.

Lemma magnitude_within_intensities_witness :
  (0 <= Index.calculateVectorMagnitude
          (Index.mkVector 2 [1000%Z; 2000%Z] [1%Q; Index.PHI_SQUARED])
   <= Index.PHI_SQUARED)%Q.
Proof.
  apply (magnitude_within_intensities
           (Index.mkVector 2 [1000%Z; 2000%Z] [1%Q; Index.PHI_SQUARED])
           Index.PHI_SQUARED).
  - repeat constructor; simpl; intros E; discriminate E.
  - intros E; discriminate E.
Defined.

Lemma recursive_pressure_bounded_witness :
  (0 <= Index.calculateVectorMagnitude
          (Index.missedEmissionsVector
             (Index.cycles (fun _ => "0xjam") [aligned_env; aligned_env]
                (Index.initial_state ∅)))
   <= Index.PHI_SQUARED)%Q.
Proof.
  apply (recursive_pressure_bounded (fun _ => "0xjam")).
  repeat apply Index.reachable_cycle. apply Index.reachable_start.
Defined.

(** ** The timing gate of a cycle *)

Section TimingFacts.
Open Scope Q_scope.

(** The five values of the adjusted interval of lines 453-454; the floor
    of 60 seconds is below all of them. *)
Lemma adjustedInterval_cases (now : Z) :
  let adjustedInterval :=
    Z.max 60000
      (Qfloor (inject_Z Index.BASE_EMISSION_INTERVAL
               / Index.getConsensusMultiplier now)) in
  (adjustedInterval = 343769 \/ adjustedInterval = 556230
   \/ adjustedInterval = 1456230 \/ adjustedInterval = 2356230
   \/ adjustedInterval = 900000)%Z.
Proof.
  destruct (getConsensusMultiplier_cases now) as [H|[H|[H|[H|H]]]];
    simpl in H; rewrite H; vm_compute; tauto.
Qed.

(** X7.  Off the Fibonacci minutes, a cycle that comes less than 343769
    ms after the last emission is always counted as missed, and a cycle
    that comes 2356230 ms or more after it, or before any emission, never
    is: the interval of line 453 stays between these two values, above
    the floor of 60 seconds of line 454. *)
Theorem emission_spacing (env : Index.CycleEnv) (s : Index.State) :
  let elapsed := (Index.t_check env - Index.lastEmissionTime s)%Z in
  (Index.isSubInterval (Index.t_check env) = false ->
   (0 < Index.lastEmissionTime s)%Z -> (elapsed < 343769)%Z ->
   Index.timing_checks env s
   = Index.Missed (Index.getConsensusMultiplier (Index.t_check env)))
  /\ ((2356230 <= elapsed)%Z \/ (Index.lastEmissionTime s <= 0)%Z ->
      forall c, Index.timing_checks env s <> Index.Missed c).
Proof.
  intros elapsed. unfold Index.timing_checks. fold elapsed.
  pose proof (adjustedInterval_cases (Index.t_check env)) as Hcases.
  cbv zeta in Hcases.
  set (adjustedInterval :=
         Z.max 60000
           (Qfloor (inject_Z Index.BASE_EMISSION_INTERVAL
                    / Index.getConsensusMultiplier (Index.t_check env))))
    in *.
  split.
  - intros -> Hlast Hsoon. cbv zeta. cbn [negb andb].
    destruct (Z.ltb_spec 0 (Index.lastEmissionTime s)); [|lia].
    destruct (Z.ltb_spec elapsed adjustedInterval); [reflexivity|lia].
  - intros Hlate c.
    assert ((0 <? Index.lastEmissionTime s)%Z
            && (elapsed <? adjustedInterval)%Z = false) as E.
    { destruct (Z.ltb_spec 0 (Index.lastEmissionTime s)); [|reflexivity].
      destruct (Z.ltb_spec elapsed adjustedInterval); [lia|reflexivity]. }
    rewrite <- andb_assoc, E, andb_false_r.
    repeat match goal with |- context [if ?b then _ else _] =>
      destruct b end; discriminate.
Qed.


End TimingFacts.

Lemma emission_spacing_witness :
  Index.timing_checks evening_env
    (Index.detectAndEmit (fun _ => "0xjam") aligned_env (Index.initial_state ∅))
  <> Index.Missed Index.PHI_SQUARED.
Proof.
  apply (emission_spacing evening_env
           (Index.detectAndEmit (fun _ => "0xjam") aligned_env
              (Index.initial_state ∅))).
  left. vm_compute. discriminate.
Defined.


(** ** Retries of the analysis *)

Section RetryFacts.
Variable keccak256 : Jam -> string.

Lemma generateJam_totalAnalyses env s analysis :
  Index.totalAnalyses (snd (Index.generateJam keccak256 env s analysis))
  = Index.totalAnalyses (Index.metrics s).
Proof.
  unfold Index.generateJam.
  destruct (Index.a_audit_pass analysis); simpl; [|reflexivity].
  destruct (Index.a_bait_hooks analysis); reflexivity.
Qed.

Lemma analyzeAndGenerateJam_from_totalAnalyses left k env s m0 :
  let m := snd (Index.analyzeAndGenerateJam_from keccak256 left k env s m0) in
  (Index.totalAnalyses m0 < Index.totalAnalyses m
   <= Index.totalAnalyses m0 + S left)%nat
  /\ (Index.analyze env k <> Index.Threw ->
      Index.totalAnalyses m = S (Index.totalAnalyses m0))
  /\ ((forall i, Index.analyze env i = Index.Threw) ->
      Index.analyzeAndGenerateJam_from keccak256 left k env s m0
      = (None,
         Index.retries_exhausted
           (Index.set_totalAnalyses m0 (Index.totalAnalyses m0 + S left)))).
Proof.
  revert k m0. induction left as [|left IH]; intros k m0; simpl;
    destruct (Index.analyze env k) as [|analysis] eqn:E.
  - split; [simpl; lia|]. split; [intros H; now destruct H|].
    intros _. now rewrite Nat.add_1_r.
  - rewrite generateJam_totalAnalyses. simpl.
    split; [lia|]. split; [reflexivity|].
    intros Hall. rewrite Hall in E. discriminate.
  - destruct (IH (S k)
                (Index.set_totalAnalyses m0 (S (Index.totalAnalyses m0))))
      as (Hb & _ & Hall). simpl in Hb, Hall.
    split; [lia|]. split; [intros H; now destruct H|].
    intros H. rewrite (Hall H). do 3 f_equal. lia.
  - rewrite generateJam_totalAnalyses. simpl.
    split; [lia|]. split; [reflexivity|].
    intros Hall. rewrite Hall in E. discriminate.
Qed.

(** X9.  One call of [analyzeAndGenerateJam] counts between one and four
    analyses: exactly one when [analyzeContract] returns at the first
    attempt, and four when it throws every time, in which case no record
    is built and one audit failure is counted. *)
Theorem analyses_counted (env : Index.CycleEnv) (s : Index.State) :
  let before := Index.metrics s in
  let result := Index.analyzeAndGenerateJam keccak256 env s in
  (Index.totalAnalyses before < Index.totalAnalyses (snd result)
   <= Index.totalAnalyses before + 4)%nat
  /\ (Index.analyze env 0 <> Index.Threw ->
      Index.totalAnalyses (snd result) = S (Index.totalAnalyses before))
  /\ ((forall i, Index.analyze env i = Index.Threw) ->
      fst result = None
      /\ Index.totalAnalyses (snd result)
         = (Index.totalAnalyses before + 4)%nat
      /\ Index.auditFails (snd result) = S (Index.auditFails before)
      /\ Index.auditPasses (snd result) = Index.auditPasses before).
Proof.
  intros before result. subst before result.
  unfold Index.analyzeAndGenerateJam.
  destruct (analyzeAndGenerateJam_from_totalAnalyses Index.MAX_RETRIES 0 env s
              (Index.metrics s)) as (Hb & H1 & Hall).
  split; [exact Hb|]. split; [exact H1|].
  intros H. rewrite (Hall H). simpl. auto.
Qed.
End RetryFacts.

Lemma analyses_counted_witness :
  let result :=
    Index.analyzeAndGenerateJam (fun _ => "0xjam")
      (Index.mkEnv 36000000 (9 # 10) (fun _ => Index.Threw) 36000000 0 "" ""
         [] true true Index.Mined 36000000 None)
      (Index.initial_state ∅) in
  fst result = None /\ Index.totalAnalyses (snd result) = 4%nat.
Proof.
  destruct (analyses_counted (fun _ => "0xjam")
              (Index.mkEnv 36000000 (9 # 10) (fun _ => Index.Threw) 36000000 0
                 "" "" [] true true Index.Mined 36000000 None)
              (Index.initial_state ∅)) as (_ & _ & H).
  destruct H as (Hr & Ht & _); [reflexivity|].
  split; [exact Hr|exact Ht].
Defined.

(** ** The distance to the consensus windows *)

Section WindowFacts.

Lemma utc_minutes_of_day_range (now : Z) :
  0 <= Index.utc_minutes_of_day now < 1440.
Proof. unfold Index.utc_minutes_of_day. apply Z.mod_pos_bound. lia. Qed.

(** A [reduce] with [Math.min] from [Infinity] gives the least value. *)
Lemma fold_ext_min {A} (f : A -> Z) (l : list A) (init : ExtZ) :
  let r := fold_left (fun acc x => ext_min acc (f x)) l init in
  (forall x, x ∈ l -> ext_leb r (f x) = true)
  /\ (r = init \/ exists x, x ∈ l /\ r = Fin (f x))
  /\ (forall i, init = Fin i -> ext_leb r i = true).
Proof.
  revert init. induction l as [|y l IH]; intros init; simpl.
  - split; [intros x Hx; now apply elem_of_nil in Hx|].
    split; [now left|]. intros i ->. simpl. lia.
  - destruct (IH (ext_min init (f y))) as (Hle & Hin & Hinit).
    simpl in Hle, Hin, Hinit.
    set (r := fold_left _ l _) in *.
    assert (ext_leb r (f y) = true) as Hy.
    { destruct init as [i|]; simpl in Hinit.
      - specialize (Hinit _ eq_refl). destruct r as [z|]; simpl in *; lia.
      - now apply Hinit. }
    split; [|split].
    + intros x Hx. apply elem_of_cons in Hx as [->|Hx]; auto.
    + destruct Hin as [Hr|(x & Hx & Hr)].
      * destruct init as [i|]; simpl in Hr.
        -- destruct (Z.min_spec i (f y)) as [[_ E]|[_ E]]; rewrite E in Hr.
           ++ now left.
           ++ right. exists y. split; [apply elem_of_cons; now left|exact Hr].
        -- right. exists y. split; [apply elem_of_cons; now left|exact Hr].
      * right. exists x. split; [apply elem_of_cons; now right|exact Hr].
    + intros i ->. simpl in Hinit. specialize (Hinit _ eq_refl).
      destruct r as [z|]; simpl in *; lia.
Qed.

Lemma window_distance (c : Z) (time : Z * Z) :
  0 <= c < 1440 -> 0 <= window_minute time < 1440 ->
  Z.min (Z.min (Z.abs (c - (fst time * 60 + snd time)))
               (Z.abs (c - (fst time * 60 + snd time) + 1440)))
        (Z.abs (c - (fst time * 60 + snd time) - 1440))
  = dial_distance c (window_minute time).
Proof. unfold dial_distance, window_minute. lia. Qed.

Lemma CONSENSUS_TIMES_range (time : Z * Z) :
  time ∈ Index.CONSENSUS_TIMES -> 0 <= window_minute time < 1440.
Proof.
  unfold Index.CONSENSUS_TIMES. intros H.
  repeat (apply elem_of_cons in H as [->|H]; [vm_compute; split; congruence|]).
  now apply elem_of_nil in H.
Qed.

(** [getMinDistanceToConsensusWindow] finds a nearest window. *)
Lemma nearest_window_min (now : Z) :
  let c := Index.utc_minutes_of_day now in
  exists best,
    best ∈ Index.CONSENSUS_TIMES
    /\ Index.getMinDistanceToConsensusWindow now
       = Fin (dial_distance c (window_minute best))
    /\ forall time, time ∈ Index.CONSENSUS_TIMES ->
                    dial_distance c (window_minute best)
                    <= dial_distance c (window_minute time).
Proof.
  intros c. pose proof (utc_minutes_of_day_range now) as Hc. fold c in Hc.
  unfold Index.getMinDistanceToConsensusWindow.
  fold c. cbv zeta.
  destruct (fold_ext_min
              (fun time =>
                 Z.min (Z.min (Z.abs (c - (fst time * 60 + snd time)))
                              (Z.abs (c - (fst time * 60 + snd time) + 1440)))
                       (Z.abs (c - (fst time * 60 + snd time) - 1440)))
              Index.CONSENSUS_TIMES Infinity) as (Hle & Hin & _).
  cbv zeta in Hle, Hin.
  set (r := fold_left _ Index.CONSENSUS_TIMES Infinity) in *.
  destruct Hin as [Hr|(best & Hbest & Hr)].
  { exfalso. specialize (Hle (13, 21)). rewrite Hr in Hle. simpl in Hle.
    assert (false = true) as E; [|discriminate E].
    apply Hle. apply elem_of_cons. now left. }
  rewrite window_distance in Hr
    by (try exact Hc; now apply CONSENSUS_TIMES_range).
  exists best. split; [exact Hbest|]. split; [exact Hr|].
  intros time Ht. specialize (Hle time Ht). rewrite Hr in Hle.
  rewrite window_distance in Hle
    by (try exact Hc; now apply CONSENSUS_TIMES_range).
  simpl in Hle. lia.
Qed.

(** X10.  [getMinDistanceToConsensusWindow] is never [Infinity]: it is the
    distance on the 24-hour dial from the current minute to the nearest of
    the five windows, hence at most 720, and [isConsensusTime] holds
    exactly when a window is at most two minutes away on the dial. *)
Theorem distance_to_nearest_window (now : Z) :
  let c := Index.utc_minutes_of_day now in
  exists d,
    Index.getMinDistanceToConsensusWindow now = Fin d
    /\ 0 <= d <= 720
    /\ (forall time, time ∈ Index.CONSENSUS_TIMES ->
                     d <= dial_distance c (window_minute time))
    /\ (exists time, time ∈ Index.CONSENSUS_TIMES
                     /\ d = dial_distance c (window_minute time))
    /\ (Index.isConsensusTime now = true <->
        exists time, time ∈ Index.CONSENSUS_TIMES
                     /\ dial_distance c (window_minute time) <= 2).
Proof.
  intros c. pose proof (utc_minutes_of_day_range now) as Hc. fold c in Hc.
  destruct (nearest_window_min now) as (best & Hbest & Hr & Hmin).
  fold c in Hr, Hmin.
  pose proof (CONSENSUS_TIMES_range best Hbest) as Hb.
  exists (dial_distance c (window_minute best)).
  split; [exact Hr|]. split; [unfold dial_distance; lia|].
  split; [exact Hmin|]. split; [now exists best|].
  unfold Index.isConsensusTime. rewrite Hr. simpl. split.
  - intros H. exists best. split; [exact Hbest|lia].
  - intros (time & Ht & Hd). specialize (Hmin time Ht). lia.
Qed.
End WindowFacts.

(** ** The scheduler *)

Section SchedulerFacts.

Lemma jitter_range (rand : Q) :
  (0 <= rand < 1)%Q -> 0 <= Qfloor (rand * 60000) < 60000.
Proof.
  intros [H0 H1]. split.
  - change 0 with (Qfloor 0). apply Qfloor_resp_le. lra.
  - rewrite Zlt_Qlt. eapply Qle_lt_trans; [apply Qfloor_le|].
    change (inject_Z 60000) with 60000%Q. lra.
Qed.

(** The update of line 645 keeps the smaller of the two values. *)
Lemma nextWindowMinutes_min (now : Z) :
  Scheduler.nextWindowMinutes now
  = fold_left
      (fun acc time =>
         ext_min acc
           (let minutesUntil :=
              window_minute time - Index.utc_minutes_of_day now in
            if minutesUntil <=? 0 then minutesUntil + 1440 else minutesUntil))
      Index.CONSENSUS_TIMES Infinity.
Proof.
  unfold Scheduler.nextWindowMinutes. cbv zeta.
  generalize Infinity. induction Index.CONSENSUS_TIMES as [|time l IH];
    intros acc; [reflexivity|]. simpl. rewrite <- IH. f_equal.
  unfold window_minute. destruct acc as [x|]; simpl; [|reflexivity].
  destruct (Z.ltb_spec
              (if fst time * 60 + snd time - Index.utc_minutes_of_day now <=? 0
               then fst time * 60 + snd time - Index.utc_minutes_of_day now
                    + 1440
               else fst time * 60 + snd time - Index.utc_minutes_of_day now)
              x); f_equal; lia.
Qed.

(** The minutes until the next window: between 1 and 1440, the wait for
    some window, and no longer than the wait for any. *)
Lemma nextWindowMinutes_spec (now : Z) :
  let c := Index.utc_minutes_of_day now in
  let wait time :=
    if window_minute time - c <=? 0 then window_minute time - c + 1440
    else window_minute time - c in
  exists n,
    Scheduler.nextWindowMinutes now = Fin n
    /\ 1 <= n <= 1440
    /\ (exists time, time ∈ Index.CONSENSUS_TIMES /\ n = wait time)
    /\ (forall time, time ∈ Index.CONSENSUS_TIMES -> n <= wait time).
Proof.
  intros c wait. rewrite nextWindowMinutes_min. fold c.
  pose proof (utc_minutes_of_day_range now) as Hc. fold c in Hc.
  destruct (fold_ext_min wait Index.CONSENSUS_TIMES Infinity)
    as (Hle & Hin & _). cbv zeta in Hle, Hin.
  change (fun time : Z * Z =>
            let minutesUntil := window_minute time - c in
            if minutesUntil <=? 0 then minutesUntil + 1440 else minutesUntil)
    with wait.
  set (r := fold_left _ Index.CONSENSUS_TIMES Infinity) in *.
  destruct Hin as [Hr|(best & Hbest & Hr)].
  { exfalso. specialize (Hle (13, 21)). rewrite Hr in Hle. simpl in Hle.
    assert (false = true) as E; [|discriminate E].
    apply Hle. apply elem_of_cons. now left. }
  exists (wait best). split; [exact Hr|].
  pose proof (CONSENSUS_TIMES_range best Hbest) as Hb.
  split; [unfold wait; destruct (Z.leb_spec (window_minute best - c) 0); lia|].
  split; [now exists best|].
  intros time Ht. specialize (Hle time Ht). rewrite Hr in Hle.
  simpl in Hle. lia.
Qed.

(** X11.  The delay [calculateOptimalInterval] proposes is at least one
    minute and at most thirty, and it is thirty minutes whenever no window
    opens within the next half hour; with no [DETECT_INTERVAL] set, the
    delay [scheduleNextEmission] uses lies between one and five minutes. *)
Theorem scheduler_delay_bounds (now : Z) (rand : Q) :
  (0 <= rand < 1)%Q ->
  60000 <= Scheduler.calculateOptimalInterval now rand <= 1800000
  /\ (forall n, Scheduler.nextWindowMinutes now = Fin n -> 30 <= n ->
               Scheduler.calculateOptimalInterval now rand = 1800000)
  /\ 60000 <= Scheduler.interval None now rand <= 300000.
Proof.
  intros Hrand. pose proof (jitter_range rand Hrand) as Hj.
  destruct (nextWindowMinutes_spec now) as (n & Hn & Hrange & _).
  unfold Scheduler.interval, Scheduler.calculateOptimalInterval.
  rewrite Hn. cbv zeta. simpl Scheduler.BASE_INTERVAL.
  split; [lia|]. split; [|lia].
  intros n' [= <-] H30. lia.
Qed.

(** X12.  When the next window opens in at most four minutes, the delay
    [scheduleNextEmission] uses (with no [DETECT_INTERVAL] set) ends inside
    that window: at the instant the timer fires, [isConsensusTime] holds. *)
Theorem wake_inside_window (now : Z) (rand : Q) (n : Z) :
  (0 <= rand < 1)%Q ->
  Scheduler.nextWindowMinutes now = Fin n -> n <= 4 ->
  Index.isConsensusTime (now + Scheduler.interval None now rand) = true.
Proof.
  intros Hrand Hn H4. pose proof (jitter_range rand Hrand) as Hj.
  destruct (nextWindowMinutes_spec now)
    as (n' & Hn' & Hrange & (best & Hbest & Hwait) & _).
  rewrite Hn in Hn'. injection Hn' as <-.
  unfold Scheduler.interval, Scheduler.calculateOptimalInterval.
  rewrite Hn. cbv zeta. simpl Scheduler.BASE_INTERVAL.
  set (jitter := Qfloor (rand * 60000)) in *.
  replace (Z.min (Z.min (n * 60000 + jitter) 1800000) 300000)
    with (n * 60000 + jitter) by lia.
  destruct (nearest_window_min (now + (n * 60000 + jitter)))
    as (nearest & _ & Hr & Hmin).
  unfold Index.isConsensusTime. rewrite Hr. simpl. apply Z.leb_le.
  apply Z.le_trans with (1 := Hmin best Hbest).
  pose proof (CONSENSUS_TIMES_range best Hbest) as Hb.
  pose proof (utc_minutes_of_day_range now) as Hc.
  pose proof (utc_minutes_of_day_range (now + (n * 60000 + jitter))) as Hc'.
  unfold Index.utc_minutes_of_day in *.
  set (w := window_minute best) in *.
  assert ((now + (n * 60000 + jitter)) / 60000
          = now / 60000 + n + (now mod 60000 + jitter) / 60000) as E.
  { pose proof (Z.div_mod now 60000).
    pose proof (Z.mod_pos_bound now 60000).
    replace (now + (n * 60000 + jitter))
      with ((now mod 60000 + jitter) + (now / 60000 + n) * 60000) by lia.
    rewrite Z.div_add by lia. lia. }
  rewrite E in *.
  assert (0 <= (now mod 60000 + jitter) / 60000 <= 1) as Hcarry.
  { pose proof (Z.mod_pos_bound now 60000).
    split; [apply Z.div_pos; lia|].
    apply Z.lt_succ_r. apply Z.div_lt_upper_bound; lia. }
  set (carry := (now mod 60000 + jitter) / 60000) in *.
  set (q := now / 60000) in *.
  destruct (Z.leb_spec (w - q mod 1440) 0) as [Hpast|Hahead];
    unfold dial_distance;
    pose proof (Z.div_mod q 1440);
    pose proof (Z.div_mod (q + n + carry) 1440);
    pose proof (Z.mod_pos_bound (q + n + carry) 1440);
    lia.
Qed.
End SchedulerFacts.

Lemma scheduler_delay_bounds_witness :
  60000 <= Scheduler.interval None 48000000 (1 # 2) <= 300000.
Proof.
  apply (scheduler_delay_bounds 48000000 (1 # 2)). split; reflexivity || (intros E; discriminate E).
Defined.

Lemma wake_inside_window_witness :
  Index.isConsensusTime
    (47880000 + Scheduler.interval None 47880000 (1 # 2)) = true.
Proof.
  apply (wake_inside_window 47880000 (1 # 2) 3).
  - split; [intros E; discriminate E|reflexivity].
  - reflexivity.
  - lia.
Defined.

(** ** The verification oracle *)

Section OracleFacts.
Variable keccak256 : string -> string.
Variable DECOMPILER_URL : string.

Abbreviation analyzeContract :=
  (Substrate.analyzeContract keccak256 DECOMPILER_URL).

(** The configuration under which lines 126-171 answer without calling
    the decompiler. *)
Abbreviation heuristic_only :=
  (String.eqb DECOMPILER_URL ""
   || Substrate.includes "example.com" DECOMPILER_URL).

Lemma size_check (n : nat) :
  Qle_bool 100 (inject_Z (Z.of_nat n) / 2 - 1) = (202 <=? n)%nat.
Proof.
  apply eq_true_iff_eq. rewrite Qle_bool_iff, Nat.leb_le.
  assert (inject_Z (Z.of_nat n) / 2 - 1 == (Z.of_nat n - 2 # 2))%Q as E.
  { unfold Qeq, Qdiv, Qminus, Qplus, Qmult, Qinv, inject_Z. simpl. lia. }
  rewrite E. unfold Qle. simpl. lia.
Qed.

(** The verdict on a cache miss, as a Boolean. *)
Lemma verdict_on_miss (env : Substrate.Env) (address : string)
    (s : Substrate.State) :
  Substrate.cached env address s = None ->
  Substrate.audit_pass (fst (analyzeContract env address s))
  = match Substrate.fetchBytecode env with
    | Some bytecode =>
        Substrate.known_safe address
        || ((202 <=? String.length bytecode)%nat
            && negb (Substrate.includes "ff" bytecode)
            && (heuristic_only
                || negb (Substrate.includes "f5" bytecode
                         && Substrate.includes "f4" bytecode)))
    | None => false
    end.
Proof.
  intros Hmiss. unfold Substrate.analyzeContract. rewrite Hmiss.
  destruct (Substrate.fetchBytecode env) as [bytecode|]; [|reflexivity].
  cbv zeta.
  destruct (Substrate.known_safe address) eqn:Hsafe; [reflexivity|].
  destruct heuristic_only eqn:Hcfg; rewrite size_check;
    destruct (202 <=? String.length bytecode)%nat;
    destruct (Substrate.includes "ff" bytecode);
    destruct (Substrate.includes "f5" bytecode);
    destruct (Substrate.includes "f4" bytecode); reflexivity.
Qed.

(** X13.  On a cache miss the verdict of [analyzeContract] is: pass exactly
    when bytecode was fetched and either the address is one of the three
    known safe contracts, or the bytecode has at least 202 characters,
    does not contain [ff], and (when the decompiler branch runs) does not
    contain both [f5] and [f4].  What the decompiler reports plays no part
    in it. *)
Theorem audit_verdict (env : Substrate.Env) (address : string)
    (s : Substrate.State) :
  Substrate.cached env address s = None ->
  Substrate.audit_pass (fst (analyzeContract env address s)) = true
  <-> exists bytecode,
        Substrate.fetchBytecode env = Some bytecode
        /\ (Substrate.known_safe address = true
            \/ ((202 <= String.length bytecode)%nat
                /\ Substrate.includes "ff" bytecode = false
                /\ (heuristic_only = true
                    \/ Substrate.includes "f5" bytecode
                       && Substrate.includes "f4" bytecode = false))).
Proof.
  intros Hmiss. rewrite (verdict_on_miss env address s Hmiss).
  destruct (Substrate.fetchBytecode env) as [bytecode|].
  2: { split; [discriminate|]. intros (b & Hb & _). discriminate. }
  rewrite orb_true_iff, !andb_true_iff, orb_true_iff, !negb_true_iff,
    Nat.leb_le.
  split.
  - intros H. exists bytecode. split; [reflexivity|tauto].
  - intros (b & [= <-] & H). tauto.
Qed.

Lemma age_check (z : Z) :
  Qle_bool (inject_Z 5824) (inject_Z z / 1000) = (5824000 <=? z).
Proof.
  apply eq_true_iff_eq. rewrite Qle_bool_iff, Z.leb_le.
  unfold Qle, Qdiv, Qmult, Qinv, inject_Z. simpl. lia.
Qed.

Lemma cached_fresh (env : Substrate.Env) (address : string)
    (s : Substrate.State) (entry : Substrate.AnalysisResult)
    (proof : string) (t : Z) :
  Substrate.substrateCache s !! address = Some entry ->
  Substrate.bytecode_proof entry = Some proof -> proof <> "" ->
  Substrate.timestamp entry = Some t ->
  Substrate.now env - t < 5824000 ->
  Substrate.cached env address s = Some entry.
Proof.
  intros Hentry Hproof Hne Ht Hage. unfold Substrate.cached.
  rewrite Hentry, Hproof, Ht. cbv zeta. cbn [js_or_opt].
  destruct (String.eqb_spec proof ""); [contradiction|].
  change (Qfloor (3600 * Substrate.PHI)) with 5824.
  rewrite age_check.
  destruct (Z.leb_spec 5824000 (Substrate.now env - js_or_Z t 0));
    [|reflexivity].
  unfold js_or_Z in *. destruct (Z.eqb_spec t 0); lia.
Qed.

Lemma cached_untimed (env : Substrate.Env) (address : string)
    (s : Substrate.State) (entry : Substrate.AnalysisResult) :
  Substrate.substrateCache s !! address = Some entry ->
  Substrate.timestamp entry = None ->
  5824000 <= Substrate.now env ->
  Substrate.cached env address s = None.
Proof.
  intros Hentry Ht Hnow. unfold Substrate.cached. rewrite Hentry, Ht.
  destruct (Substrate.bytecode_proof entry) as [proof|]; [|reflexivity].
  destruct (String.eqb proof ""); [reflexivity|].
  cbv zeta. cbn [js_or_opt]. change (js_or_Z 0 0) with 0.
  change (Qfloor (3600 * Substrate.PHI)) with 5824.
  rewrite age_check.
  destruct (Z.leb_spec 5824000 (Substrate.now env - 0)); [reflexivity|lia].
Qed.

(** What a miss that fetched bytecode leaves under the address. *)
Lemma analyzeContract_cached_under_address (env : Substrate.Env)
    (address : string) (s : Substrate.State) (bytecode : string) :
  Substrate.cached env address s = None ->
  Substrate.fetchBytecode env = Some bytecode ->
  let result := analyzeContract env address s in
  Substrate.substrateCache (snd result) !! address = Some (fst result)
  /\ Substrate.substrateCache (snd result) !! keccak256 bytecode
     = Some (fst result)
  /\ Substrate.bytecode_proof (fst result) = Some (keccak256 bytecode)
  /\ Substrate.timestamp (fst result)
     = (if Substrate.known_safe address || heuristic_only then None
        else Some (Substrate.now_result env)).
Proof.
  intros Hmiss Hfetch. unfold Substrate.analyzeContract.
  rewrite Hmiss, Hfetch. cbv zeta.
  assert (forall r,
            Substrate.substrateCache
              (Substrate.cache_and_save env address (keccak256 bytecode) r s)
            !! address = Some r
            /\ Substrate.substrateCache
                 (Substrate.cache_and_save env address (keccak256 bytecode)
                    r s)
               !! keccak256 bytecode = Some r) as Hboth.
  { intros r. unfold Substrate.cache_and_save, Substrate.saveCache.
    destruct (Substrate.write_ok env); simpl;
      (split; [|apply lookup_insert_eq]);
      (destruct (decide (keccak256 bytecode = address)) as [->|Hne];
       [apply lookup_insert_eq
       |rewrite lookup_insert_ne by exact Hne; apply lookup_insert_eq]). }
  destruct (Substrate.known_safe address) eqn:Hsafe; simpl.
  { destruct (Hboth (Substrate.mkResult (Some address)
                       (Some (keccak256 bytecode)) true None
                       (Some "Known safe contract") None
                       (Some Substrate.default_hooks)
                       (Some (keccak256 bytecode)) None None)) as [H1 H2].
    auto. }
  destruct heuristic_only; simpl;
    match goal with
    | |- Substrate.substrateCache (Substrate.cache_and_save _ _ _ ?r _) !! _
         = _ /\ _ => destruct (Hboth r) as [H1 H2]
    end;
    repeat split; try assumption;
    repeat match goal with |- context [if ?b then _ else _] =>
      destruct b end; reflexivity.
Qed.

(** X14.  An analysis made by the decompiler branch is served from the
    cache for the 5824 seconds that follow: a second call for the same
    address within that time returns the same object and leaves the cache
    as it is, whatever the provider and the decompiler would answer. *)
Theorem fresh_analysis_is_served (env env' : Substrate.Env)
    (address : string) (s : Substrate.State) (bytecode : string) :
  Substrate.cached env address s = None ->
  Substrate.fetchBytecode env = Some bytecode ->
  Substrate.known_safe address = false -> heuristic_only = false ->
  keccak256 bytecode <> "" ->
  Substrate.now env' - Substrate.now_result env < 5824000 ->
  analyzeContract env' address (snd (analyzeContract env address s))
  = analyzeContract env address s.
Proof.
  intros Hmiss Hfetch Hsafe Hcfg Hne Hage.
  destruct (analyzeContract_cached_under_address env address s bytecode
              Hmiss Hfetch) as (Haddr & _ & Hproof & Ht).
  rewrite Hsafe, Hcfg in Ht. simpl in Ht.
  unfold Substrate.analyzeContract at 1.
  rewrite (cached_fresh env' address _ _ _ _ Haddr Hproof Hne Ht Hage).
  now destruct (analyzeContract env address s).
Qed.

(** X15.  The objects cached for a known safe contract, or under the
    heuristic configuration, carry no [timestamp], so their age is counted
    from 1970: at any clock reading of 5824000 ms or more they are not
    served, and the next call fetches the bytecode again and answers [No
    bytecode] when that fails. *)
Theorem untimed_analysis_is_not_served (env env' : Substrate.Env)
    (address : string) (s : Substrate.State) (bytecode : string) :
  Substrate.cached env address s = None ->
  Substrate.fetchBytecode env = Some bytecode ->
  Substrate.known_safe address || heuristic_only = true ->
  5824000 <= Substrate.now env' ->
  let s' := snd (analyzeContract env address s) in
  Substrate.cached env' address s' = None
  /\ (Substrate.fetchBytecode env' = None ->
      Substrate.audit_pass (fst (analyzeContract env' address s')) = false
      /\ Substrate.reason (fst (analyzeContract env' address s'))
         = Some "No bytecode").
Proof.
  intros Hmiss Hfetch Hcfg Hnow s'.
  destruct (analyzeContract_cached_under_address env address s bytecode
              Hmiss Hfetch) as (Haddr & _ & _ & Ht).
  rewrite Hcfg in Ht.
  assert (Substrate.cached env' address s' = None) as Hmiss'
    by (eapply cached_untimed; eassumption).
  split; [exact Hmiss'|]. intros Hfail.
  unfold Substrate.analyzeContract. rewrite Hmiss', Hfail. auto.
Qed.

(** The fields of a passing answer that the decompiler did not shape. *)
Lemma passing_answer_fields (env : Substrate.Env) (address : string)
    (s : Substrate.State) :
  Substrate.cached env address s = None ->
  Substrate.audit_pass (fst (analyzeContract env address s)) = true ->
  Substrate.known_safe address || heuristic_only = true
  \/ Substrate.decompiled env = None ->
  exists bytecode,
    Substrate.fetchBytecode env = Some bytecode
    /\ Substrate.as_read (fst (analyzeContract env address s))
       = Index.mkAnalysis true None (Some Substrate.default_hooks) address
           (keccak256 bytecode) (keccak256 bytecode).
Proof.
  intros Hmiss. unfold Substrate.analyzeContract. rewrite Hmiss.
  destruct (Substrate.fetchBytecode env) as [bytecode|]; [|discriminate].
  cbv zeta. intros Hpass Hhooks. exists bytecode. split; [reflexivity|].
  destruct (Substrate.known_safe address) eqn:Hsafe; [reflexivity|].
  destruct heuristic_only eqn:Hcfg.
  - revert Hpass. rewrite size_check.
    destruct (202 <=? String.length bytecode)%nat;
      destruct (Substrate.includes "ff" bytecode); simpl;
      try discriminate; reflexivity.
  - destruct Hhooks as [Hhooks|Hnone]; [discriminate|].
    revert Hpass. rewrite Hnone, size_check.
    destruct (202 <=? String.length bytecode)%nat; simpl;
      [|discriminate].
    intros Hpass. unfold Substrate.as_read. simpl. rewrite Hpass.
    reflexivity.
Qed.
End OracleFacts.

Section OracleAndStrategist.
Variable keccak256 : string -> string.
Variable DECOMPILER_URL : string.
Variable keccak256_jam : Jam -> string.

(** X16.  A passing answer of the oracle whose hooks are the defaults (the
    decompiler was not consulted, or gave nothing) always leads the
    Strategist to build a record: it targets the address analysed, proves
    it by the hash of the bytecode fetched, and hooks its two steps on
    [swap] and [swapExactETHForTokens]. *)
Theorem oracle_answer_becomes_record (env : Substrate.Env)
    (address : string) (s : Substrate.State)
    (cycle : Index.CycleEnv) (state : Index.State) :
  let answer :=
    fst (Substrate.analyzeContract keccak256 DECOMPILER_URL env address s) in
  Substrate.cached env address s = None ->
  Substrate.audit_pass answer = true ->
  Substrate.known_safe address
  || (String.eqb DECOMPILER_URL ""
      || Substrate.includes "example.com" DECOMPILER_URL) = true
  \/ Substrate.decompiled env = None ->
  exists bytecode jam jam_meta,
    Substrate.fetchBytecode env = Some bytecode
    /\ fst (Index.generateJam keccak256_jam cycle state
              (Substrate.as_read answer))
       = Some (jam, keccak256_jam jam)
    /\ meta jam = Some jam_meta
    /\ audit_pass jam_meta = true
    /\ target_contract jam_meta = address
    /\ bytecode_proof jam_meta = keccak256 bytecode
    /\ map hook (proverb jam) = [Some "swap"; Some "swapExactETHForTokens"].
Proof.
  intros answer Hmiss Hpass Hhooks.
  destruct (passing_answer_fields keccak256 DECOMPILER_URL env address s
              Hmiss Hpass Hhooks) as (bytecode & Hfetch & Hread).
  exists bytecode. fold answer in Hread. rewrite Hread.
  unfold Index.generateJam. cbn [Index.a_audit_pass Index.a_bait_hooks negb].
  cbv zeta. eexists _, _. split; [exact Hfetch|].
  split; [reflexivity|]. cbn [meta proverb fst]. split; [reflexivity|].
  cbn [audit_pass target_contract bytecode_proof Index.a_address
         Index.a_bytecode_proof].
  repeat split.
  destruct (Index.selectOptimalPattern _ _); reflexivity.
Qed.
End OracleAndStrategist.

Lemma audit_verdict_witness :
  Substrate.audit_pass
    (fst (Substrate.analyzeContract (fun _ => "0xproof")
            "https://api.evmdecompiler.com/decompile"
            (Substrate.mkEnv 1700000000000 (Resolved (Some "0x6080ff")) None
               1700000000500 "0.000" "0.001" true)
            "0x4200000000000000000000000000000000000006"
            (Substrate.mkState ∅ ∅)))
  = true.
Proof.
  apply (audit_verdict (fun _ => "0xproof")
           "https://api.evmdecompiler.com/decompile"); [reflexivity|].
  exists "0x6080ff". split; [reflexivity|]. left. reflexivity.
Defined.

Lemma fresh_analysis_is_served_witness :
  let analyze :=
    Substrate.analyzeContract (fun _ => "0xproof")
      "https://api.evmdecompiler.com/decompile" in
  analyze
    (Substrate.mkEnv 1700000600000 Rejected None 1700000600000 "" "" false)
    "0x00000000000000000000000000000000000000aa"
    (snd (analyze first_analysis "0x00000000000000000000000000000000000000aa"
            (Substrate.mkState ∅ ∅)))
  = analyze first_analysis "0x00000000000000000000000000000000000000aa"
      (Substrate.mkState ∅ ∅).
Proof.
  apply (fresh_analysis_is_served (fun _ => "0xproof")
           "https://api.evmdecompiler.com/decompile" first_analysis
           (Substrate.mkEnv 1700000600000 Rejected None 1700000600000 "" ""
              false)
           "0x00000000000000000000000000000000000000aa"
           (Substrate.mkState ∅ ∅) plain_bytecode);
    try reflexivity. discriminate.
Defined.

Lemma untimed_analysis_is_not_served_witness :
  let analyze :=
    Substrate.analyzeContract (fun _ => "0xproof")
      "https://api.evmdecompiler.com/decompile" in
  let s' :=
    snd (analyze first_analysis "0x4200000000000000000000000000000000000006"
           (Substrate.mkState ∅ ∅)) in
  Substrate.cached
    (Substrate.mkEnv 1700000600000 Rejected None 1700000600000 "" "" false)
    "0x4200000000000000000000000000000000000006" s'
  = None.
Proof.
  apply (untimed_analysis_is_not_served (fun _ => "0xproof")
           "https://api.evmdecompiler.com/decompile" first_analysis
           (Substrate.mkEnv 1700000600000 Rejected None 1700000600000 "" ""
              false)
           "0x4200000000000000000000000000000000000006"
           (Substrate.mkState ∅ ∅) plain_bytecode);
    try reflexivity. simpl. lia.
Defined.

Lemma oracle_answer_becomes_record_witness :
  exists jam,
    fst (Index.generateJam (fun _ => "0xjam") aligned_env
           (Index.initial_state ∅)
           (Substrate.as_read
              (fst (Substrate.analyzeContract (fun _ => "0xproof")
                      "https://api.evmdecompiler.com/decompile"
                      first_analysis
                      "0x4200000000000000000000000000000000000006"
                      (Substrate.mkState ∅ ∅)))))
    = Some (jam, "0xjam")
    /\ map hook (proverb jam) = [Some "swap"; Some "swapExactETHForTokens"].
Proof.
  destruct (oracle_answer_becomes_record (fun _ => "0xproof")
              "https://api.evmdecompiler.com/decompile" (fun _ => "0xjam")
              first_analysis "0x4200000000000000000000000000000000000006"
              (Substrate.mkState ∅ ∅) aligned_env (Index.initial_state ∅))
    as (bytecode & jam & jam_meta & _ & Hjam & _ & _ & _ & _ & Hhooks);
    try reflexivity.
  - left. reflexivity.
  - exists jam. split; [exact Hjam|exact Hhooks].
Defined.

(** ** The amplifier's helpers *)

Section AmplifierToolFacts.
Import AmplifierTools.

Lemma nonces_above (answers : list (Awaited Z)) (current : Z) :
  Forall (fun nonce => current < nonce) (nonces answers (Some current)).
Proof.
  revert current. induction answers as [|[|pending] rest IH]; intros current;
    simpl; [constructor|apply IH|].
  constructor.
  - destruct (Z.ltb_spec current pending); lia.
  - eapply Forall_impl; [apply IH|]. simpl. intros n Hn.
    destruct (Z.ltb_spec current pending); lia.
Qed.

(** X17.  The nonces [getNextNonce] hands out over any run of calls are
    strictly increasing, whatever the provider answers, and a call whose
    request fails leaves [currentNonce] as it was. *)
Theorem nonces_strictly_increase (answers : list (Awaited Z))
    (currentNonce : option Z) :
  (forall (i j : nat) (earlier later : Z),
     (i < j)%nat ->
     nonces answers currentNonce !! i = Some earlier ->
     nonces answers currentNonce !! j = Some later ->
     earlier < later)
  /\ snd (getNextNonce Rejected currentNonce) = currentNonce.
Proof.
  split; [|reflexivity]. revert currentNonce.
  induction answers as [|[|pending] rest IH]; intros currentNonce; simpl.
  - intros i j earlier later _ H. now rewrite lookup_nil in H.
  - apply IH.
  - intros [|i] [|j] earlier later Hij; simpl; try lia.
    + intros [= <-] Hlater.
      eapply Forall_lookup_1 in Hlater; [|apply nonces_above].
      exact Hlater.
    + apply IH. lia.
Qed.

Lemma tail_drop {A} (k : nat) (l : list A) : tail (drop k l) = drop (S k) l.
Proof.
  replace (S k) with (k + 1)%nat by lia. rewrite <- drop_drop.
  now destruct (drop k l).
Qed.

(** X18.  [recentGasPrices] holds the readings passed to
    [updateGasHistory] in the order they came, and only the last fifty of
    them once there are more. *)
Theorem gas_history_keeps_last_fifty (readings : list Z) :
  gas_history readings
  = drop (length readings - MAX_HISTORY) (map formatGwei readings)
  /\ (length (gas_history readings) <= MAX_HISTORY)%nat.
Proof.
  assert (gas_history readings
          = drop (length readings - MAX_HISTORY) (map formatGwei readings))
    as E.
  { induction readings as [|gasPrice readings IH] using rev_ind;
      [reflexivity|].
    unfold gas_history in *. rewrite fold_left_app. simpl. rewrite IH.
    unfold updateGasHistory. cbv zeta.
    rewrite map_app, length_app. simpl.
    rewrite <- drop_app_le by (rewrite length_map; lia).
    rewrite !length_app, length_drop, length_map. simpl.
    destruct (Nat.ltb_spec MAX_HISTORY
                (length readings - (length readings - MAX_HISTORY) + 1)).
    - rewrite tail_drop. f_equal. unfold MAX_HISTORY in *. lia.
    - f_equal. unfold MAX_HISTORY in *. lia. }
  split; [exact E|]. rewrite E, length_drop, length_map. lia.
Qed.

Lemma amplifier_multiplier_cases (now : Z) :
  let c := getConsensusMultiplier now in
  c = 2.618%Q \/ c = 1.618%Q \/ c = 1.382%Q \/ c = 1%Q.
Proof.
  unfold getConsensusMultiplier.
  repeat destruct (ext_leb _ _); tauto.
Qed.

(** X19.  [calculateTradeAmount] returns 0 for a missing or non-positive
    gas price, and otherwise an amount between 620000000000 and
    6105600000000 wei, whatever the gas price, the confidence and the
    time of day: above the dust threshold of [isSemanticallyLegible], so
    that the legibility of a signal then rests on its step and its path
    alone. *)
Theorem trade_amount_above_dust (now : Z) (signalConfidence : Q)
    (gasPrice : option Z) (step : Step) (swapPath : list string) :
  let amount := calculateTradeAmount now signalConfidence gasPrice in
  (match gasPrice with
   | Some price => price <= 0
   | None => True
   end ->
   amount = 0
   /\ Amplifier.isSemanticallyLegible step amount swapPath = false)
  /\ (forall price,
        gasPrice = Some price -> 0 < price ->
        620000000000 <= amount <= 6105600000000
        /\ Amplifier.MIN_SIGNAL_THRESHOLD <= amount
        /\ Amplifier.isSemanticallyLegible step amount swapPath
           = Amplifier.isSemanticallyLegible step
               Amplifier.MIN_SIGNAL_THRESHOLD swapPath).
Proof.
  intros amount. split.
  - intros Hbad.
    assert (amount = 0) as E.
    { unfold amount, calculateTradeAmount.
      destruct gasPrice as [price|]; [|reflexivity].
      destruct (Z.leb_spec price 0); [reflexivity|lia]. }
    split; [exact E|]. rewrite E. reflexivity.
  - intros price -> Hpos.
    assert (620000000000 <= amount <= 6105600000000) as Hrange.
    { unfold amount, calculateTradeAmount.
      destruct (Z.leb_spec price 0); [lia|]. cbv zeta.
      destruct (amplifier_multiplier_cases now) as [Hc|[Hc|[Hc|Hc]]];
        simpl in Hc; rewrite Hc;
        destruct (negb (Qle_bool (formatGwei price) 75));
        destruct (negb (Qle_bool (formatGwei price) 50));
        destruct (negb (Qle_bool (formatGwei price) 25));
        destruct (negb (Qle_bool signalConfidence 0.95));
        vm_compute; split; discriminate. }
    split; [exact Hrange|].
    assert (Amplifier.MIN_SIGNAL_THRESHOLD <= amount) as Hdust
      by (unfold Amplifier.MIN_SIGNAL_THRESHOLD; lia).
    split; [exact Hdust|].
    unfold Amplifier.isSemanticallyLegible.
    destruct (Z.eqb_spec amount 0); [lia|].
    destruct (Z.leb_spec Amplifier.MIN_SIGNAL_THRESHOLD amount); [|lia].
    reflexivity.
Qed.
End AmplifierToolFacts.

(** ** The amplifier's lock *)

Section AmplifierLock.
Import Amplifier.

Lemma amplify_unaudited_returns env hash s gas :
  gasPrice env = Resolved gas ->
  audited (Index.JAMStore.retrieve hash (jams s)) = false ->
  amplify env hash s = Returned s.
Proof.
  unfold amplify, audited. intros -> H.
  destruct (Index.JAMStore.retrieve hash (jams s)) as [jamData|];
    [|reflexivity].
  destruct (meta jamData) as [jam_meta|]; [|reflexivity].
  now rewrite H.
Qed.

(** X20.  A signal of the emitter whose record is missing or fails the
    audit leaves [isAmplifying] set: [handleSignal] returns from line 773
    without releasing the lock, and from then on every signal, audited or
    not, is turned away at line 712. *)
Theorem unaudited_signal_jams_the_amplifier (env : SignalEnv)
    (hash : string) (s : State) (tx : TxInfo) (gas : Z) :
  isAmplifying s = false ->
  getTransaction env = Resolved (Some tx) ->
  from_emitter tx = true ->
  to_vault tx && negb (decodes_signal tx) = false ->
  gasPrice env = Resolved gas ->
  audited (Index.JAMStore.retrieve hash (jams s)) = false ->
  let s' := handleSignal env hash s in
  isAmplifying s' = true
  /\ actions s' = actions s
  /\ forall env' hash', handleSignal env' hash' s' = s'.
Proof.
  intros Hfree Htx Hfrom Hvault Hgas Haudit s'.
  assert (s' = set_lock s true) as E.
  { unfold s', handleSignal. simpl. unfold attempt.
    rewrite Hfree, Htx, Hfrom, Hvault. simpl.
    now rewrite (amplify_unaudited_returns env hash (set_lock s true) gas). }
  rewrite E. split; [reflexivity|]. split; [reflexivity|].
  intros env' hash'. now apply handleSignal_locked.
Qed.
End AmplifierLock.

Lemma trade_amount_above_dust_witness :
  620000000000
  <= AmplifierTools.calculateTradeAmount 48060000 (9 # 10) (Some 1000000)
  <= 6105600000000.
Proof.
  destruct (trade_amount_above_dust 48060000 (9 # 10) (Some 1000000)
              (mkStep "WETH" "USDC" "SWAP" "AMPLIFIER" None) [])
    as [_ H].
  destruct (H 1000000 eq_refl) as (Hrange & _); [lia|exact Hrange].
Defined.

Lemma unaudited_signal_jams_the_amplifier_witness :
  let s' :=
    Amplifier.handleSignal smooth_env "0xbad"
      (Amplifier.mkState false [] [] {[ "0xbad" := unaudited_jam ]} []) in
  Amplifier.isAmplifying s' = true
  /\ Amplifier.handleSignal smooth_env "0xjam" s' = s'.
Proof.
  destruct (unaudited_signal_jams_the_amplifier smooth_env "0xbad"
              (Amplifier.mkState false [] [] {[ "0xbad" := unaudited_jam ]} [])
              (Amplifier.mkTx true true true) 1000000)
    as (Hlock & _ & Hlater); try reflexivity.
  split; [exact Hlock|apply Hlater].
Defined.

(** ** The choice of DEX *)

Section DexFacts.
Import DexConfig.

Lemma getRecursiveDEXCascade_order (gasPrice tradeSize : option Q)
    (depth : Z) :
  getRecursiveDEXCascade gasPrice tradeSize depth
  = [UNISWAP_V3; ROCKETSWAP; AERODROME].
Proof.
  unfold getRecursiveDEXCascade. cbv zeta.
  repeat match goal with |- context [if ?b then _ else _] =>
    destruct b end; reflexivity.
Qed.

(** X21.  The choice of DEX does not depend on its inputs:
    [selectOptimalDEX] always answers Uniswap V3 with RocketSwap as
    fallback, and [getRecursiveDEXCascade] always answers Uniswap V3,
    RocketSwap, Aerodrome in this order, for every gas price, trade size
    and depth. *)
Theorem dex_choice_is_constant (gasPrice tradeSize : option Q) (depth : Z) :
  primary (selectOptimalDEX gasPrice tradeSize) = UNISWAP_V3
  /\ fallback (selectOptimalDEX gasPrice tradeSize) = ROCKETSWAP
  /\ getRecursiveDEXCascade gasPrice tradeSize depth
     = [UNISWAP_V3; ROCKETSWAP; AERODROME].
Proof.
  split; [|split; [|apply getRecursiveDEXCascade_order]];
    unfold selectOptimalDEX; cbv zeta;
    repeat match goal with |- context [if ?b then _ else _] =>
      destruct b end; reflexivity.
Qed.
End DexFacts.

(** ** Bait swaps per delivery *)

Section BaitSwaps.
Import Amplifier.

Lemma bait_swaps_act hash s a :
  bait_swaps hash (actions (act s a))
  = (bait_swaps hash (actions s)
     + match a with
       | sendTransaction _ h => if String.eqb h hash then 1 else 0
       | _ => 0
       end)%nat.
Proof.
  unfold bait_swaps, act. simpl. rewrite List.filter_app, length_app. simpl.
  destruct a as [r h| | | |]; simpl; try lia.
  destruct (String.eqb h hash); simpl; lia.
Qed.

Lemma try_cascade_swaps env hash has_mirror todo index s :
  (bait_swaps hash
     (actions
        (final_state (fst (try_cascade env hash has_mirror todo index s))))
   <= bait_swaps hash (actions s) + length todo)%nat.
Proof.
  revert index s. induction todo as [|dex rest IH]; intros index s;
    simpl; [lia|].
  assert (forall s' cascade,
            (bait_swaps hash (actions s') <= bait_swaps hash (actions s) + 1)%nat ->
            (bait_swaps hash
               (actions
                  (final_state
                     (fst (if is_last_router dex cascade
                           then (Thrown s', false)
                           else try_cascade env hash has_mirror rest
                                  (S index) s'))))
             <= bait_swaps hash (actions s) + S (length rest))%nat)
    as Hfailed.
  { intros s' cascade Hs'. destruct (is_last_router dex cascade);
      simpl; [lia|]. specialize (IH (S index) s'). lia. }
  pose proof (bait_swaps_act hash s (sendTransaction (ROUTER dex) hash))
    as Hact. cbv beta iota in Hact. rewrite String.eqb_refl in Hact.
  pose proof (bait_swaps_act hash
                (act s (sendTransaction (ROUTER dex) hash))
                (sendRawBundle (ROUTER dex) hash)) as Hbundle.
  cbv beta iota in Hbundle.
  destruct (dex_outcome env index); cbv beta iota zeta;
    try (apply Hfailed; lia);
    destruct has_mirror; cbn [negb fst final_state];
    try (apply Hfailed; lia); lia.
Qed.

Lemma actions_set_jams s j : actions (set_jams s j) = actions s.
Proof. reflexivity. Qed.

Lemma actions_note_amplified s hash :
  actions (note_amplified s hash) = actions s.
Proof. reflexivity. Qed.

Lemma bridge_with_retries_swaps env hash topology left attempt s :
  bait_swaps hash (actions (bridge_with_retries env hash topology left attempt s))
  = bait_swaps hash (actions s).
Proof.
  revert attempt s. induction left as [|left IH]; intros attempt s;
    [reflexivity|].
  cbn [bridge_with_retries]. cbv zeta.
  destruct (bridge_ok env attempt).
  - now rewrite actions_set_jams, bait_swaps_act, Nat.add_0_r.
  - rewrite IH. now rewrite bait_swaps_act, Nat.add_0_r.
Qed.

Lemma after_swap_swaps env hash jamData myStep gas s :
  bait_swaps hash
    (actions (final_state (after_swap env hash jamData myStep gas s)))
  = bait_swaps hash (actions s).
Proof.
  unfold after_swap.
  destruct (MAX_GAS_PRICE env <? gas)%Z; [reflexivity|].
  destruct (negb _); [reflexivity|]. cbv zeta.
  destruct (receipt env); [reflexivity|].
  destruct (resolve_token (to myStep)); [|reflexivity].
  destruct (tokenBalance env) as [|balance]; [reflexivity|].
  cbn [final_state].
  destruct (recursive_signal env);
    rewrite ?bait_swaps_act, ?bridge_with_retries_swaps, ?Nat.add_0_r;
    destruct (0 <? balance)%Z;
    rewrite ?bait_swaps_act, ?Nat.add_0_r, ?actions_note_amplified;
    reflexivity.
Qed.

Lemma amplify_swaps env hash s :
  (bait_swaps hash (actions (final_state (amplify env hash s)))
   <= bait_swaps hash (actions s) + length (cascade env))%nat.
Proof.
  unfold amplify.
  destruct (gasPrice env) as [|gas]; [simpl; lia|].
  destruct (Index.JAMStore.retrieve hash (jams s)) as [jamData|];
    [|simpl; lia].
  destruct (meta jamData) as [jam_meta|]; [|simpl; lia].
  destruct (negb (audit_pass jam_meta)); [simpl; lia|].
  destruct (find_actor "AMPLIFIER" (proverb jamData)) as [myStep|];
    [|simpl; lia].
  destruct (negb (String.eqb (action myStep) "SWAP")); [simpl; lia|].
  cbv zeta.
  destruct (resolve_token (from myStep)) as [fromToken|]; [|simpl; lia].
  destruct (resolve_token (to myStep)) as [toToken|]; [|simpl; lia].
  destruct (getBalance env); [simpl; lia|].
  destruct (negb (isSemanticallyLegible _ _ _)); [simpl; lia|].
  match goal with
  | |- context [try_cascade env hash ?hm ?todo 0 ?s0] =>
      pose proof (try_cascade_swaps env hash hm todo 0 s0) as Hc;
      destruct (try_cascade env hash hm todo 0 s0) as [[s'|s'|s'] [|]]
  end;
    simpl in Hc |- *; rewrite ?after_swap_swaps; lia.
Qed.

Lemma retry_loop_locked env hash left s :
  isAmplifying s = true ->
  actions (retry_loop env hash left s) = actions s.
Proof.
  intros H. destruct left as [|left]; simpl; [reflexivity|].
  unfold attempt. now rewrite H.
Qed.

Lemma attempt_swaps env hash s :
  (bait_swaps hash (actions (final_state (attempt env hash s)))
   <= bait_swaps hash (actions s) + length (cascade env))%nat
  /\ (forall s', attempt env hash s = Thrown s' ->
                 isAmplifying s' = true /\ actions s' = actions s).
Proof.
  unfold attempt.
  destruct (isAmplifying s); [split; [simpl; lia|discriminate]|].
  cbv zeta.
  destruct (getTransaction env) as [|[tx|]];
    [split; [simpl; lia|intros s' [= <-]; auto]
    | |split; [simpl; lia|discriminate]].
  destruct (negb (from_emitter tx)); [split; [simpl; lia|discriminate]|].
  destruct (to_vault tx && negb (decodes_signal tx));
    [split; [simpl; lia|discriminate]|].
  pose proof (amplify_swaps env hash (set_lock s true)) as Ha.
  destruct (amplify env hash (set_lock s true)); simpl in Ha |- *;
    (split; [exact Ha|discriminate]).
Qed.

(** X22.  One delivery of a signal sends at most one bait swap per DEX of
    the cascade: whatever the chain answers, [handleSignal] adds no more
    [sendTransaction] calls for the hash than the cascade is long, hence
    at most three with the cascade of dex-config.js. *)
Theorem bait_swaps_per_delivery (env : SignalEnv) (hash : string)
    (s : State) :
  (bait_swaps hash (actions (handleSignal env hash s))
   <= bait_swaps hash (actions s) + length (cascade env))%nat
  /\ (forall gasPrice tradeSize depth,
        cascade env
        = DexConfig.getRecursiveDEXCascade gasPrice tradeSize depth ->
        (bait_swaps hash (actions (handleSignal env hash s))
         <= bait_swaps hash (actions s) + 3)%nat).
Proof.
  assert (bait_swaps hash (actions (handleSignal env hash s))
          <= bait_swaps hash (actions s) + length (cascade env))%nat as H.
  { unfold handleSignal, MAX_RETRIES.
    cbn [retry_loop].
    destruct (attempt_swaps env hash s) as [Hle Hthrown].
    destruct (attempt env hash s) as [s'|s'|s'] eqn:E; simpl in Hle;
      [exact Hle|exact Hle|].
    destruct (Hthrown s' eq_refl) as [Hlock Hsame].
    assert (attempt env hash s' = Returned s') as E'
      by (unfold attempt; now rewrite Hlock).
    rewrite E'. lia. }
  split; [exact H|].
  intros gasPrice tradeSize depth Hc. rewrite Hc in H.
  rewrite getRecursiveDEXCascade_order in H. exact H.
Qed.
End BaitSwaps.

(** ** The mirror's wait *)

Section MirrorWait.
Import MirrorTiming.

Lemma Qle_bool_false (a b : Q) : Qle_bool a b = false -> (b < a)%Q.
Proof.
  intros H. apply Qnot_le_lt. rewrite <- Qle_bool_iff. congruence.
Qed.

Lemma baseWait_range (minDistance : ExtZ) :
  (1000 <= baseWait minDistance /\ baseWait minDistance <= 157080)%Q.
Proof.
  destruct minDistance as [d|]; simpl; [|split; lra].
  destruct (Qle_bool (inject_Z d) 3) eqn:E3; [split; lra|].
  apply Qle_bool_false in E3.
  destruct (Qle_bool (inject_Z d) 8) eqn:E8.
  { apply Qle_bool_iff in E8. unfold PHI. split; lra. }
  apply Qle_bool_false in E8.
  destruct (Qle_bool (inject_Z d) 13) eqn:E13.
  { apply Qle_bool_iff in E13. unfold PHI. split; lra. }
  apply Qle_bool_false in E13.
  split.
  - apply Q.min_glb; unfold PHI; lra.
  - apply Qle_trans with (2.618 * 60 * 1000)%Q; [apply Q.le_min_r|lra].
Qed.

Lemma baseWait_mono (d d' : Z) :
  d <= d' -> (baseWait (Fin d) <= baseWait (Fin d'))%Q.
Proof.
  intros Hd. rewrite Zle_Qle in Hd. simpl.
  destruct (Qle_bool (inject_Z d) 3) eqn:E3;
    destruct (Qle_bool (inject_Z d') 3) eqn:E3';
    try apply Qle_bool_iff in E3; try apply Qle_bool_iff in E3';
    try apply Qle_bool_false in E3; try apply Qle_bool_false in E3';
    try lra;
    destruct (Qle_bool (inject_Z d) 8) eqn:E8;
    destruct (Qle_bool (inject_Z d') 8) eqn:E8';
    try apply Qle_bool_iff in E8; try apply Qle_bool_iff in E8';
    try apply Qle_bool_false in E8; try apply Qle_bool_false in E8';
    try (unfold PHI; lra);
    destruct (Qle_bool (inject_Z d) 13) eqn:E13;
    destruct (Qle_bool (inject_Z d') 13) eqn:E13';
    try apply Qle_bool_iff in E13; try apply Qle_bool_iff in E13';
    try apply Qle_bool_false in E13; try apply Qle_bool_false in E13';
    try (unfold PHI; lra);
    try (apply Q.min_glb; unfold PHI; lra).
  apply Q.min_le_compat_r. unfold PHI. lra.
Qed.

Lemma baseWait_top (d : Z) : (baseWait (Fin d) <= baseWait Infinity)%Q.
Proof. destruct (baseWait_range (Fin d)) as [_ H]. simpl (baseWait Infinity). lra. Qed.

(** X23.  The mirror waits between 0.9 seconds and 2.618 minutes before
    its step: for a confidence between 0 and 1, [calculateOptimalWaitTime]
    lies between 900 and 157080 ms whatever the distance, and it does not
    decrease when the distance to the nearest window grows.  With the
    confidence 0.9 of line 380 the wait is between 910 and 142942 ms at
    every instant. *)
Theorem mirror_wait_bounds (signalConfidence : Q) :
  (0 <= signalConfidence <= 1)%Q ->
  (forall minDistance,
     900 <= calculateOptimalWaitTime minDistance signalConfidence <= 157080)
  /\ (forall d d',
        d <= d' ->
        calculateOptimalWaitTime (Fin d) signalConfidence
        <= calculateOptimalWaitTime (Fin d') signalConfidence
        <= calculateOptimalWaitTime Infinity signalConfidence)
  /\ (forall now, 910 <= waitTime now <= 142942).
Proof.
  intros [Hc0 Hc1].
  split; [|split].
  - intros minDistance. unfold calculateOptimalWaitTime.
    destruct (baseWait_range minDistance) as [Hlo Hhi].
    split.
    + change 900 with (Qfloor 900). apply Qfloor_resp_le. nra.
    + change 157080 with (Qfloor 157080). apply Qfloor_resp_le. nra.
  - intros d d' Hd. unfold calculateOptimalWaitTime.
    pose proof (baseWait_mono d d' Hd) as Hm.
    pose proof (baseWait_top d') as Ht.
    split; apply Qfloor_resp_le; nra.
  - intros now. unfold waitTime, calculateOptimalWaitTime.
    destruct (baseWait_range (Index.getMinDistanceToConsensusWindow now))
      as [Hlo Hhi].
    split.
    + change 910 with (Qfloor 910). apply Qfloor_resp_le. lra.
    + change 142942 with (Qfloor 142942.8). apply Qfloor_resp_le. lra.
Qed.
End MirrorWait.

Lemma mirror_wait_bounds_witness :
  900 <= MirrorTiming.calculateOptimalWaitTime (Fin 5) 0.5 <= 157080.
Proof.
  apply (mirror_wait_bounds 0.5); split; lra.
Defined.

(** ** Deliveries to the mirror *)

Section MirrorDeliveries.
Import Mirror.




End MirrorDeliveries.

(** ** The requests of the gist updater *)

Section GistRequests.
Import Gist.

Lemma valid_invocations_snoc events e :
  valid_invocations (events ++ [e])
  = (valid_invocations events + if is_valid_invocation e then 1 else 0)%nat.
Proof.
  unfold valid_invocations. rewrite List.filter_app, length_app. simpl.
  now destruct (is_valid_invocation e).
Qed.

Lemma gist_invariant_step events s e :
  gist_invariant events s -> gist_invariant (events ++ [e]) (step s e).
Proof.
  intros (Hlock & Hcontent & Hpushes & Hbound & Hacc & Hphase).
  assert (forall c,
             (exists now, In (Invoke now (ValidJSON c)) events) ->
             exists now, In (Invoke now (ValidJSON c)) (events ++ [e]))
    as Hweak.
  { intros c [now Hin]. exists now. apply in_or_app. now left. }
  assert (valid_invocations events <= valid_invocations (events ++ [e]))%nat
    as Hcount by (rewrite valid_invocations_snoc; lia).
  assert (gist_invariant (events ++ [e]) s) as Hsame.
  { unfold gist_invariant. unfold MAX_RETRIES in *.
    split; [exact Hlock|]. split; [auto|]. split; [auto|].
    split; [lia|]. split; [lia|exact Hphase]. }
  destruct e as [now file|now response|]; simpl.
  - destruct (isUpdating s) eqn:Hbusy; [exact Hsame|].
    destruct (now - lastUpdateTime s <? MIN_UPDATE_INTERVAL); [exact Hsame|].
    destruct file as [| | | |jamContent]; try exact Hsame.
    assert (phase s = Idle) as Hidle.
    { destruct (phase s) eqn:Hp; [reflexivity| |];
        (assert (false = true) by (apply Hlock; discriminate);
         discriminate). }
    rewrite Hidle in *. simpl in *.
    assert (exists now0,
               In (Invoke now0 (ValidJSON jamContent))
                 (events ++ [Invoke now (ValidJSON jamContent)])) as Hnew.
    { exists now. apply in_or_app. right. now left. }
    unfold gist_invariant. simpl.
    rewrite valid_invocations_snoc, length_app. simpl.
    unfold MAX_RETRIES in *.
    split; [split; [discriminate|reflexivity]|].
    split; [intros _; exact Hnew|].
    split.
    { intros c Hin. apply in_app_or in Hin as [Hin|[<-|[]]];
        [apply Hweak; auto|exact Hnew]. }
    split; [lia|]. split; lia.
  - destruct (phase s) as [|i|i] eqn:Hp; try exact Hsame.
    simpl in *.
    assert (gist_invariant (events ++ [Answer now response]) (finish s))
      as Hdone.
    { unfold gist_invariant, finish. simpl. unfold MAX_RETRIES in *.
      split; [split; [discriminate|congruence]|].
      split; [congruence|]. split; [auto|]. split; [lia|].
      split; [lia|exact I]. }
    assert (forall t,
               gist_invariant (events ++ [Answer now response])
                 (failed (set_lastUpdateTime s t) i)) as Hfailed.
    { intros t. unfold failed, MAX_RETRIES in *.
      destruct (i =? 2 - 1)%nat eqn:Hi; [exact Hdone|].
      apply Nat.eqb_neq in Hi.
      unfold gist_invariant. simpl. unfold MAX_RETRIES.
      split; [split; [discriminate|intros _; apply Hlock; congruence]|].
      split; [intros _; apply Hweak, Hcontent; congruence|].
      split; [auto|]. split; [lia|]. split; lia. }
    destruct response.
    + unfold gist_invariant, finish, count_accepted, set_lastUpdateTime.
      simpl. unfold MAX_RETRIES in *.
      split; [split; [discriminate|congruence]|].
      split; [congruence|]. split; [auto|]. split; [lia|].
      split; [lia|exact I].
    + apply Hfailed.
    + apply (Hfailed (lastUpdateTime s)).
    + apply (Hfailed (lastUpdateTime s)).
  - destruct (phase s) as [|i|i] eqn:Hp; try exact Hsame.
    assert ((S i <? MAX_RETRIES)%nat = true) as ->
      by (apply Nat.ltb_lt; exact Hphase).
    simpl in *. unfold MAX_RETRIES in *.
    unfold gist_invariant, send. simpl. rewrite length_app. simpl.
    unfold MAX_RETRIES.
    split; [split; [discriminate|intros _; apply Hlock; congruence]|].
    split; [intros _; apply Hweak, Hcontent; congruence|].
    split.
    { intros c Hin. apply in_app_or in Hin as [Hin|[<-|[]]];
        [apply Hweak; auto|apply Hweak, Hcontent; congruence]. }
    split; [lia|]. split; lia.
Qed.

Lemma gist_invariant_run events :
  gist_invariant events (run initial_state events).
Proof.
  induction events as [|e events IH] using rev_ind.
  - unfold gist_invariant. simpl.
    split; [split; [discriminate|congruence]|].
    split; [congruence|]. split; [intros c []|]. split; [lia|].
    split; [lia|exact I].
  - unfold run. rewrite fold_left_app. simpl.
    now apply gist_invariant_step.
Qed.

(** X25.  The updater pushes nothing but documents it has validated, and
    not too often: after any sequence of calls, answers and wake-ups,
    every request sent carries the content of a file some call found to be
    valid JSON, at most [MAX_RETRIES] requests were sent per such call,
    no more pushes were accepted than requests sent, and the lock
    [isUpdating] is held exactly while a call is in flight. *)
Theorem gist_requests (events : list Event) :
  let s := run initial_state events in
  (forall c, In c (pushes s) ->
             exists now, In (Invoke now (ValidJSON c)) events)
  /\ (length (pushes s) <= MAX_RETRIES * valid_invocations events)%nat
  /\ (accepted s <= length (pushes s))%nat
  /\ (isUpdating s = true <-> phase s <> Idle).
Proof.
  intros s.
  destruct (gist_invariant_run events) as (Hlock & _ & Hpushes & Hbound & Hacc & _).
  fold s in Hlock, Hpushes, Hbound, Hacc.
  split; [exact Hpushes|]. split; [lia|]. split; [lia|exact Hlock].
Qed.
End GistRequests.

(** ** The watcher's debounce *)

Section WatcherFacts.
Import Watcher.

Lemma change_times_snoc events e :
  change_times (events ++ [e])
  = change_times events
    ++ match e with Change now => [now] | _ => [] end.
Proof.
  unfold change_times. rewrite flat_map_app. simpl.
  now rewrite app_nil_r.
Qed.

Lemma nondecreasing_snoc times x :
  nondecreasing (times ++ [x]) ->
  nondecreasing times /\ Forall (fun a => a <= x) times.
Proof.
  induction times as [|a times IH]; simpl.
  - intros _. split; [exact I|constructor].
  - intros [Ha Hrest]. apply List.Forall_app in Ha as [Ha Hx].
    destruct (IH Hrest) as [Hn Hle].
    split; [split; assumption|].
    constructor; [now inversion Hx|exact Hle].
Qed.

Lemma change_times_time events c :
  In c (change_times events) -> exists e, In e events /\ time e = c.
Proof.
  unfold change_times. rewrite in_flat_map.
  intros (e & He & Hc). exists e. split; [exact He|].
  destruct e; simpl in Hc; try contradiction. now destruct Hc.
Qed.

Lemma filter_filter_recent now now' (l : list Z) :
  now' <= now ->
  List.filter (fun time => now - time <? 3600000)
    (List.filter (fun time => now' - time <? 3600000) l)
  = List.filter (fun time => now - time <? 3600000) l.
Proof.
  intros Hle. induction l as [|a l IH]; simpl; [reflexivity|].
  destruct (now' - a <? 3600000) eqn:E'; simpl.
  - destruct (now - a <? 3600000); now rewrite IH.
  - assert ((now - a <? 3600000) = false) as ->; [|exact IH].
    apply Z.ltb_ge. apply Z.ltb_ge in E'. lia.
Qed.

Lemma watcher_invariant_step start events s e :
  Forall (fun e' => time e' <= time e) events ->
  watcher_invariant start events s ->
  watcher_invariant start (events ++ [e]) (step s e).
Proof.
  intros Hclock (Htimer & Hupdates & Hqueue & Hcount).
  assert (forall c, In c (change_times events) -> c <= time e) as Hpast.
  { intros c Hc. apply change_times_time in Hc as (e' & He' & <-).
    rewrite List.Forall_forall in Hclock. now apply Hclock. }
  assert (forall t,
             In t (updates s) ->
             t = start
             \/ In (Timers t) (events ++ [e])
                /\ exists c,
                     In c (change_times (events ++ [e]))
                     /\ c + DEBOUNCE_DELAY <= t
                     /\ forall c', In c' (change_times (events ++ [e])) ->
                                   c' <= c \/ t <= c') as Hupdates'.
  { intros t Ht. destruct (Hupdates t Ht) as [->|(Hin & c & Hc & Hd & Hall)];
      [now left|right].
    split; [apply in_or_app; now left|].
    exists c. rewrite change_times_snoc.
    split; [apply in_or_app; now left|]. split; [exact Hd|].
    intros c' Hc'. apply in_app_or in Hc' as [Hc'|Hc']; [auto|].
    destruct e; simpl in Hc'; try contradiction.
    destruct Hc' as [<-|[]]. right.
    rewrite List.Forall_forall in Hclock. apply (Hclock _ Hin). }
  assert (forall now',
             Forall (fun e' => time e' <= now') (events ++ [e]) ->
             Forall (fun e' => time e' <= now') events /\ time e <= now')
    as Hsplit.
  { intros now' H. apply List.Forall_app in H as [H1 H2].
    split; [exact H1|now inversion H2]. }
  destruct e as [now|now|now]; simpl in *.
  - assert (forall now',
               Forall (fun e' => time e' <= now') (events ++ [Change now]) ->
               List.filter (fun time => now' - time <? 3600000)
                 (List.filter (fun time => now - time <? 3600000)
                    (updateQueue s ++ [now]))
               = recent_changes now' (events ++ [Change now])) as Hqueue'.
    { intros now' H. apply Hsplit in H as [H1 H2]. simpl in H2.
      rewrite filter_filter_recent by exact H2.
      unfold recent_changes. rewrite change_times_snoc.
      rewrite !List.filter_app. f_equal. now apply Hqueue. }
    destruct (10 <? length _)%nat.
    + unfold watcher_invariant. simpl.
      split; [discriminate|]. split; [exact Hupdates'|].
      split; [exact Hqueue'|].
      rewrite change_times_snoc, length_app. simpl.
      destruct (debounceTimeout s); lia.
    + unfold watcher_invariant. simpl.
      split.
      { intros due [= <-]. exists now. rewrite change_times_snoc.
        split; [apply in_or_app; right; now left|].
        split; [reflexivity|].
        intros c' Hc'. apply in_app_or in Hc' as [Hc'|[<-|[]]]; [auto|lia]. }
      split; [exact Hupdates'|]. split; [exact Hqueue'|].
      rewrite change_times_snoc, length_app. simpl.
      destruct (debounceTimeout s); lia.
  - unfold watcher_invariant.
    rewrite change_times_snoc, app_nil_r.
    split; [exact Htimer|]. split.
    { intros t Ht. destruct (Hupdates' t Ht) as [->|(Hin & c & Hc & Hrest)];
        [now left|right].
      split; [exact Hin|]. exists c.
      rewrite change_times_snoc, app_nil_r in Hc, Hrest.
      now split. }
    split; [|exact Hcount].
    intros now' H. apply Hsplit in H as [H1 _].
    unfold recent_changes. rewrite change_times_snoc, app_nil_r.
    now apply Hqueue.
  - assert (watcher_invariant start (events ++ [Timers now]) s) as Hsame.
    { unfold watcher_invariant.
      rewrite change_times_snoc, app_nil_r.
      split; [exact Htimer|]. split.
      { intros t Ht.
        destruct (Hupdates' t Ht) as [->|(Hin & c & Hc & Hrest)];
          [now left|right].
        split; [exact Hin|]. exists c.
        rewrite change_times_snoc, app_nil_r in Hc, Hrest.
        now split. }
      split; [|exact Hcount].
      intros now' H. apply Hsplit in H as [H1 _].
      unfold recent_changes. rewrite change_times_snoc, app_nil_r.
      now apply Hqueue. }
    destruct (debounceTimeout s) as [due|] eqn:Hdue; [|exact Hsame].
    destruct (due <=? now) eqn:Hfire; [|exact Hsame].
    apply Z.leb_le in Hfire.
    destruct Hsame as (_ & Hupdates'' & Hqueue'' & _).
    unfold watcher_invariant. simpl.
    split; [discriminate|]. split.
    { intros t Ht. apply in_app_or in Ht as [Ht|[<-|[]]]; [auto|].
      right. split; [apply in_or_app; right; now left|].
      destruct (Htimer due eq_refl) as (c & Hc & -> & Hall).
      exists c. rewrite change_times_snoc, app_nil_r.
      split; [exact Hc|]. split; [exact Hfire|].
      intros c' Hc'. left. auto. }
    split; [exact Hqueue''|].
    rewrite length_app. simpl.
    rewrite change_times_snoc, app_nil_r. lia.
Qed.

Lemma nondecreasing_map_snoc events e :
  nondecreasing (map time (events ++ [e])) ->
  nondecreasing (map time events)
  /\ Forall (fun e' => time e' <= time e) events.
Proof.
  rewrite map_app. simpl. intros H.
  apply nondecreasing_snoc in H as [Hn Hle].
  split; [exact Hn|]. now rewrite List.Forall_map in Hle.
Qed.

Lemma watcher_invariant_run start events :
  nondecreasing (map time events) ->
  watcher_invariant start events (run (main start) events).
Proof.
  induction events as [|e events IH] using rev_ind.
  - intros _. unfold watcher_invariant. simpl.
    split; [discriminate|]. split; [intros t [<-|[]]; now left|].
    split; [reflexivity|lia].
  - intros H. apply nondecreasing_map_snoc in H as [Hn Hle].
    unfold run. rewrite fold_left_app. simpl.
    apply watcher_invariant_step; [exact Hle|now apply IH].
Qed.

(** X26.  The watcher debounces.  Along a run of [main] on a clock that
    does not go back, every call of [updateGist] after the initial one is
    made by the timer at least [DEBOUNCE_DELAY] after a change, with no
    change between that change and the call; there are no more such calls
    than changes.  A change that is the eleventh or later within the hour
    leaves no timer pending: the update that was waiting is cancelled and
    none is scheduled in its place; any other change leaves exactly the
    timer due [DEBOUNCE_DELAY] later. *)
Theorem watcher_debounces (start : Z) (events : list Event) :
  nondecreasing (map time events) ->
  let s := run (main start) events in
  (forall t,
     In t (updates s) ->
     t = start
     \/ In (Timers t) events
        /\ exists c,
             In c (change_times events)
             /\ c + DEBOUNCE_DELAY <= t
             /\ forall c', In c' (change_times events) ->
                           c' <= c \/ t <= c')
  /\ (length (updates s) <= 1 + length (change_times events))%nat
  /\ (forall now,
        Forall (fun e => time e <= now) events ->
        debounceTimeout (step s (Change now))
        = if (10 <? length (recent_changes now (events ++ [Change now])))%nat
          then None
          else Some (now + DEBOUNCE_DELAY)).
Proof.
  intros Hclock s.
  destruct (watcher_invariant_run start events Hclock)
    as (_ & Hupdates & Hqueue & Hcount).
  fold s in Hupdates, Hqueue, Hcount.
  split; [exact Hupdates|]. split; [lia|].
  intros now Hnow. simpl.
  assert (List.filter (fun time => now - time <? 3600000)
            (updateQueue s ++ [now])
          = recent_changes now (events ++ [Change now])) as ->.
  { unfold recent_changes. rewrite change_times_snoc.
    rewrite !List.filter_app. f_equal.
    exact (Hqueue now Hnow). }
  now destruct (10 <? _)%nat.
Qed.
End WatcherFacts.

Lemma watcher_debounces_witness :
  let events :=
    [Watcher.Change 1000; Watcher.Change 61000; Watcher.Timers 121000;
     Watcher.Timers 181000] in
  (length (Watcher.updates (Watcher.run (Watcher.main 0) events))
   <= 1 + length (change_times events))%nat.
Proof.
  intros events.
  apply (watcher_debounces 0 events).
  simpl. repeat (split || constructor); lia.
Defined.

(** ** The BSV echo *)

Section EchoDepth.
Import BsvEcho.

Lemma fold_left_max_ge (depths : list Z) (d : Z) :
  d <= fold_left Z.max depths d
  /\ forall x, In x depths -> x <= fold_left Z.max depths d.
Proof.
  revert d. induction depths as [|a depths IH]; intros d; simpl.
  - split; [lia|intros x []].
  - destruct (IH (Z.max d a)) as [H1 H2].
    split; [lia|]. intros x [<-|Hx]; [lia|auto].
Qed.

Lemma floor_phi_ge (m : Z) : 0 <= m -> m <= Qfloor (inject_Z m * PHI).
Proof.
  intros Hm. rewrite <- (Qfloor_Z m) at 1. apply Qfloor_resp_le.
  rewrite Zle_Qle in Hm. change (inject_Z 0) with 0%Q in Hm.
  unfold PHI. lra.
Qed.

(** X27.  The echo depth stays between 1 and 8: on previous echoes whose
    depths are not negative, [calculateEchoDepth] gives at least 1 and at
    most 8, and never less than the depth of any of them, up to the cap
    of 8. *)
Theorem echo_depth_bounds (previousEchoes : list (option Z)) :
  Forall (fun e => match e with Some d => 0 <= d | None => True end)
    previousEchoes ->
  1 <= calculateEchoDepth previousEchoes <= 8
  /\ forall d, In (Some d) previousEchoes ->
               Z.min d 8 <= calculateEchoDepth previousEchoes.
Proof.
  intros Hpos.
  assert (forall e, In e previousEchoes ->
                    1 <= depth_of e
                    /\ forall d, e = Some d -> d <= depth_of e) as Hdepth.
  { rewrite List.Forall_forall in Hpos.
    intros e He. specialize (Hpos e He).
    destruct e as [d|]; simpl; [|split; [lia|discriminate]].
    unfold js_or_Z. destruct (d =? 0) eqn:E.
    - apply Z.eqb_eq in E. split; [lia|]. intros d' [= <-]. lia.
    - apply Z.eqb_neq in E. split; [lia|]. intros d' [= <-]. lia. }
  unfold calculateEchoDepth.
  destruct previousEchoes as [|e rest]; [simpl; split; [lia|intros d []]|].
  cbn [map].
  destruct (fold_left_max_ge (map depth_of rest) (depth_of e)) as [H1 H2].
  set (maxDepth := fold_left Z.max (map depth_of rest) (depth_of e)) in *.
  assert (1 <= maxDepth) as Hmax
    by (destruct (Hdepth e) as [H _]; [now left|lia]).
  pose proof (floor_phi_ge maxDepth ltac:(lia)) as Hfloor.
  split; [lia|].
  intros d [->|Hd].
  - destruct (Hdepth (Some d)) as [_ H]; [now left|].
    specialize (H d eq_refl). lia.
  - destruct (Hdepth (Some d)) as [_ H]; [now right|].
    specialize (H d eq_refl).
    assert (depth_of (Some d) <= maxDepth)
      by (apply H2, in_map_iff; eauto).
    lia.
Qed.
End EchoDepth.

Lemma echo_depth_bounds_witness :
  1 <= BsvEcho.calculateEchoDepth [Some 2; None; Some 3] <= 8.
Proof.
  apply (echo_depth_bounds [Some 2; None; Some 3]).
  repeat constructor; lia.
Defined.

Section EchoFacts.
Import BsvEcho.
Variable Compressed : Type.
Variable build : Compressed -> list Utxo -> option string.

Lemma createEchoTx_null env jam baseResult utxos :
  createEchoTx Compressed build env jam baseResult utxos = None.
Proof.
  unfold createEchoTx, compressJAM.
  destruct (negb (address env)); [reflexivity|].
  destruct baseResult as [[base_hash [p|]]|]; simpl;
    try destruct (negb (Qeq_bool p 0)); now destruct (jam_hash jam).
Qed.

Lemma fetchUTXOs_from_requests env left s :
  let s' := snd (fetchUTXOs_from env left s) in
  posts s' = posts s /\ (gets s < gets s' <= gets s + S left)%nat.
Proof.
  revert s. induction left as [|left IH]; intros s; simpl.
  - destruct (get env (gets s)) as [|status| |[utxoData|]]; simpl;
      try (split; [reflexivity|lia]).
    destruct (status =? 429); simpl; split; (reflexivity || lia).
  - destruct (get env (gets s)) as [|status| |[utxoData|]]; simpl;
      try (split; [reflexivity|lia]).
    destruct (status =? 429); simpl; [|split; (reflexivity || lia)].
    destruct (IH (sent_get s)) as [Hp Hg]. simpl in Hp, Hg.
    split; [exact Hp|lia].
Qed.

Lemma fetchUTXOs_requests env s :
  let s' := snd (fetchUTXOs env s) in
  posts s' = posts s
  /\ (gets s <= gets s' <= gets s + 6)%nat
  /\ (address env = false -> fetchUTXOs env s = (Resolved [], s)).
Proof.
  unfold fetchUTXOs.
  destruct (address env); cbn [negb]; cbv zeta.
  - destruct (fetchUTXOs_from_requests env 5 s) as [Hp Hg].
    split; [exact Hp|]. split; [lia|discriminate].
  - simpl. split; [reflexivity|]. split; [lia|reflexivity].
Qed.

Lemma emitEcho_loop_requests env jam baseResult left s :
  let result := emitEcho_loop Compressed build env jam baseResult left s in
  fst result = None
  /\ posts (snd result) = posts s
  /\ (gets s <= gets (snd result) <= gets s + 6 * left)%nat
  /\ (address env = false -> snd result = s).
Proof.
  revert s. induction left as [|left IH]; intros s.
  - simpl. split; [reflexivity|]. split; [reflexivity|]. split; [lia|auto].
  - cbn [emitEcho_loop].
    destruct (fetchUTXOs_requests env s) as (Hp & Hg & Hkey).
    destruct (fetchUTXOs env s) as [[|utxos] s1] eqn:Hfetch; simpl in Hp, Hg.
    + destruct (IH s1) as (H1 & H2 & H3 & H4).
      split; [exact H1|]. split; [congruence|]. split; [lia|].
      intros Hno. specialize (Hkey Hno). discriminate Hkey.
    + destruct utxos as [|utxo utxos].
      * simpl. split; [reflexivity|]. split; [exact Hp|]. split; [lia|].
        intros Hno. specialize (Hkey Hno). congruence.
      * rewrite createEchoTx_null.
        destruct (IH s1) as (H1 & H2 & H3 & H4).
        split; [exact H1|]. split; [congruence|]. split; [lia|].
        intros Hno. specialize (Hkey Hno). discriminate Hkey.
Qed.

(** X28.  The bridge to BSV never anchors a signal.  [compressJAM] ends
    in an error on every input, [createEchoTx] turns that into [null], and
    so, whatever the arguments and whatever the API answers,
    [bridgeToBSV] throws on line 367 without a single transaction
    broadcast.  It sends at most eighteen requests for unspent outputs
    (three passes of at most six), and none without a key. *)
Theorem bridge_never_anchors (env : Env) (jam : EchoJam)
    (baseResult : option BaseResult) (s : Net) :
  let result := bridgeToBSV Compressed build env jam baseResult s in
  fst result = Rejected
  /\ posts (snd result) = posts s
  /\ (gets s <= gets (snd result) <= gets s + 18)%nat
  /\ (address env = false -> snd result = s).
Proof.
  unfold bridgeToBSV, emitEcho.
  destruct (emitEcho_loop_requests env jam baseResult 3 s)
    as (H1 & H2 & H3 & H4).
  destruct (emitEcho_loop Compressed build env jam baseResult 3 s)
    as [[result|] s'] eqn:E; simpl in *; [discriminate|].
  split; [reflexivity|]. split; [exact H2|]. split; [lia|exact H4].
Qed.
Lemma broadcastTx_from_answers env left s :
  let result := broadcastTx_from env left s in
  let last := (posts (snd result) - 1)%nat in
  gets (snd result) = gets s
  /\ (posts s < posts (snd result) <= posts s + S left)%nat
  /\ (forall k, (posts s <= k < last)%nat -> post env k = PostStatus 429)
  /\ match fst result with
     | Resolved status => status <> 429 /\ post env last = PostStatus status
     | Rejected =>
         post env last = PostFailed
         \/ (posts (snd result) = posts s + S left)%nat
            /\ post env last = PostStatus 429
     end.
Proof.
  revert s. induction left as [|left IH]; intros s; cbn [broadcastTx_from].
  - destruct (post env (posts s)) as [|status] eqn:Hpost.
    + simpl. rewrite Nat.sub_0_r.
      split; [reflexivity|]. split; [lia|]. split; [intros k Hk; lia|].
      now left.
    + destruct (status =? 429) eqn:Hs; simpl; rewrite Nat.sub_0_r.
      * apply Z.eqb_eq in Hs. subst status.
        split; [reflexivity|]. split; [lia|]. split; [intros k Hk; lia|].
        right. split; [lia|exact Hpost].
      * apply Z.eqb_neq in Hs.
        split; [reflexivity|]. split; [lia|]. split; [intros k Hk; lia|].
        split; assumption.
  - destruct (post env (posts s)) as [|status] eqn:Hpost.
    + simpl. rewrite Nat.sub_0_r.
      split; [reflexivity|]. split; [lia|]. split; [intros k Hk; lia|].
      now left.
    + destruct (status =? 429) eqn:Hs.
      * apply Z.eqb_eq in Hs. subst status.
        destruct (IH (sent_post s)) as (Hg & Hp & Hbefore & Hlast).
        simpl in Hg, Hp, Hbefore.
        split; [exact Hg|]. split; [lia|].
        split.
        { intros k Hk.
          destruct (Nat.eq_dec k (posts s)) as [->|Hne]; [exact Hpost|].
          apply Hbefore. lia. }
        destruct (fst (broadcastTx_from env left (sent_post s)));
          [|exact Hlast].
        destruct Hlast as [Hlast|[Hcount Hlast]]; [now left|right].
        simpl in Hcount. split; [lia|exact Hlast].
      * apply Z.eqb_neq in Hs. simpl. rewrite Nat.sub_0_r.
        split; [reflexivity|]. split; [lia|]. split; [intros k Hk; lia|].
        split; assumption.
Qed.

(** X29.  [broadcastTx] takes any answer but a 429 for a success.  It
    posts the transaction at least once and at most six times, going on
    only while the answers are 429; it returns as soon as an answer has
    another status, whatever that status is, and throws when the request
    itself fails or the sixth answer is a 429 again. *)
Theorem broadcast_accepts_any_status (env : Env) (s : Net) :
  let result := broadcastTx env s in
  let last := (posts (snd result) - 1)%nat in
  gets (snd result) = gets s
  /\ (posts s < posts (snd result) <= posts s + 6)%nat
  /\ (forall k, (posts s <= k < last)%nat -> post env k = PostStatus 429)
  /\ (forall status,
        fst result = Resolved status <->
        status <> 429 /\ post env last = PostStatus status)
  /\ (fst result = Rejected <->
      post env last = PostFailed
      \/ (posts (snd result) = posts s + 6)%nat
         /\ post env last = PostStatus 429).
Proof.
  unfold broadcastTx.
  destruct (broadcastTx_from_answers env 5 s) as (Hg & Hp & Hbefore & Hlast).
  split; [exact Hg|]. split; [exact Hp|]. split; [exact Hbefore|].
  destruct (fst (broadcastTx_from env 5 s)) as [|status0].
  - split.
    + intros status. split; [discriminate|].
      intros [Hne Hpost].
      destruct Hlast as [Hlast|[_ Hlast]]; congruence.
    + split; [intros _; exact Hlast|reflexivity].
  - destruct Hlast as [Hne Hpost]. split.
    + intros status. split.
      * intros [= <-]. now split.
      * intros [_ Hpost']. congruence.
    + split; [discriminate|].
      intros [Hfail|[_ H429]]; congruence.
Qed.
End EchoFacts.
